(** * Hanoi tourism data pipeline: ingestion, ranking and deduplication

    A shallow embedding of the resumable batch importers
    ([prepare_data/import_to_qdrant.py], [prepare_data/import_to_vectordb.py]),
    of the restaurant scoring, deduplication and recommendation of
    [prepare_data/recommendatin_food.py], of the POI collection of
    [prepare_data/osm_collector.py], of the enrichment step of
    [prepare_data/web_crawler.py], of the documents and the quality score
    of [prepare_data/data_processor.py], of the statistics of
    [prepare_data/main.py] and of the loaders of the two importers, with
    the properties stated about them. *)

From Stdlib Require Import ZArith QArith Floats Ascii String DecimalString.
From Stdlib Require Import DecimalPos DecimalZ Sorted Lia Lqa.
From stdpp Require Import base list gmap strings.

Local Open Scope nat_scope.

(** A decimal literal of type [float] stands for the nearest binary64
    value, as it does in Python. *)
Set Warnings "-inexact-float".

(** ** Python lists: slices and ranges *)

(** [l[i:j]] for [0 <= i <= j]; Python clips the slice at the end of [l]. *)
Definition slice {A : Type} (l : list A) (i j : nat) : list A :=
  take (j - i) (drop i l).

(** [len(range(0, stop, step))] for [step > 0], as CPython computes it. *)
Definition range_length (stop step : nat) : nat :=
  match stop with
  | 0 => 0
  | S hi => hi / step + 1
  end.

(** [range(0, stop, step)] for [step > 0]: the multiples of [step] below
    [stop]. *)
Definition py_range (stop step : nat) : list nat :=
  (fun j => j * step) <$> seq 0 (range_length stop step).

(** The batches that a loop [for i in range(0, len(work), B)] forms with
    [work[i : i + B]]. *)
Definition batches_of {A : Type} (B : nat) (work : list A) : list (list A) :=
  (fun i => slice work i (i + B)) <$> py_range (length work) B.

(** ** The vector store and what a run does to it *)

Module Ingest.

(** Outcome of one commit call ([QdrantVectorStore.from_documents],
    [Chroma.add_documents]): it returns, or raises an exception [e] of which
    the importers only read [str(e)]. *)
Inductive upsert_result : Type :=
| Committed
| Failed (error_msg : string).

Definition is_committed (r : upsert_result) : bool :=
  match r with Committed => true | Failed _ => false end.

(** The effects of a run, in the order they happen. [EvStop] is the
    [logger.error] line written when a batch has used up its attempts; it
    carries the number printed in that line. *)
Inductive event (Doc : Type) : Type :=
| EvUpsert (batch : list Doc) (r : upsert_result)
| EvSleep (seconds : Q)
| EvStop (at_batch : Z).
Arguments EvUpsert {Doc} batch r.
Arguments EvSleep {Doc} seconds.
Arguments EvStop {Doc} at_batch.

(** What a while loop over one batch hands back to the enclosing for loop:
    go on with the next batch, or leave the function with a value. *)
Inductive flow : Type :=
| Next (success_count : nat)
| Return (success_count : nat).

Section Trace.
Context {Doc : Type}.

(** The commit calls of a trace, each with whether it went through. *)
Fixpoint attempts (tr : list (event Doc)) : list (list Doc * bool) :=
  match tr with
  | [] => []
  | EvUpsert b r :: tr' => (b, is_committed r) :: attempts tr'
  | _ :: tr' => attempts tr'
  end.

(** Every batch handed to the store, failed attempts included. *)
Definition submitted (tr : list (event Doc)) : list (list Doc) :=
  fst <$> attempts tr.

(** The batches the store accepted. *)
Definition committed (tr : list (event Doc)) : list (list Doc) :=
  fst <$> filter (fun a => snd a = true) (attempts tr).

(** Whether the run gave up on a batch. *)
Fixpoint stopped (tr : list (event Doc)) : bool :=
  match tr with
  | [] => false
  | EvStop _ :: _ => true
  | _ :: tr' => stopped tr'
  end.

(** The commit calls a loop over the batches [bs] can make with at most [R]
    attempts for each: a batch goes through after [k < R] failures and the
    loop goes on, or it fails [R] times and nothing follows. The number
    counts the batches that went through, the boolean tells whether the
    loop gave up. *)
Inductive run_shape (R : nat)
  : list (list Doc) -> list (list Doc * bool) -> nat -> bool -> Prop :=
| shape_done : run_shape R [] [] 0 false
| shape_commit b bs k att j st :
    k < R ->
    run_shape R bs att j st ->
    run_shape R (b :: bs) (replicate k (b, false) ++ (b, true) :: att)
      (S j) st
| shape_stop b bs :
    run_shape R (b :: bs) (replicate R (b, false)) 0 true.

(** The trace of commit calls that are each followed by a pause, whose
    length depends on what the store answered. *)
Definition calls_with_waits (wait : upsert_result -> Q)
    (cs : list (list Doc * upsert_result)) : list (event Doc) :=
  cs ≫= fun c => [EvUpsert c.1 c.2; EvSleep (wait c.2)].
End Trace.

(** ** A state-and-trace monad for the importers *)

Section Ingestor.
Context {Doc Store : Type}.

(** The store's commit operation: outcome and next state of the store. *)
Variable upsert : list Doc -> Store -> upsert_result * Store.
(** The number of seconds that [re.search] finds after the words
    "retry in" of the error message, read by [float]; [None] when the
    pattern does not match. *)
Variable retry_hint : string -> option Q.

Record outcome (A : Type) : Type := Outcome {
  value : A;
  trace : list (event Doc);
  store : Store
}.
Arguments Outcome {A} value trace store.
Arguments value {A} o.
Arguments trace {A} o.
Arguments store {A} o.

Definition M (A : Type) : Type := Store -> outcome A.

Definition ret {A : Type} (a : A) : M A := fun s => Outcome a [] s.

Definition bind {A B : Type} (m : M A) (k : A -> M B) : M B :=
  fun s =>
    let o := m s in
    let o' := k (value o) (store o) in
    Outcome (value o') (trace o ++ trace o') (store o').

Definition call_upsert (batch : list Doc) : M upsert_result :=
  fun s => let '(r, s') := upsert batch s in Outcome r [EvUpsert batch r] s'.

Definition sleep (seconds : Q) : M unit :=
  fun s => Outcome tt [EvSleep seconds] s.

Definition log_stop (n : Z) : M unit :=
  fun s => Outcome tt [EvStop n] s.

Notation "'do' x <- m ; k" := (bind m (fun x => k))
  (at level 10, x name, m at level 100, k at level 200).
Notation "'run' m ; k" := (bind m (fun _ => k))
  (at level 10, m at level 100, k at level 200).

(** *** [import_to_qdrant.py] *)

(** The processing configuration of the module ([BATCH_SIZE = 10],
    [DELAY_SECONDS = 2], [MAX_RETRIES = 3]). *)
Variable BATCH_SIZE : nat.
Variable DELAY_SECONDS : Q.
Variable MAX_RETRIES : nat.

(** [wait_time] of the except branch. *)
Definition wait_time (default : Q) (error_msg : string) : Q :=
  match retry_hint error_msg with
  | Some t => (t + 5)%Q
  | None => default
  end.

(** The loop [while not success and retry_count < MAX_RETRIES] over one
    batch, by recursion on [remaining = MAX_RETRIES - retry_count]. The
    loop is entered with [success = False] and left as soon as it is set,
    so [remaining = 0] is the exit with [success] still false. *)
Fixpoint commit_batch (remaining : nat) (batch : list Doc) (more : bool)
    (batch_num : Z) (success_count : nat) : M flow :=
  match remaining with
  | 0 => ret (Next success_count)
  | S remaining' =>
      do r <- call_upsert batch;
      match r with
      | Committed =>
          run (if more then sleep DELAY_SECONDS else ret tt);
          ret (Next (success_count + length batch))
      | Failed error_msg =>
          match remaining' with
          | S _ =>
              run sleep (wait_time 10 error_msg);
              commit_batch remaining' batch more batch_num success_count
          | 0 =>
              run log_stop batch_num;
              ret (Return success_count)
          end
      end
  end.

(** The loop [for i in range(0, len(docs_to_process), BATCH_SIZE)], over
    the indices still to visit, and the [return success_count] after it. *)
Fixpoint import_batches (indices : list nat) (docs_to_process : list Doc)
    (existing_count : Z) (success_count : nat) : M (option nat) :=
  match indices with
  | [] => ret (Some success_count)
  | i :: indices' =>
      let batch := slice docs_to_process i (i + BATCH_SIZE) in
      let current_idx := (existing_count + Z.of_nat i)%Z in
      let batch_num := (current_idx / Z.of_nat BATCH_SIZE + 1)%Z in
      let more := i + BATCH_SIZE <? length docs_to_process in
      do f <- commit_batch MAX_RETRIES batch more batch_num success_count;
      match f with
      | Next success_count' =>
          import_batches indices' docs_to_process existing_count
            success_count'
      | Return v => ret (Some v)
      end
  end.

(** [docs_to_process] as both scripts compute it: [documents] when
    [existing_count] is not positive, [documents[existing_count:]]
    otherwise. *)
Definition remaining_docs (documents : list Doc) (existing_count : Z)
    : list Doc :=
  if (0 <? existing_count)%Z
  then drop (Z.to_nat existing_count) documents
  else documents.

(** [import_to_qdrant_with_langchain(documents, embeddings,
    existing_count)]. The value is [None] for the bare [return]. *)
Definition import_to_qdrant_with_langchain (documents : list Doc)
    (existing_count : Z) : M (option nat) :=
  let total_docs := length documents in
  if (Z.of_nat total_docs <=? existing_count)%Z then ret None
  else
    let docs_to_process := remaining_docs documents existing_count in
    import_batches (py_range (length docs_to_process) BATCH_SIZE)
      docs_to_process existing_count 0.

(** *** [import_to_vectordb.py] *)

(** [vector_store._collection.count()]; [None] when the call raises. *)
Variable count : Store -> option Z.

(** The loop [while not success and retry_count < 3] of [main]; the value
    is the final [success]. *)
Fixpoint add_batch (remaining : nat) (batch : list Doc) : M bool :=
  match remaining with
  | 0 => ret false
  | S remaining' =>
      do r <- call_upsert batch;
      match r with
      | Committed => run sleep DELAY_SECONDS; ret true
      | Failed error_msg =>
          run sleep (wait_time 65 error_msg);
          add_batch remaining' batch
      end
  end.

(** The for loop of [main], left by [break] when a batch did not go
    through. *)
Fixpoint add_batches (indices : list nat) (docs_to_process : list Doc)
    (existing_count : Z) : M unit :=
  match indices with
  | [] => ret tt
  | i :: indices' =>
      let batch := slice docs_to_process i (i + BATCH_SIZE) in
      let current_idx := (existing_count + Z.of_nat i)%Z in
      do success <- add_batch MAX_RETRIES batch;
      if success
      then add_batches indices' docs_to_process existing_count
      else log_stop current_idx
  end.

(** [main()], from the documents loaded from the JSON file on. The test
    [existing_count >= total_docs] is made for a positive [existing_count]
    only. *)
Definition main (all_split_docs : list Doc) : M unit :=
  fun s =>
    let total_docs := length all_split_docs in
    let existing_count := default 0%Z (count s) in
    if (0 <? existing_count)%Z && (Z.of_nat total_docs <=? existing_count)%Z
    then ret tt s
    else
      let docs_to_process := remaining_docs all_split_docs existing_count in
      add_batches (py_range (length docs_to_process) BATCH_SIZE)
        docs_to_process existing_count s.

(** A commit call of a trace carries what the store answered, in some
    state, to that batch. *)
Definition answered (a : list Doc * bool) : Prop :=
  exists s, is_committed (fst (upsert (fst a) s)) = snd a.

(** What the two scripts have in common: a trace of either, started with
    [existing_count = k]. *)
Definition run_from (documents : list Doc) (k : nat) (s : Store)
    (tr : list (event Doc)) : Prop :=
  tr = trace (import_to_qdrant_with_langchain documents (Z.of_nat k) s)
  \/ (count s = Some (Z.of_nat k) /\ tr = trace (main documents s)).

End Ingestor.

Arguments Outcome {Doc Store A} value trace store.
Arguments value {Doc Store A} o.
Arguments trace {Doc Store A} o.
Arguments store {Doc Store A} o.

(** *** Stores to run the importers on *)

(** A store that takes every batch: its state is what it holds. *)
Definition accepting_store (batch : list nat) (held : list nat)
    : upsert_result * list nat :=
  (Committed, held ++ batch).

(** Its [count()]: the number of documents held. *)
Definition accepting_count (held : list nat) : option Z :=
  Some (Z.of_nat (length held)).

(** A store with a quota of commit calls, counted by its state: once the
    quota is used up every call fails, rate limited. *)
Definition quota_store (quota : nat) (batch : list nat) (calls : nat)
    : upsert_result * nat :=
  (if calls <? quota then Committed
   else Failed "429 quota exceeded, retry in 30s",
   S calls).

(** A store that lets a call through only when two calls failed before
    it. *)
Definition flaky_store (batch : list nat) (calls : nat)
    : upsert_result * nat :=
  (if calls mod 3 =? 2 then Committed else Failed "429", S calls).

(** The hint that the pattern finds in the messages of these stores. *)
Definition read_hint (error_msg : string) : option Q :=
  if decide (error_msg = "429 quota exceeded, retry in 30s") then Some 30%Q
  else None.

(** The configuration each script ships with. *)
Definition QDRANT_BATCH_SIZE : nat := 10.
Definition QDRANT_DELAY_SECONDS : Q := 2.
Definition QDRANT_MAX_RETRIES : nat := 3.
Definition CHROMA_BATCH_SIZE : nat := 5.
Definition CHROMA_DELAY_SECONDS : Q := 5.
Definition CHROMA_MAX_RETRIES : nat := 3.

End Ingest.

(** ** [recommendatin_food.py]: scoring and deduplication *)

Module Food.

(** *** Python arithmetic on [int] and [float] *)

(** The exceptions the arithmetic of [_calculate_score] can raise. *)
Inductive exn : Type :=
| ZeroDivisionError
| OverflowError.

Inductive result (A : Type) : Type :=
| Val (a : A)
| Raise (e : exn).
Arguments Val {A} a.
Arguments Raise {A} e.

Definition result_bind {A B : Type} (r : result A) (k : A -> result B)
    : result B :=
  match r with
  | Val a => k a
  | Raise e => Raise e
  end.

(** [float(n)] for a Python [int]: the nearest binary64 value, ties to even;
    an [int] beyond the range of binary64 raises. *)
Definition float_of_int (n : Z) : result float :=
  let f := SF2Prim (binary_normalize prec emax n 0 false) in
  if is_infinity f then Raise OverflowError else Val f.

(** [n * x] with [n] an [int] and [x] a [float]: [n] is converted first. *)
Definition int_mul_float (n : Z) (x : float) : result float :=
  result_bind (float_of_int n) (fun fn => Val (fn * x)%float).

(** [x * n] with [x] a [float] and [n] an [int]. *)
Definition float_mul_int (x : float) (n : Z) : result float :=
  result_bind (float_of_int n) (fun fn => Val (x * fn)%float).

(** [x / n] with [x] a [float] and [n] an [int]. *)
Definition float_div_int (x : float) (n : Z) : result float :=
  result_bind (float_of_int n) (fun fn =>
    if (fn =? 0)%float then Raise ZeroDivisionError else Val (x / fn)%float).

(** *** [FoodRecommendationService._calculate_score] *)

Definition _calculate_score (rating : option float) (review_count : Z)
    : result float :=
  match rating with
  | None => Val 50%float
  | Some rating =>
      let C := 10%Z in
      let m := 7%float in
      result_bind (int_mul_float C m) (fun cm =>
      result_bind (int_mul_float review_count rating) (fun nr =>
      result_bind (float_div_int (cm + nr)%float (C + review_count)%Z)
        (fun score =>
      result_bind (float_div_int score 10) (fun tenth =>
      float_mul_int tenth 100))))
  end.

(** The formula as the specification words it: the Bayesian average
    [(C*m + review_count*rating) / (C + review_count)] with [C = 10] and
    [m = 7.0], then the normalisation [(score / 10) * 100], each step in
    Python's arithmetic. *)
Definition bayesian_average (C : Z) (m : float) (rating : float)
    (review_count : Z) : result float :=
  result_bind (int_mul_float C m) (fun prior =>
  result_bind (int_mul_float review_count rating) (fun weighted =>
  float_div_int (prior + weighted)%float (C + review_count)%Z)).

Definition normalize_0_100 (score : float) : result float :=
  result_bind (float_div_int score 10) (fun tenth =>
  float_mul_int tenth 100).

Definition spec_score (rating : option float) (review_count : Z)
    : result float :=
  match rating with
  | None => Val 50%float
  | Some rating =>
      result_bind (bayesian_average 10 7 rating review_count) normalize_0_100
  end.


(** [x <= y] on two results, false when either call raised. *)
Definition result_leb (x y : result float) : bool :=
  match x, y with
  | Val a, Val b => (a <=? b)%float
  | _, _ => false
  end.

(** The rating written with one decimal, [k / 10]: the binary64 value that
    [float] reads from such text. *)
Definition one_decimal (k : nat) : option float :=
  match float_of_int (Z.of_nat k) with
  | Val f => Some (f / 10)%float
  | Raise _ => None
  end.

(** The score in binary64 does not decrease from one of the ratings 0.0,
    0.1, ..., 9.9 to the next, whatever the review count up to
    [max_reviews]; nor from one review count to the next, for the ratings
    7.1, ..., 10.0. *)
Definition monotone_on_grid (max_reviews : nat) : bool :=
  forallb (fun n =>
    forallb (fun k =>
      result_leb (_calculate_score (one_decimal k) (Z.of_nat n))
        (_calculate_score (one_decimal (S k)) (Z.of_nat n))
      && (negb (70 <? S k)
          || result_leb (_calculate_score (one_decimal (S k)) (Z.of_nat n))
               (_calculate_score (one_decimal (S k)) (Z.of_nat (S n)))))
      (seq 0 100))
    (seq 0 (S max_reviews)).

(** *** Candidate records *)

(** The restaurant dictionaries built by the fetchers. A score is a finite
    [float] (or the [int] 50), held as the rational it denotes: Python
    compares such numbers by value. *)
Record restaurant : Type := Restaurant {
  name : string;
  url : string;
  address : string;
  rating : option Q;
  review_count : Z;
  source : string;
  score : Q
}.

(** *** [FoodRecommendationService._deduplicate_and_rank] *)

Section Normalizer.
(** [str.lower] and [str.strip], the methods of Python on strings of any
    script. The deduplication compares what they return and nothing else,
    so they are taken as they are: two functions from strings to
    strings. *)
Variable lower : string -> string.
Variable strip : string -> string.

(** [restaurant['name'].lower().strip()] *)
Definition name_normalized (r : restaurant) : string := strip (lower (name r)).

(** The for loop, with its three accumulators. *)
Fixpoint dedup_loop (restaurants : list restaurant)
    (seen_names seen_urls : gset string) (unique : list restaurant)
    : list restaurant :=
  match restaurants with
  | [] => unique
  | r :: rest =>
      if bool_decide (name_normalized r ∈ seen_names)
         || bool_decide (url r ∈ seen_urls)
      then dedup_loop rest seen_names seen_urls unique
      else dedup_loop rest ({[name_normalized r]} ∪ seen_names)
             ({[url r]} ∪ seen_urls) (unique ++ [r])
  end.

(** [a < b] on scores. *)
Definition score_ltb (a b : Q) : bool := negb (Qle_bool b a).

(** [list.sort(key=lambda x: x['score'], reverse=True)]. Python's sort is
    stable, also with [reverse=True], so its result is the one of any stable
    sort by decreasing key; here by insertion from the right, each record
    going before the first one whose score is not higher. *)
Fixpoint insert_desc (x : restaurant) (l : list restaurant)
    : list restaurant :=
  match l with
  | [] => [x]
  | y :: l' =>
      if score_ltb (score x) (score y) then y :: insert_desc x l'
      else x :: y :: l'
  end.

Definition sort_by_score_desc (l : list restaurant) : list restaurant :=
  foldr insert_desc [] l.

(** The list [unique] when the for loop is over, before it is sorted. *)
Definition unique_restaurants (restaurants : list restaurant)
    : list restaurant :=
  dedup_loop restaurants ∅ ∅ [].

Definition _deduplicate_and_rank (restaurants : list restaurant)
    : list restaurant :=
  sort_by_score_desc (unique_restaurants restaurants).

(** Two records have the same normalized key: the same normalized name and
    the same URL. *)
Definition same_key (x y : restaurant) : bool :=
  bool_decide (name_normalized y = name_normalized x)
  && bool_decide (url y = url x).

End Normalizer.

(** [x] is ranked at or above [y]. *)
Definition ranks_above (x y : restaurant) : Prop := (score y <= score x)%Q.

End Food.

(** ** [recommendatin_food.py]: the recommendations of the service *)

Module FoodService.
Import Food.

(** [l[:n]] for an [int] [n]: a negative [n] counts from the end. *)
Definition slice_to {A : Type} (l : list A) (n : Z) : list A :=
  if (0 <=? n)%Z then take (Z.to_nat n) l
  else take (length l - Z.to_nat (- n)) l.

Section Service.
(** What the two fetchers hand to [asyncio.gather] for a location and a
    limit: a list, or an exception ([None]), which [gather] returns in
    place of the list since it is called with [return_exceptions=True]. *)
Variable _fetch_from_foody : string -> Z -> option (list restaurant).
Variable _fetch_from_search_engines : string -> Z -> option (list restaurant).
(** The dictionary that [_crawl_foody_detail] returns: the record it was
    given, with the fields that the page yields written over it. The keys
    it may add ([price_range], [opening_hours], [category], [image]) are
    not read again by the service. *)
Variable _crawl_foody_detail : restaurant -> restaurant.
(** [str.lower] and [str.strip], which the deduplication calls. *)
Variable lower : string -> string.
Variable strip : string -> string.

Definition _return_as_is (r : restaurant) : restaurant := r.

(** [_enrich_with_details]: one task for each record, and of the results
    the dictionaries with a non-empty name. *)
Definition _enrich_with_details (restaurants : list restaurant)
    : list restaurant :=
  let detailed :=
    (fun r => if decide (source r = "foody") then _crawl_foody_detail r
              else _return_as_is r) <$> restaurants in
  filter (fun r => name r <> "") detailed.

Definition get_food_recommendations (location_name : string) (limit : Z)
    : list restaurant :=
  let results :=
    [_fetch_from_foody location_name limit;
     _fetch_from_search_engines location_name limit] in
  let all_restaurants := concat (omap id results) in
  let unique_restaurants :=
    _deduplicate_and_rank lower strip all_restaurants in
  let detailed_restaurants :=
    _enrich_with_details (slice_to unique_restaurants (limit * 2)) in
  slice_to detailed_restaurants limit.
End Service.

End FoodService.

(** ** [osm_collector.py]: POIs unique by OSM id *)

Module OSM.

(** The fields of a parsed element that the collector itself reads or sets
    from its arguments. *)
Record poi : Type := Poi {
  osm_id : Z;
  osm_type : string;
  name : string;
  category : string
}.

(** [d[k] = v] on a Python dictionary, which keeps its keys in the order of
    their first insertion: a known key keeps its place and takes the new
    value, a new key goes last. *)
Fixpoint dict_set (k : Z) (v : poi) (d : list (Z * poi)) : list (Z * poi) :=
  match d with
  | [] => [(k, v)]
  | (k', v') :: d' =>
      if decide (k' = k) then (k', v) :: d' else (k', v') :: dict_set k v d'
  end.

(** The comprehension [{poi["osm_id"]: poi for poi in all_pois}]. *)
Definition dict_by_osm_id (all_pois : list poi) : list (Z * poi) :=
  foldl (fun d p => dict_set (osm_id p) p d) [] all_pois.

(** [list({...}.values())] *)
Definition unique_pois (all_pois : list poi) : list poi :=
  snd <$> dict_by_osm_id all_pois.

Section Collector.
(** What [_fetch_category(bounds, category)] answers for the [k]-th
    category of the call. *)
Variable fetch_category : nat -> string -> list poi.

(** The for loop over [categories]: [all_pois.extend(pois)]. *)
Fixpoint accumulate (k : nat) (categories : list string) (all_pois : list poi)
    : list poi :=
  match categories with
  | [] => all_pois
  | c :: categories' =>
      accumulate (S k) categories' (all_pois ++ fetch_category k c)
  end.

(** [collect_pois(city, categories)]; [None] is the [ValueError] for a city
    without bounds ([CITY_BOUNDS] knows Hanoi only). *)
Definition collect_pois (city : string) (categories : list string)
    : option (list poi) :=
  if decide (city = "Hanoi") then
    Some (unique_pois (accumulate 0 categories []))
  else None.
End Collector.

End OSM.

(** ** Python exceptions *)

Module Py.

(** The exceptions that the code of the pipeline can raise on the data it
    handles. A [KeyError] carries the key that was not found. *)
Inductive exn : Type :=
| KeyError (key : string)
| AttributeError
| TypeError
| ValueError
| OverflowError.

Inductive result (A : Type) : Type :=
| Val (a : A)
| Raise (e : exn).
Arguments Val {A} a.
Arguments Raise {A} e.

Definition result_bind {A B : Type} (r : result A) (k : A -> result B)
    : result B :=
  match r with
  | Val a => k a
  | Raise e => Raise e
  end.

End Py.

(** ** [osm_collector.py]: from Overpass elements to POIs *)

Module Overpass.
Import Py.

(** [d[key]] on a dictionary. *)
Definition getitem {V : Type} (d : gmap string V) (key : string) : result V :=
  match d !! key with
  | Some v => Val v
  | None => Raise (KeyError key)
  end.

(** [[f(x) for x in l]], which stops at the first [f(x)] that raises. *)
Fixpoint comprehension {A B : Type} (f : A -> result B) (l : list A)
    : result (list B) :=
  match l with
  | [] => Val []
  | x :: l' =>
      result_bind (f x) (fun y =>
      result_bind (comprehension f l') (fun ys => Val (y :: ys)))
  end.

(** The truth value of what [tags.get(key)] returns: [None] and the empty
    string are false. *)
Definition truthy (v : option string) : bool :=
  match v with
  | Some s => negb (String.eqb s "")
  | None => false
  end.

(** [a or b] on two such values. *)
Definition or_ (a b : option string) : option string :=
  if truthy a then a else b.

(** [a or b] with [b] a string: always a string. *)
Definition or_str (a : option string) (b : string) : string :=
  match a with
  | Some s => if String.eqb s "" then b else s
  | None => b
  end.

(** An element of an Overpass answer: a JSON object with the keys [id] and
    [type], [lat] and [lon] for a node, [center] for a way or a relation
    asked with [out center], and [tags]. A key may be missing. Tag values
    are strings, coordinates are numbers. *)
Record element : Type := Element {
  el_id : option Z;
  el_type : option string;
  el_lat : option float;
  el_lon : option float;
  el_center : option (gmap string float);
  el_tags : option (gmap string string)
}.

Record location : Type := Location {
  lat : option float;
  lon : option float;
  address : string
}.

Record basic_info : Type := BasicInfo {
  description : string;
  wikipedia : option string;
  wikidata : option string;
  website : option string;
  phone : option string;
  opening_hours : option string
}.

(** The dictionary that [_parse_element] returns; [type_] is its key
    [type]. *)
Record poi : Type := Poi {
  osm_id : Z;
  osm_type : string;
  name : string;
  name_en : option string;
  name_vi : option string;
  category : string;
  type_ : string;
  location_ : location;
  basic_info_ : basic_info;
  raw_tags : gmap string string
}.

(** [if value := tags.get(key): parts.append(value)], as the list of what
    is appended. *)
Definition part (tags : gmap string string) (key : string) : list string :=
  match tags !! key with
  | Some value => if String.eqb value "" then [] else [value]
  | None => []
  end.

(** [OSMCollector._build_address] *)
Definition _build_address (tags : gmap string string) : string :=
  let parts :=
    part tags "addr:housenumber" ++ part tags "addr:street"
    ++ part tags "addr:district" ++ part tags "addr:city" in
  match parts with
  | [] => ""
  | _ => String.concat ", " parts
  end.

(** The coordinates that [_parse_element] reads: those of the element
    when it has both, else those of its [center], else none. *)
Definition coordinates (element : element)
    : result (option float * option float) :=
  match el_lat element, el_lon element, el_center element with
  | Some lat, Some lon, _ => Val (Some lat, Some lon)
  | _, _, Some center =>
      result_bind (getitem center "lat") (fun lat =>
      result_bind (getitem center "lon") (fun lon =>
      Val (Some lat, Some lon)))
  | _, _, None => Val (None, None)
  end.

(** [OSMCollector._parse_element] *)
Definition _parse_element (element : element) (category : string)
    : result poi :=
  let tags := default ∅ (el_tags element) in
  result_bind (coordinates element) (fun '(lat, lon) =>
  let name :=
    or_str (or_ (or_ (tags !! "name:vi") (tags !! "name")) (tags !! "name:en"))
      "Unknown" in
  let description :=
    or_str (or_ (or_ (tags !! "description:vi") (tags !! "description"))
              (tags !! "description:en")) "" in
  let poi_type :=
    or_str (or_ (or_ (tags !! "historic") (tags !! "tourism"))
              (tags !! "amenity")) category in
  match el_id element with
  | None => Raise (KeyError "id")
  | Some id =>
      match el_type element with
      | None => Raise (KeyError "type")
      | Some type =>
          Val {|
            osm_id := id;
            osm_type := type;
            name := name;
            name_en := tags !! "name:en";
            name_vi := tags !! "name:vi";
            category := category;
            type_ := poi_type;
            location_ := {|
              lat := lat;
              lon := lon;
              address := _build_address tags
            |};
            basic_info_ := {|
              description := description;
              wikipedia := tags !! "wikipedia";
              wikidata := tags !! "wikidata";
              website := tags !! "website";
              phone := tags !! "phone";
              opening_hours := tags !! "opening_hours"
            |};
            raw_tags := tags
          |}
      end
  end).

(** The coordinates of an element can be read: it has [lat] and [lon], or
    no [center], or a [center] with [lat] and [lon]. *)
Definition located (el : element) : Prop :=
  (is_Some (el_lat el) /\ is_Some (el_lon el))
  \/ match el_center el with
     | Some center => is_Some (center !! "lat") /\ is_Some (center !! "lon")
     | None => True
     end.

(** *** The Overpass servers *)

Definition OVERPASS_SERVERS : list string :=
  ["https://overpass.kumi.systems/api/interpreter";
   "https://overpass-api.de/api/interpreter";
   "https://lz4.overpass-api.de/api/interpreter"].

(** The JSON object of an answer, of which the collector reads the key
    [elements] only; [None] when the object has no such key, as the empty
    dictionary has none. *)
Record overpass_data : Type := OverpassData {
  elements : option (list element)
}.

(** What [session.post] brings back: an exception (a timeout, a refused
    connection), or a response with its status and with what
    [response.json()] returns, [None] when that call raises. *)
Inductive response : Type :=
| RequestFailed
| Response (status : Z) (json : option overpass_data).

(** One turn of the for loop of [_query_overpass]: what it returns, or
    [None] when it goes on to the next server, after a warning. *)
Definition returned (r : response) : option overpass_data :=
  match r with
  | RequestFailed => None
  | Response status json => if (status =? 200)%Z then json else None
  end.

Section Network.
(** The answer of a server to the query that [_fetch_category] builds
    for a category and the bounds of Hanoi. *)
Variable post : string -> string -> response.

(** The for loop of [_query_overpass] over the servers still to try, and
    the [return {}] after it. *)
Fixpoint query_servers (servers : list string) (category : string)
    : overpass_data :=
  match servers with
  | [] => {| elements := None |}
  | server :: servers' =>
      match returned (post server category) with
      | Some data => data
      | None => query_servers servers' category
      end
  end.

Definition _query_overpass (category : string) : overpass_data :=
  query_servers OVERPASS_SERVERS category.

(** [OSMCollector._fetch_category] *)
Definition _fetch_category (category : string) : result (list poi) :=
  let data := _query_overpass category in
  match elements data with
  | None => Val []
  | Some els => comprehension (fun el => _parse_element el category) els
  end.
End Network.

End Overpass.

(** ** Python's [round] on a [float] *)

Module PyFloat.

(** [a / d] rounded to the nearest integer, ties to the even one, for
    [d > 0]. *)
Definition round_half_even (a d : Z) : Z :=
  let q := (a / d)%Z in
  let r := (a mod d)%Z in
  match (2 * r ?= d)%Z with
  | Lt => q
  | Gt => (q + 1)%Z
  | Eq => if Z.even q then q else (q + 1)%Z
  end.

(** The binary64 value nearest to [n / d], ties to even, for [d > 0]:
    what [float] reads from the decimal text of [n / d]. The quotient is
    taken with 56 bits and more, and a last bit that tells whether anything
    was cut off. *)
Definition nearest_quotient (n d : Z) : float :=
  let k := (56 + Z.log2_up d)%Z in
  let num := (Z.abs n * 2 ^ k)%Z in
  let m := (2 * (num / d) + (if (num mod d =? 0)%Z then 0 else 1))%Z in
  SF2Prim (binary_normalize prec emax (Z.sgn n * m) (- k - 1) false).

(** [round(x, ndigits)] for a float [x] and [ndigits >= 0]: the exact
    value of [x] is rounded to [ndigits] decimals, ties to the even
    digit, and the decimal number is read back as a float. Infinities,
    NaN and integral values come back as they are. *)
Definition round (x : float) (ndigits : nat) : float :=
  match Prim2SF x with
  | S754_finite s m e =>
      if (0 <=? e)%Z then x
      else
        let scale := (10 ^ Z.of_nat ndigits)%Z in
        let a := ((if s then Z.neg m else Z.pos m) * scale)%Z in
        let n := round_half_even a (2 ^ (- e)) in
        if (n =? 0)%Z then (if s then (-0)%float else 0%float)
        else nearest_quotient n scale
  | _ => x
  end.

(** A float that is a number: neither an infinity nor NaN. *)
Definition finite (x : float) : bool :=
  match Prim2SF x with
  | S754_zero _ | S754_finite _ _ _ => true
  | _ => false
  end.

End PyFloat.

(** ** [data_processor.py]: the data quality score *)

Module Processor.
Import Overpass.

(** The dictionary that [WikipediaEnricher._fetch_wikipedia_data] returns
    for a page it found. *)
Record wikipedia_data : Type := WikipediaData {
  title : option string;
  summary : string;
  url : option string;
  image_url : option string;
  categories : list string;
  language : string
}.

(** [wiki_data.get(key)] on the [wikipedia_data] of a POI, which is the
    empty dictionary ([None] here) when no page was found. *)
Definition wiki_summary (wiki_data : option wikipedia_data) : option string :=
  summary <$> wiki_data.

Definition wiki_image_url (wiki_data : option wikipedia_data)
    : option string :=
  wiki_data ≫= image_url.

(** The truth value of a coordinate: [None] and zero are false. *)
Definition truthy_number (v : option float) : bool :=
  match v with
  | Some x => negb (x =? 0)%float
  | None => false
  end.

(** [DataProcessor._calculate_quality_score] *)
Definition _calculate_quality_score (osm_data : poi)
    (wiki_data : option wikipedia_data) : float :=
  let score := 0%float in
  let score :=
    if truthy (Some (name osm_data)) then (score + 0.2)%float else score in
  let score :=
    if truthy_number (lat (location_ osm_data)) then (score + 0.2)%float
    else score in
  let score :=
    if truthy (wiki_summary wiki_data) then (score + 0.3)%float else score in
  let score :=
    if truthy (wiki_image_url wiki_data) then (score + 0.15)%float
    else score in
  let score :=
    if truthy (phone (basic_info_ osm_data))
       || truthy (website (basic_info_ osm_data))
    then (score + 0.15)%float else score in
  PyFloat.round score 2.

End Processor.

(** ** [web_crawler.py]: tips and food recommendations for a POI *)

Module WebCrawler.
Import Overpass.

(** A search result as [_search_duckduckgo_articles] returns it. *)
Record article : Type := Article {
  title : string;
  url : string;
  description : string;
  source : string
}.

Record web_data : Type := WebData {
  articles : list article;
  tips : list string;
  food_recommendations : list Food.restaurant
}.

(** [WebCrawler._generate_category_tips] *)
Definition _generate_category_tips (poi : poi) : list string :=
  let category := category poi in
  if decide (category = "historic") then
    ["Nên mặc trang phục lịch sự, kín đáo.";
     "Đi nhẹ nói khẽ, giữ gìn vệ sinh chung.";
     "Nên đi sớm để tránh đông đúc."]
  else if decide (category = "museum") then
    ["Không chạm vào hiện vật.";
     "Tắt đèn flash khi chụp ảnh.";
     "Kiểm tra giờ mở cửa trước khi đến."]
  else if decide (category = "tourism") then
    ["Mang theo kem chống nắng và nước uống.";
     "Cẩn thận tư trang nơi đông người."]
  else
    ["Kiểm tra dự báo thời tiết.";
     "Mang theo tiền mặt dự phòng."].

Section Crawler.
(** The two searches on the web, as functions of the query and of the
    address of the article. *)
Variable _search_duckduckgo_articles : string -> list article.
Variable _extract_tips_from_article : string -> list string.
(** [self.food_service]: [None] when the import of the service failed;
    else its [get_food_recommendations], which gives [None] when the call
    raises. *)
Variable food_service : option (string -> Z -> option (list Food.restaurant)).

(** [WebCrawler._enrich_single]: the [web_data] it stores in the POI, or
    [None] when it returns the POI as it is, for want of a session. *)
Definition _enrich_single (session : bool) (poi : poi) : option web_data :=
  if negb session then None
  else
    let search_query := "kinh nghiệm tham quan " +:+ name poi in
    let articles := _search_duckduckgo_articles search_query in
    let tips :=
      match articles with
      | top :: _ => _extract_tips_from_article (url top)
      | [] => []
      end in
    let tips :=
      match tips with
      | [] => _generate_category_tips poi
      | _ => tips
      end in
    let food_recommendations :=
      match food_service with
      | Some get_food_recommendations =>
          default [] (get_food_recommendations (name poi) 5%Z)
      | None => []
      end in
    Some {|
      articles := articles;
      tips := tips;
      food_recommendations := food_recommendations
    |}.
End Crawler.

End WebCrawler.

(** ** JSON values, as the pipeline writes and reads them *)

Set Warnings "-register-all".

Module Json.
Import Py.

Inductive json : Type :=
| JNull
| JBool (b : bool)
| JInt (n : Z)
| JFloat (x : float)
| JStr (s : string)
| JList (l : list json)
| JDict (d : list (string * json)).

(** The value under a key of a dictionary, which lists its items in the
    order of a dictionary display. *)
Fixpoint lookup (key : string) (d : list (string * json)) : option json :=
  match d with
  | [] => None
  | (k, v) :: d' => if String.eqb k key then Some v else lookup key d'
  end.

(** [v.get(key, default)]: only a dictionary has the method. *)
Definition get (v : json) (key : string) (default : json) : result json :=
  match v with
  | JDict d =>
      Val (match lookup key d with Some x => x | None => default end)
  | _ => Raise AttributeError
  end.

(** The truth value of a JSON value. *)
Definition truthy (v : json) : bool :=
  match v with
  | JNull => false
  | JBool b => b
  | JInt n => negb (n =? 0)%Z
  | JFloat x => negb (x =? 0)%float
  | JStr s => negb (String.eqb s "")
  | JList l => match l with [] => false | _ => true end
  | JDict d => match d with [] => false | _ => true end
  end.

(** A value can be the key of a dictionary: lists and dictionaries
    cannot. *)
Definition hashable (v : json) : bool :=
  match v with
  | JList _ | JDict _ => false
  | _ => true
  end.

(** [x == n] for a float and an int, which Python compares exactly. *)
Definition float_eqb_int (x : float) (n : Z) : bool :=
  match Prim2SF x with
  | S754_zero _ => (n =? 0)%Z
  | S754_finite s m e =>
      let v := if s then Z.neg m else Z.pos m in
      if (0 <=? e)%Z then (n =? v * 2 ^ e)%Z else (n * 2 ^ (- e) =? v)%Z
  | _ => false
  end.

(** [a == b] on two keys: strings by their text, [None] with itself,
    numbers and booleans by their value. *)
Definition key_eqb (a b : json) : bool :=
  let int_of v :=
    match v with
    | JBool b => Some (if b then 1 else 0)%Z
    | JInt n => Some n
    | _ => None
    end in
  match a, b with
  | JNull, JNull => true
  | JStr s, JStr t => String.eqb s t
  | JFloat x, JFloat y => (x =? y)%float
  | JFloat x, _ =>
      match int_of b with Some n => float_eqb_int x n | None => false end
  | _, JFloat y =>
      match int_of a with Some n => float_eqb_int y n | None => false end
  | _, _ =>
      match int_of a, int_of b with
      | Some m, Some n => (m =? n)%Z
      | _, _ => false
      end
  end.

(** [v[key]] for a string [key]: only a dictionary can be indexed by a
    string. *)
Definition getitem (v : json) (key : string) : result json :=
  match v with
  | JDict d =>
      match lookup key d with
      | Some x => Val x
      | None => Raise (KeyError key)
      end
  | _ => Raise TypeError
  end.

(** A byte that continues a character in UTF-8. *)
Definition is_continuation (c : ascii) : bool :=
  let n := nat_of_ascii c in (128 <=? n) && (n <? 192).

(** The characters of a string, which holds its text in UTF-8. *)
Fixpoint chars (s : string) : list string :=
  match s with
  | EmptyString => []
  | String c s' =>
      let rest := chars s' in
      let continued :=
        match s' with
        | String c' _ => is_continuation c'
        | EmptyString => false
        end in
      match continued, rest with
      | true, x :: rest' => String c x :: rest'
      | _, _ => String c "" :: rest
      end
  end.

(** The values that [for x in v] goes through: the items of a list, the
    characters of a string, the keys of a dictionary. *)
Definition iterate (v : json) : result (list json) :=
  match v with
  | JList l => Val l
  | JStr s => Val (JStr <$> chars s)
  | JDict d => Val (JStr <$> d.*1)
  | _ => Raise TypeError
  end.

(** [needle in hay] on two strings. *)
Fixpoint is_substring (needle hay : string) : bool :=
  String.prefix needle hay
  || match hay with
     | EmptyString => false
     | String _ hay' => is_substring needle hay'
     end.

(** [needle in v] for a string [needle]. *)
Definition contains (needle : string) (v : json) : result bool :=
  match v with
  | JStr s => Val (is_substring needle s)
  | JList l =>
      Val (existsb (fun x => match x with
                             | JStr s => String.eqb s needle
                             | _ => false
                             end) l)
  | JDict d => Val (existsb (fun k => String.eqb k needle) d.*1)
  | _ => Raise TypeError
  end.

(** [sep.join(v)] *)
Definition join (sep : string) (v : json) : result string :=
  result_bind (iterate v) (fun l =>
  result_bind
    (Overpass.comprehension
       (fun x => match x with JStr s => Val s | _ => Raise TypeError end) l)
    (fun strings => Val (String.concat sep strings))).

(** [str(n)] for an [int]. *)
Definition str_int (n : Z) : string := NilZero.string_of_int (Z.to_int n).

(** [None] for a missing value. *)
Definition of_option_string (v : option string) : json :=
  match v with Some s => JStr s | None => JNull end.

Definition of_option_float (v : option float) : json :=
  match v with Some x => JFloat x | None => JNull end.

Definition of_strings (l : list string) : json := JList (JStr <$> l).

End Json.

(** ** [data_processor.py]: the structured document *)

Module RagDocument.
Import Py Json Processor.

(** The text after the last occurrence of a character, if it occurs. *)
Fixpoint after_last (c : ascii) (s : string) : option string :=
  match s with
  | EmptyString => None
  | String a s' =>
      match after_last c s' with
      | Some t => Some t
      | None => if Ascii.eqb a c then Some s' else None
      end
  end.

(** A POI when the enrichers are done with it: the dictionary of
    [_parse_element], with [wikipedia_data] ([None] when the key is
    missing or holds the empty dictionary) and [web_data] ([None] when the
    key is missing). *)
Record enriched : Type := Enriched {
  osm_data : Overpass.poi;
  wiki_data : option wikipedia_data;
  web_data : option WebCrawler.web_data
}.

(** [DataProcessor._determine_accessibility] *)
Definition _determine_accessibility (osm_data : Overpass.poi) : string :=
  let tags := Overpass.raw_tags osm_data in
  if decide (tags !! "wheelchair" = Some "yes") then "Có hỗ trợ xe lăn"
  else if decide (tags !! "wheelchair" = Some "limited")
  then "Hỗ trợ hạn chế cho xe lăn"
  else if decide (tags !! "wheelchair" = Some "no") then "Không hỗ trợ xe lăn"
  else "Chưa có thông tin".

(** [duration_map.get(key)] *)
Definition duration_map (key : string) : option string :=
  if decide (key = "museum") then Some "2-3 giờ"
  else if decide (key = "historic") then Some "1-2 giờ"
  else if decide (key = "monument") then Some "30 phút - 1 giờ"
  else if decide (key = "place_of_worship") then Some "30 phút - 1 giờ"
  else if decide (key = "viewpoint") then Some "30 phút"
  else if decide (key = "attraction") then Some "1-2 giờ"
  else None.

(** [DataProcessor._estimate_duration] *)
Definition _estimate_duration (osm_data : Overpass.poi) : string :=
  let category := Overpass.category osm_data in
  let poi_type := Overpass.type_ osm_data in
  default (default "1-2 giờ" (duration_map category)) (duration_map poi_type).

(** [DataProcessor._extract_admission_info] *)
Definition _extract_admission_info : json :=
  JDict [("fee_required", JNull); ("price_range", JNull);
         ("free_days", JNull)].

(** The list [suitable] of [_determine_suitability], before its
    duplicates are removed. *)
Definition suitable (osm_data : Overpass.poi) : list string :=
  let category := Overpass.category osm_data in
  let poi_type := Overpass.type_ osm_data in
  let tags := Overpass.raw_tags osm_data in
  (if decide (category = "museum" \/ category = "historic")
   then ["students"; "history_enthusiasts"; "families"] else [])
  ++ (if decide (category = "place_of_worship")
      then ["spiritual_seekers"; "culture_enthusiasts"] else [])
  ++ (if decide (poi_type = "park" \/ poi_type = "garden")
      then ["families"; "couples"; "photographers"] else [])
  ++ (if decide (tags !! "wheelchair" = Some "yes")
      then ["elderly"; "wheelchair_users"] else []).

(** [DataProcessor._list_sources] *)
Definition _list_sources (wiki_data : option wikipedia_data)
    (web_data : option WebCrawler.web_data) : list string :=
  ["OpenStreetMap"]
  ++ (if Overpass.truthy (wiki_summary wiki_data)
      then ["Wikipedia (" +:+ default "vi" (language <$> wiki_data) +:+ ")"]
      else [])
  ++ (match default [] (WebCrawler.articles <$> web_data) with
      | [] => []
      | _ => ["VnExpress Travel"]
      end).

(** [DataProcessor._build_searchable_content] *)
Definition _build_searchable_content (osm_data : Overpass.poi)
    (wiki_data : option wikipedia_data)
    (web_data : option WebCrawler.web_data) : string :=
  let desc := Overpass.description (Overpass.basic_info_ osm_data) in
  let parts :=
    [Overpass.name osm_data]
    ++ (if String.eqb desc "" then [] else [desc])
    ++ (if Overpass.truthy (wiki_summary wiki_data)
        then [default "" (wiki_summary wiki_data)] else [])
    ++ default [] (WebCrawler.tips <$> web_data)
    ++ default [] (categories <$> wiki_data) in
  String.concat " " parts.

(** [DataProcessor._build_basic_layer] *)
Definition _build_basic_layer (osm_data : Overpass.poi) : json :=
  let basic_info := Overpass.basic_info_ osm_data in
  JDict [
    ("type", JStr (Overpass.type_ osm_data));
    ("category", JStr (Overpass.category osm_data));
    ("short_description", JStr (Overpass.description basic_info));
    ("website", of_option_string (Overpass.website basic_info));
    ("phone", of_option_string (Overpass.phone basic_info))
  ].

Section Builders.
(** The readings of the Wikipedia text, which depend on [str.lower] and
    on regular expressions over Vietnamese text: any functions. *)
Variable _extract_significance : option wikipedia_data -> string.
Variable _extract_period : option wikipedia_data -> string.
Variable _extract_cultural_notes : option wikipedia_data -> string.
Variable _extract_events :
  option wikipedia_data -> option WebCrawler.web_data -> list string.
Variable _extract_tags :
  Overpass.poi -> option wikipedia_data -> list string.
(** [list(set(l))]: the strings of [l], each once, in the order in which
    Python's set yields them. *)
Variable list_of_set : list string -> list string.
(** [datetime.now().isoformat()] *)
Variable now : string.
(** The dictionary of a restaurant record, with the keys that the crawl of
    its page added. *)
Variable restaurant_json : Food.restaurant -> json.

(** [DataProcessor._determine_suitability] *)
Definition _determine_suitability (osm_data : Overpass.poi) : list string :=
  list_of_set (suitable osm_data).

(** [DataProcessor._build_historical_layer] *)
Definition _build_historical_layer (wiki_data : option wikipedia_data)
    (web_data : option WebCrawler.web_data) : json :=
  let historical_info := [
    ("wikipedia_summary", JStr (default "" (wiki_summary wiki_data)));
    ("wikipedia_url", of_option_string (wiki_data ≫= url));
    ("wikipedia_categories",
     of_strings (default [] (categories <$> wiki_data)));
    ("significance", JStr (_extract_significance wiki_data));
    ("historical_period", JStr (_extract_period wiki_data))
  ] in
  let articles := default [] (WebCrawler.articles <$> web_data) in
  match articles with
  | [] => JDict historical_info
  | _ =>
      JDict (historical_info ++ [
        ("related_articles",
         JList ((fun a => JDict [
                   ("title", JStr (WebCrawler.title a));
                   ("url", JStr (WebCrawler.url a));
                   ("summary", JStr (WebCrawler.description a))
                 ]) <$> take 3 articles))
      ])
  end.

(** [DataProcessor._build_practical_layer]. The [web_data] that the
    crawler writes has no key [best_time_to_visit]. *)
Definition _build_practical_layer (osm_data : Overpass.poi)
    (web_data : option WebCrawler.web_data) : json :=
  JDict [
    ("opening_hours",
     of_option_string
       (Overpass.opening_hours (Overpass.basic_info_ osm_data)));
    ("tips", of_strings (default [] (WebCrawler.tips <$> web_data)));
    ("best_time_to_visit", JNull);
    ("accessibility", JStr (_determine_accessibility osm_data));
    ("estimated_visit_duration", JStr (_estimate_duration osm_data));
    ("admission_info", _extract_admission_info)
  ].

(** [DataProcessor._build_cultural_layer]. The [web_data] that the
    crawler writes has no key [nearby_attractions]; [_extract_customs]
    returns the empty list. *)
Definition _build_cultural_layer (wiki_data : option wikipedia_data)
    (web_data : option WebCrawler.web_data) : json :=
  JDict [
    ("cultural_significance", JStr (_extract_cultural_notes wiki_data));
    ("nearby_attractions", JList []);
    ("food_recommendations",
     JList (restaurant_json
              <$> default [] (WebCrawler.food_recommendations <$> web_data)));
    ("events", of_strings (_extract_events wiki_data web_data));
    ("local_customs", JList [])
  ].

(** [DataProcessor._build_metadata] *)
Definition _build_metadata (osm_data : Overpass.poi)
    (wiki_data : option wikipedia_data) : json :=
  JDict [
    ("category", JStr (Overpass.category osm_data));
    ("type", JStr (Overpass.type_ osm_data));
    ("has_wikipedia", JBool (Overpass.truthy (wiki_summary wiki_data)));
    ("has_image", JBool (Overpass.truthy (wiki_image_url wiki_data)));
    ("data_quality_score",
     JFloat (_calculate_quality_score osm_data wiki_data));
    ("tags", of_strings (_extract_tags osm_data wiki_data));
    ("suitable_for", of_strings (_determine_suitability osm_data))
  ].

(** [DataProcessor._structure_document] *)
Definition _structure_document (poi : enriched) : json :=
  let osm_data := osm_data poi in
  let wiki_data := wiki_data poi in
  let web_data := web_data poi in
  let location := Overpass.location_ osm_data in
  JDict [
    ("id",
     JStr (Overpass.osm_type osm_data +:+ "_"
           +:+ str_int (Overpass.osm_id osm_data)));
    ("name", JStr (Overpass.name osm_data));
    ("name_variants", JDict [
       ("vi", of_option_string (Overpass.name_vi osm_data));
       ("en", of_option_string (Overpass.name_en osm_data));
       ("local", JStr (Overpass.name osm_data))
     ]);
    ("location", JDict [
       ("lat", of_option_float (Overpass.lat location));
       ("lon", of_option_float (Overpass.lon location));
       ("address", JStr (Overpass.address location))
     ]);
    ("layers", JDict [
       ("basic", _build_basic_layer osm_data);
       ("historical", _build_historical_layer wiki_data web_data);
       ("practical", _build_practical_layer osm_data web_data);
       ("cultural", _build_cultural_layer wiki_data web_data)
     ]);
    ("metadata", _build_metadata osm_data wiki_data);
    ("searchable_content",
     JStr (_build_searchable_content osm_data wiki_data web_data));
    ("created_at", JStr now);
    ("data_sources", of_strings (_list_sources wiki_data web_data))
  ].

(** [DataProcessor.prepare_for_rag]. On a POI of this shape
    [_structure_document] raises nothing, so that the [except] branch,
    which skips the POI, is not taken. *)
Definition prepare_for_rag (pois : list enriched) : list json :=
  _structure_document <$> pois.
End Builders.

End RagDocument.

(** ** [main.py]: the statistics of a collection *)

Module Pipeline.
Import Py Json.

(** The dictionary that [_generate_stats] returns; the counters of
    [data_completeness] stand beside the others. A category is whatever
    value the documents hold under that key. *)
Record stats : Type := Stats {
  total_locations : nat;
  collection_date : string;
  categories : list (json * nat);
  with_wikipedia : nat;
  with_reviews : nat;
  with_images : nat;
  with_tips : nat
}.

(** [d.get(key, 0)] on the dictionary of counts. *)
Fixpoint count_for (key : json) (d : list (json * nat)) : nat :=
  match d with
  | [] => 0
  | (k, n) :: d' => if key_eqb k key then n else count_for key d'
  end.

(** [d[key] = d.get(key, 0) + 1] *)
Fixpoint count_one (key : json) (d : list (json * nat))
    : list (json * nat) :=
  match d with
  | [] => [(key, 1)]
  | (k, n) :: d' =>
      if key_eqb k key then (k, n + 1) :: d' else (k, n) :: count_one key d'
  end.

(** [item.get(a, {}).get(b)] *)
Definition get2 (item : json) (a b : string) : result json :=
  result_bind (get item a (JDict [])) (fun x => get x b JNull).

(** [item.get(a, {}).get(b, {}).get(c, default)] *)
Definition get3 (item : json) (a b c : string) (default : json)
    : result json :=
  result_bind (get item a (JDict [])) (fun x =>
  result_bind (get x b (JDict [])) (fun y => get y c default)).

(** The body of the for loop of [_generate_stats]. *)
Definition count_item (st : stats) (item : json) : result stats :=
  result_bind (get3 item "layers" "basic" "category" (JStr "unknown"))
    (fun category =>
  if negb (hashable category) then Raise TypeError
  else
    let categories := count_one category (categories st) in
    result_bind (get3 item "layers" "historical" "wikipedia_summary" JNull)
      (fun summary =>
    let with_wikipedia :=
      if truthy summary then with_wikipedia st + 1 else with_wikipedia st in
    result_bind (get3 item "layers" "practical" "reviews" JNull)
      (fun reviews =>
    let with_reviews :=
      if truthy reviews then with_reviews st + 1 else with_reviews st in
    result_bind (get2 item "layers" "images") (fun images =>
    let with_images :=
      if truthy images then with_images st + 1 else with_images st in
    result_bind (get3 item "layers" "cultural" "tips" JNull) (fun tips =>
    let with_tips :=
      if truthy tips then with_tips st + 1 else with_tips st in
    Val {|
      total_locations := total_locations st;
      collection_date := collection_date st;
      categories := categories;
      with_wikipedia := with_wikipedia;
      with_reviews := with_reviews;
      with_images := with_images;
      with_tips := with_tips
    |}))))).

Fixpoint count_items (data : list json) (st : stats) : result stats :=
  match data with
  | [] => Val st
  | item :: data' => result_bind (count_item st item) (count_items data')
  end.

(** [DataCollectionPipeline._generate_stats], with what
    [datetime.now().isoformat()] returns. *)
Definition _generate_stats (now : string) (data : list json) : result stats :=
  count_items data {|
    total_locations := length data;
    collection_date := now;
    categories := [];
    with_wikipedia := 0;
    with_reviews := 0;
    with_images := 0;
    with_tips := 0
  |}.

End Pipeline.

(** ** [import_to_qdrant.py], [import_to_vectordb.py]: the documents read
       from the JSON file *)

Module Loader.
Import Py Json.

Local Notation "'do' x <- m ; k" := (result_bind m (fun x => k))
  (at level 10, x name, m at level 100, k at level 200).

(** The line feed. *)
Definition nl : string := String "010" "".

(** A LangChain [Document]. *)
Record document : Type := Document {
  page_content : string;
  metadata : list (string * json)
}.

Section Loaders.
(** [str(v)] for a float, a list or a dictionary. *)
Variable repr : json -> string.
(** [float(s)] for a string. *)
Variable float_of_str : string -> result float.

(** [str(v)], which a replacement field of an f-string applies. *)
Definition str (v : json) : string :=
  match v with
  | JStr s => s
  | JInt n => str_int n
  | JNull => "None"
  | JBool b => if b then "True" else "False"
  | _ => repr v
  end.

(** [float(v)] *)
Definition float_ (v : json) : result float :=
  match v with
  | JFloat x => Val x
  | JInt n =>
      match Food.float_of_int n with
      | Food.Val x => Val x
      | Food.Raise _ => Raise OverflowError
      end
  | JBool b => Val (if b then 1%float else 0%float)
  | JStr s => float_of_str s
  | _ => Raise TypeError
  end.

(** [if d.get(key): lines.append(f"{label}{d[key]}")], as the list of
    what is appended. For the address the source formats [d.get(key)],
    the same value. *)
Definition optional_line (label : string) (d : json) (key : string)
    : result (list string) :=
  do v <- get d key JNull;
  if truthy v then do v' <- getitem d key; Val [label +:+ str v']
  else Val [].

(** [if xs: lines.append(header); for x in xs: lines.append(line(x))] *)
Definition section_lines (header : string) (xs : json)
    (line : json -> result string) : result (list string) :=
  if truthy xs then
    do items <- iterate xs;
    do lines <- Overpass.comprehension line items;
    Val (header :: lines)
  else Val [].

(** The line of a related article. *)
Definition article_line (art : json) : result string :=
  do title <- get art "title" JNull;
  do summary <- get art "summary" JNull;
  Val ("- " +:+ str title +:+ ": " +:+ str summary).

(** The line of a tip. *)
Definition tip_line (tip : json) : result string :=
  Val ("- " +:+ str tip).

(** The line of a food recommendation. *)
Definition food_line (food : json) : result string :=
  do name <- get food "name" JNull;
  let f_info := "- " +:+ str name in
  do address <- get food "address" JNull;
  do f_info <-
    (if truthy address then
       do address' <- getitem food "address";
       Val (f_info +:+ " tại " +:+ str address')
     else Val f_info);
  do price_range <- get food "price_range" JNull;
  if truthy price_range then
    do price_range' <- getitem food "price_range";
    do updating <- contains "Đang cập nhật" price_range';
    if updating then Val f_info
    else
      do price_range'' <- getitem food "price_range";
      Val (f_info +:+ ". Giá: " +:+ str price_range'')
  else Val f_info.

(** The variables that the body of the for loop has bound when
    [full_content] is made; the statements are the same in the two
    scripts. *)
Record content : Type := Content {
  variants : json;
  loc : json;
  basic : json;
  hist : json;
  prac : json;
  tips : json;
  foods : json;
  full_content : string
}.

Definition item_content (item : json) : result content :=
  do name <- getitem item "name";
  let lines := ["Địa điểm: " +:+ str name] in
  do variants <- get item "name_variants" (JDict []);
  do en <- optional_line "Tên tiếng Anh: " variants "en";
  let lines := lines ++ en in
  do loc <- get item "location" (JDict []);
  do lat <- get loc "lat" JNull;
  do lon <- get loc "lon" JNull;
  let lines := lines ++ ["Tọa độ: " +:+ str lat +:+ ", " +:+ str lon] in
  do address <- optional_line "Địa chỉ: " loc "address";
  let lines := lines ++ address in
  do layers <- get item "layers" (JDict []);
  do basic <- get layers "basic" (JDict []);
  do category <- optional_line "Danh mục: " basic "category";
  let lines := lines ++ category in
  do type <- optional_line "Loại hình: " basic "type";
  let lines := lines ++ type in
  do layers <- get item "layers" (JDict []);
  do hist <- get layers "historical" (JDict []);
  do period <- optional_line "Giai đoạn lịch sử: " hist "historical_period";
  let lines := lines ++ period in
  do significance <- optional_line "Ý nghĩa: " hist "significance";
  let lines := lines ++ significance in
  do articles <- get hist "related_articles" (JList []);
  do article_lines <-
    section_lines (nl +:+ "Thông tin chi tiết từ bài viết:") articles
      article_line;
  let lines := lines ++ article_lines in
  do layers <- get item "layers" (JDict []);
  do prac <- get layers "practical" (JDict []);
  do tips <- get prac "tips" (JList []);
  do tip_lines <-
    section_lines (nl +:+ "Lưu ý khi tham quan (Tips):") tips tip_line;
  let lines := lines ++ tip_lines in
  do hours <- optional_line "Giờ mở cửa: " prac "opening_hours";
  let lines := lines ++ hours in
  do duration <-
    optional_line "Thời gian tham quan dự kiến: " prac
      "estimated_visit_duration";
  let lines := lines ++ duration in
  do layers <- get item "layers" (JDict []);
  do cult <- get layers "cultural" (JDict []);
  do foods <- get cult "food_recommendations" (JList []);
  do food_lines <-
    section_lines (nl +:+ "Đề xuất quán ăn ngon lân cận:") foods food_line;
  let lines := lines ++ food_lines in
  Val {|
    variants := variants;
    loc := loc;
    basic := basic;
    hist := hist;
    prac := prac;
    tips := tips;
    foods := foods;
    full_content := String.concat nl lines
  |}.

(** The body of the for loop of [load_documents_from_json] in
    [import_to_qdrant.py]. *)
Definition qdrant_document (item : json) : result document :=
  do c <- item_content item;
  do id <- get item "id" (JStr "");
  do name <- get item "name" (JStr "");
  do name_en <- get (variants c) "en" (JStr "");
  do category <- get (basic c) "category" (JStr "unknown");
  do type <- get (basic c) "type" (JStr "");
  do lat <- get (loc c) "lat" (JFloat 0);
  do lat <- float_ lat;
  do lon <- get (loc c) "lon" (JFloat 0);
  do lon <- float_ lon;
  do address <- get (loc c) "address" (JStr "");
  do meta <- get item "metadata" (JDict []);
  do tags <- get meta "tags" (JList []);
  do tags <- join ", " tags;
  do meta <- get item "metadata" (JDict []);
  do quality_score <- get meta "data_quality_score" (JFloat 0);
  do quality_score <- float_ quality_score;
  do historical_period <- get (hist c) "historical_period" (JStr "");
  do opening_hours <- get (prac c) "opening_hours" (JStr "");
  do visit_duration <- get (prac c) "estimated_visit_duration" (JStr "");
  do restaurants <- iterate (foods c);
  do nearby_restaurants <-
    Overpass.comprehension (fun f => get f "name" JNull) restaurants;
  Val {|
    page_content := full_content c;
    metadata := [
      ("id", id);
      ("name", name);
      ("name_en", name_en);
      ("category", category);
      ("type", type);
      ("lat", JFloat lat);
      ("lon", JFloat lon);
      ("address", address);
      ("tags", JStr tags);
      ("quality_score", JFloat quality_score);
      ("historical_period", historical_period);
      ("opening_hours", opening_hours);
      ("visit_duration", visit_duration);
      ("tips", tips c);
      ("nearby_restaurants", JList nearby_restaurants)
    ]
  |}.

(** The body of the for loop of [load_documents_from_json] in
    [import_to_vectordb.py]. *)
Definition chroma_document (item : json) : result document :=
  do c <- item_content item;
  do id <- get item "id" JNull;
  do name <- get item "name" JNull;
  do meta <- get item "metadata" (JDict []);
  do category <- get meta "category" (JStr "unknown");
  do location <- get item "location" (JDict []);
  do lat <- get location "lat" (JFloat 0);
  do location <- get item "location" (JDict []);
  do lon <- get location "lon" (JFloat 0);
  do meta <- get item "metadata" (JDict []);
  do tags <- get meta "tags" (JList []);
  do tags <- join ", " tags;
  do meta <- get item "metadata" (JDict []);
  do quality_score <- get meta "data_quality_score" (JFloat 0);
  Val {|
    page_content := full_content c;
    metadata := [
      ("id", id);
      ("name", name);
      ("category", category);
      ("lat", lat);
      ("lon", lon);
      ("tags", JStr tags);
      ("quality_score", quality_score)
    ]
  |}.

(** [load_documents_from_json], from what [json.load] returns on: the
    documents of the items, in their order. *)
Definition load_documents_from_json (document_of : json -> result document)
    (data : json) : result (list document) :=
  do items <- iterate data;
  Overpass.comprehension document_of items.
End Loaders.

End Loader.

(** * Properties *)

(** ** Slices and batches *)

Section Batches.
Context {A : Type}.
Implicit Types (work : list A) (B : nat).

Lemma slice_from work i B : slice work i (i + B) = take B (drop i work).
Proof. unfold slice. f_equal. lia. Qed.

Lemma py_range_length stop step :
  length (py_range stop step) = range_length stop step.
Proof. unfold py_range. by rewrite length_fmap, length_seq. Qed.

Lemma py_range_lookup stop step j :
  j < range_length stop step -> py_range stop step !! j = Some (j * step).
Proof.
  intros Hj. unfold py_range.
  rewrite list_lookup_fmap, lookup_seq_lt by done. done.
Qed.

Lemma range_length_upper stop step :
  0 < step -> stop <= range_length stop step * step.
Proof.
  intros Hstep. destruct stop as [|hi]; simpl; [lia|].
  pose proof (Nat.div_mod_eq hi step) as Hdm.
  pose proof (Nat.mod_upper_bound hi step). nia.
Qed.

Lemma range_length_lower stop step j :
  0 < step -> j < range_length stop step -> j * step < stop.
Proof.
  intros Hstep. destruct stop as [|hi]; simpl; [lia|].
  intros Hj. pose proof (Nat.div_mod_eq hi step) as Hdm. nia.
Qed.

Lemma concat_slices work B m :
  concat ((fun i => slice work i (i + B)) <$> ((fun j => j * B) <$> seq 0 m))
  = take (m * B) work.
Proof.
  induction m as [|m IH]; [done|].
  rewrite seq_S, !fmap_app, concat_app, IH. simpl.
  rewrite app_nil_r, slice_from.
  replace (B + m * B) with (m * B + B) by lia.
  by rewrite take_take_drop.
Qed.

Lemma batches_of_length B work :
  length (batches_of B work) = range_length (length work) B.
Proof. unfold batches_of. by rewrite length_fmap, py_range_length. Qed.

Lemma batches_of_lookup B work j :
  j < range_length (length work) B ->
  batches_of B work !! j = Some (slice work (j * B) (j * B + B)).
Proof.
  intros Hj. unfold batches_of.
  by rewrite list_lookup_fmap, py_range_lookup.
Qed.

Lemma batches_of_concat B work : 0 < B -> concat (batches_of B work) = work.
Proof.
  intros HB. unfold batches_of, py_range. rewrite concat_slices.
  apply take_ge. by apply range_length_upper.
Qed.

Lemma batches_of_sizes B work j b :
  0 < B ->
  batches_of B work !! j = Some b ->
  0 < length b <= B /\ (S j < length (batches_of B work) -> length b = B).
Proof.
  intros HB Hb.
  assert (Hj : j < range_length (length work) B).
  { rewrite <- batches_of_length. by eapply lookup_lt_Some. }
  rewrite batches_of_lookup in Hb by done. injection Hb as <-.
  rewrite slice_from, length_take, length_drop.
  pose proof (range_length_lower _ _ _ HB Hj).
  split; [lia|]. rewrite batches_of_length. intros Hnext.
  pose proof (range_length_lower _ _ _ HB Hnext). lia.
Qed.

End Batches.

(** ** The shape of a run *)

Import Ingest.

Section Shape.
Context {Doc : Type}.
Implicit Types (tr : list (event Doc)) (bs : list (list Doc)).
Implicit Types (att : list (list Doc * bool)).

Lemma attempts_app tr1 tr2 :
  attempts (tr1 ++ tr2) = attempts tr1 ++ attempts tr2.
Proof.
  induction tr1 as [|[b r| |] tr1 IH]; simpl; [done| |done|done].
  by rewrite IH.
Qed.

Lemma stopped_app tr1 tr2 :
  stopped (tr1 ++ tr2) = stopped tr1 || stopped tr2.
Proof. induction tr1 as [|[b r| |] tr1 IH]; simpl; done. Qed.

Lemma filter_failed_attempts k (b : list Doc) att :
  filter (fun a => snd a = true) (replicate k (b, false) ++ att)
  = filter (fun a => snd a = true) att.
Proof.
  induction k as [|k IH]; simpl; [done|].
  rewrite filter_cons_False by (simpl; congruence). done.
Qed.

Lemma run_shape_committed R bs att j st :
  run_shape R bs att j st ->
  fst <$> filter (fun a => snd a = true) att = take j bs.
Proof.
  induction 1 as [|b bs k att j st Hk _ IH|b bs].
  - done.
  - rewrite filter_failed_attempts, filter_cons_True by done.
    rewrite fmap_cons. simpl. by f_equal.
  - rewrite <- (app_nil_r (replicate _ _)), filter_failed_attempts. done.
Qed.

Lemma run_shape_progress R bs att j st :
  run_shape R bs att j st ->
  if st then j < length bs else j = length bs.
Proof.
  induction 1 as [|b bs k att j st Hk _ IH|b bs]; simpl.
  - done.
  - destruct st; lia.
  - lia.
Qed.

Lemma run_shape_submitted R bs att j st :
  run_shape R bs att j st -> forall b, b ∈ fst <$> att -> b ∈ bs.
Proof.
  induction 1 as [|b bs k att j st Hk _ IH|b bs]; intros b'.
  - intros Hin. by apply elem_of_nil in Hin.
  - rewrite fmap_app, fmap_replicate, elem_of_app. simpl.
    rewrite elem_of_cons. intros [Hin|[->|Hin]].
    + apply elem_of_replicate in Hin as [-> _]. left.
    + left.
    + right. by apply IH.
  - rewrite fmap_replicate. intros Hin.
    apply elem_of_replicate in Hin as [-> _]. left.
Qed.

(** When no call failed every batch was handed over once, and the loop
    did not give up. *)
Lemma run_shape_all_accepted R bs att j st :
  0 < R ->
  run_shape R bs att j st ->
  Forall (fun a => snd a = true) att ->
  fst <$> att = bs /\ st = false.
Proof.
  intros HR. induction 1 as [|b bs k att j st Hk _ IH|b bs]; intros Hall.
  - done.
  - destruct k as [|k]; [|by inversion Hall].
    apply Forall_cons in Hall as [_ Hall].
    destruct (IH Hall) as [<- ->]. done.
  - destruct R as [|R]; [lia|]. by inversion Hall.
Qed.

(** A batch that was handed to the store and never went through is the one
    the loop gave up on: it closes the run with exactly [R] attempts. *)
Lemma run_shape_failing R bs att j st b :
  run_shape R bs att j st ->
  b ∈ fst <$> att ->
  (b, true) ∉ att ->
  st = true /\ bs !! j = Some b /\
  exists pre,
    att = pre ++ replicate R (b, false) /\
    (forall a, a ∈ pre -> fst a <> b) /\
    fst <$> filter (fun a => snd a = true) pre = take j bs.
Proof.
  induction 1 as [|b0 bs k att j st Hk Hshape IH|b0 bs]; intros Hin Hnot.
  - by apply elem_of_nil in Hin.
  - assert (Hne : b0 <> b).
    { intros ->. apply Hnot. rewrite elem_of_app, elem_of_cons. auto. }
    rewrite fmap_app, fmap_replicate, elem_of_app in Hin. simpl in Hin.
    rewrite elem_of_cons in Hin.
    destruct Hin as [Hin|[->|Hin]]; [|done|].
    { apply elem_of_replicate in Hin as [-> _]. done. }
    destruct IH as (-> & Hj & pre & -> & Hpre & Hcommitted); [done| |].
    { intros Hin'. apply Hnot. rewrite elem_of_app, elem_of_cons. auto. }
    split; [done|]. split; [done|].
    exists (replicate k (b0, false) ++ (b0, true) :: pre).
    split; [by rewrite <- app_assoc|]. split.
    + intros a. rewrite elem_of_app, elem_of_cons.
      intros [Ha|[->|Ha]]; [|done|by apply Hpre].
      apply elem_of_replicate in Ha as [-> _]. done.
    + rewrite filter_failed_attempts, filter_cons_True by done.
      rewrite fmap_cons. simpl. by f_equal.
  - rewrite fmap_replicate in Hin.
    apply elem_of_replicate in Hin as [-> _].
    split; [done|]. split; [done|]. exists []. split; [done|].
    split; [|done]. intros a Ha. by apply elem_of_nil in Ha.
Qed.

End Shape.

(** ** The importers follow the shape *)

Section Importers.
Context {Doc Store : Type}.
Variable upsert : list Doc -> Store -> upsert_result * Store.
Variable retry_hint : string -> option Q.
Variable BATCH_SIZE : nat.
Variable DELAY_SECONDS : Q.
Variable MAX_RETRIES : nat.
Variable count : Store -> option Z.

Local Abbreviation commit_batch :=
  (commit_batch upsert retry_hint DELAY_SECONDS).
Local Abbreviation import_batches :=
  (import_batches upsert retry_hint BATCH_SIZE DELAY_SECONDS MAX_RETRIES).
Local Abbreviation import_to_qdrant_with_langchain :=
  (import_to_qdrant_with_langchain upsert retry_hint BATCH_SIZE
     DELAY_SECONDS MAX_RETRIES).
Local Abbreviation add_batch := (add_batch upsert retry_hint DELAY_SECONDS).
Local Abbreviation add_batches :=
  (add_batches upsert retry_hint BATCH_SIZE DELAY_SECONDS MAX_RETRIES).
Local Abbreviation main :=
  (main upsert retry_hint BATCH_SIZE DELAY_SECONDS MAX_RETRIES count).
Local Abbreviation batch_at work :=
  (fun i => slice work i (i + BATCH_SIZE)).

(** One batch under [import_to_qdrant_with_langchain]: it goes through
    within the attempts left, or all of them fail and the function
    returns. *)
Lemma commit_batch_cases R (b : list Doc) more bn sc s :
  0 < R ->
  let o := commit_batch R b more bn sc s in
  (exists k, k < R /\
     value o = Next (sc + length b) /\
     attempts (trace o) = replicate k (b, false) ++ [(b, true)] /\
     stopped (trace o) = false)
  \/ (value o = Return sc /\
      attempts (trace o) = replicate R (b, false) /\
      stopped (trace o) = true).
Proof.
  revert s. induction R as [|R IH]; intros s HR; [lia|].
  simpl. unfold bind, call_upsert.
  destruct (upsert b s) as [[|msg] s'] eqn:Hup; simpl.
  - left. exists 0. split; [lia|]. destruct more; simpl; done.
  - destruct R as [|R'].
    + right. simpl. done.
    + destruct (IH s' ltac:(lia)) as [(k & Hk & Hv & Ha & Hs)|(Hv & Ha & Hs)].
      * left. exists (S k). split; [lia|]. simpl in *.
        rewrite Hv, Ha, Hs. done.
      * right. simpl in *. rewrite Hv, Ha, Hs. done.
Qed.

Lemma import_batches_cons i indices work ec sc s :
  import_batches (i :: indices) work ec sc s
  = let o1 := commit_batch MAX_RETRIES (batch_at work i)
                (i + BATCH_SIZE <? length work)
                ((ec + Z.of_nat i) / Z.of_nat BATCH_SIZE + 1)%Z sc s in
    match value o1 with
    | Next sc' =>
        let o2 := import_batches indices work ec sc' (store o1) in
        Outcome (value o2) (trace o1 ++ trace o2) (store o2)
    | Return v => Outcome (Some v) (trace o1 ++ []) (store o1)
    end.
Proof.
  simpl. unfold bind.
  by destruct (value (commit_batch _ _ _ _ _ _)).
Qed.

Lemma import_batches_shape indices work ec sc s :
  0 < MAX_RETRIES ->
  let o := import_batches indices work ec sc s in
  let bs := batch_at work <$> indices in
  exists j,
    run_shape MAX_RETRIES bs (attempts (trace o)) j (stopped (trace o)) /\
    value o = Some (sc + length (concat (take j bs))).
Proof.
  intros HR. revert sc s.
  induction indices as [|i indices IH]; intros sc s.
  - exists 0. split; [constructor|]. simpl. f_equal. lia.
  - rewrite import_batches_cons.
    set (o1 := commit_batch _ _ _ _ _ _).
    destruct (commit_batch_cases MAX_RETRIES (batch_at work i)
                (i + BATCH_SIZE <? length work)
                ((ec + Z.of_nat i) / Z.of_nat BATCH_SIZE + 1)%Z sc s HR)
      as [(k & Hk & Hv & Ha & Hs)|(Hv & Ha & Hs)]; fold o1 in Hv, Ha, Hs.
    + simpl. rewrite Hv.
      destruct (IH (sc + length (batch_at work i)) (store o1))
        as (j & Hshape & Hval).
      exists (S j). csimpl. rewrite attempts_app, stopped_app, Ha, Hs.
      split.
      * rewrite <- app_assoc. csimpl. by constructor.
      * rewrite Hval. f_equal. rewrite length_app. lia.
    + simpl. rewrite Hv. simpl. exists 0.
      rewrite app_nil_r, Ha, Hs. split; [constructor|].
      simpl. f_equal. lia.
Qed.

(** One batch under [main]: as above, but giving up is left to the for
    loop. *)
Lemma add_batch_cases R (b : list Doc) s :
  let o := add_batch R b s in
  stopped (trace o) = false /\
  ((exists k, k < R /\
      value o = true /\
      attempts (trace o) = replicate k (b, false) ++ [(b, true)])
   \/ (value o = false /\ attempts (trace o) = replicate R (b, false))).
Proof.
  revert s. induction R as [|R IH]; intros s.
  - simpl. split; [done|]. by right.
  - simpl. unfold bind, call_upsert.
    destruct (upsert b s) as [[|msg] s'] eqn:Hup; simpl.
    + split; [done|]. left. exists 0. split; [lia|]. done.
    + destruct (IH s') as [Hs [(k & Hk & Hv & Ha)|(Hv & Ha)]];
        simpl in *; (split; [done|]).
      * left. exists (S k). split; [lia|]. by rewrite Hv, Ha.
      * right. by rewrite Hv, Ha.
Qed.

Lemma add_batches_cons i indices work ec s :
  add_batches (i :: indices) work ec s
  = let o1 := add_batch MAX_RETRIES (batch_at work i) s in
    if value o1 then
      let o2 := add_batches indices work ec (store o1) in
      Outcome (value o2) (trace o1 ++ trace o2) (store o2)
    else Outcome tt (trace o1 ++ [EvStop (ec + Z.of_nat i)%Z]) (store o1).
Proof.
  simpl. unfold bind.
  by destruct (value (add_batch _ _ _)).
Qed.

Lemma add_batches_shape indices work ec s :
  0 < MAX_RETRIES ->
  let o := add_batches indices work ec s in
  exists j,
    run_shape MAX_RETRIES (batch_at work <$> indices)
      (attempts (trace o)) j (stopped (trace o)).
Proof.
  intros HR. revert s.
  induction indices as [|i indices IH]; intros s.
  - exists 0. constructor.
  - rewrite add_batches_cons.
    set (o1 := add_batch _ _ _).
    destruct (add_batch_cases MAX_RETRIES (batch_at work i) s)
      as [Hs [(k & Hk & Hv & Ha)|(Hv & Ha)]]; fold o1 in Hs, Hv, Ha.
    + csimpl. rewrite Hv. destruct (IH (store o1)) as (j & Hshape).
      exists (S j). csimpl. rewrite attempts_app, stopped_app, Ha, Hs.
      rewrite <- app_assoc. csimpl. by constructor.
    + csimpl. rewrite Hv. exists 0. csimpl.
      rewrite attempts_app, stopped_app, Ha, Hs, app_nil_r. csimpl.
      constructor.
Qed.

(** The shape of a whole run, for any [existing_count]. *)
Lemma qdrant_shape (documents : list Doc) (ec : Z) s :
  0 < MAX_RETRIES ->
  let o := import_to_qdrant_with_langchain documents ec s in
  let bs := batches_of BATCH_SIZE (remaining_docs documents ec) in
  exists j,
    run_shape MAX_RETRIES bs (attempts (trace o)) j (stopped (trace o)) /\
    value o = if decide (Z.of_nat (length documents) <= ec)%Z then None
              else Some (length (concat (take j bs))).
Proof.
  intros HR. unfold import_to_qdrant_with_langchain.
  destruct (decide (Z.of_nat (length documents) <= ec)%Z) as [Hle|Hlt].
  - rewrite (proj2 (Z.leb_le _ _)) by done.
    exists 0. csimpl. split; [|done].
    assert (remaining_docs documents ec = []) as ->; [|constructor].
    unfold remaining_docs. destruct (Z.ltb_spec 0 ec).
    + apply drop_ge. lia.
    + apply nil_length_inv. lia.
  - rewrite (proj2 (Z.leb_gt _ _)) by lia.
    apply (import_batches_shape _ _ _ 0 s HR).
Qed.

Lemma chroma_shape (documents : list Doc) s :
  0 < MAX_RETRIES ->
  let o := main documents s in
  let bs :=
    batches_of BATCH_SIZE (remaining_docs documents (default 0%Z (count s))) in
  exists j, run_shape MAX_RETRIES bs (attempts (trace o)) j (stopped (trace o)).
Proof.
  intros HR. unfold main.
  destruct (0 <? default 0%Z (count s))%Z eqn:Hpos; csimpl.
  - destruct (Z.leb_spec (Z.of_nat (length documents))
                (default 0%Z (count s))) as [Hle|Hlt].
    + exists 0. csimpl.
      assert (remaining_docs documents (default 0%Z (count s)) = []) as ->;
        [|constructor].
      unfold remaining_docs. rewrite Hpos. apply drop_ge. lia.
    + apply (add_batches_shape _ _ _ s HR).
  - apply (add_batches_shape _ _ _ s HR).
Qed.

Lemma remaining_docs_of_nat (documents : list Doc) (k : nat) :
  remaining_docs documents (Z.of_nat k) = drop k documents.
Proof.
  unfold remaining_docs. destruct k as [|k]; [done|].
  rewrite (proj2 (Z.ltb_lt _ _)) by lia. by rewrite Nat2Z.id.
Qed.

Local Abbreviation run_from :=
  (run_from upsert retry_hint BATCH_SIZE DELAY_SECONDS MAX_RETRIES count).
Local Abbreviation answered := (answered upsert).

Lemma run_from_shape documents k s tr :
  0 < MAX_RETRIES ->
  run_from documents k s tr ->
  exists j,
    run_shape MAX_RETRIES (batches_of BATCH_SIZE (drop k documents))
      (attempts tr) j (stopped tr).
Proof.
  intros HR [->|[Hcount ->]].
  - destruct (qdrant_shape documents (Z.of_nat k) s HR) as (j & Hshape & _).
    rewrite remaining_docs_of_nat in Hshape. eauto.
  - destruct (chroma_shape documents s HR) as (j & Hshape).
    rewrite Hcount in Hshape. simpl in Hshape.
    rewrite remaining_docs_of_nat in Hshape. eauto.
Qed.

(** Every commit call of a run carries what the store answered. *)
Lemma commit_batch_answered R (b : list Doc) more bn sc s :
  Forall answered (attempts (trace (commit_batch R b more bn sc s))).
Proof.
  revert s. induction R as [|R IH]; intros s; [constructor|].
  simpl. unfold bind, call_upsert.
  destruct (upsert b s) as [r s'] eqn:Hup.
  assert (Hhere : answered (b, is_committed r)).
  { exists s. simpl. by rewrite Hup. }
  destruct r as [|msg]; simpl.
  - destruct more; simpl; by repeat constructor.
  - destruct R as [|R']; simpl; [by repeat constructor|].
    constructor; [done|]. apply IH.
Qed.

Lemma import_batches_answered indices work ec sc s :
  Forall answered (attempts (trace (import_batches indices work ec sc s))).
Proof.
  revert sc s. induction indices as [|i indices IH]; intros sc s;
    [constructor|].
  rewrite import_batches_cons. cbv zeta.
  pose proof (commit_batch_answered MAX_RETRIES (batch_at work i)
    (i + BATCH_SIZE <? length work)
    ((ec + Z.of_nat i) / Z.of_nat BATCH_SIZE + 1)%Z sc s) as Hfirst.
  destruct (value _); simpl; rewrite attempts_app, Forall_app.
  - split; [done|apply IH].
  - split; [done|constructor].
Qed.

Lemma add_batch_answered R (b : list Doc) s :
  Forall answered (attempts (trace (add_batch R b s))).
Proof.
  revert s. induction R as [|R IH]; intros s; [constructor|].
  simpl. unfold bind, call_upsert.
  destruct (upsert b s) as [r s'] eqn:Hup.
  assert (Hhere : answered (b, is_committed r)).
  { exists s. simpl. by rewrite Hup. }
  destruct r as [|msg]; simpl; [by repeat constructor|].
  constructor; [done|]. apply IH.
Qed.

Lemma add_batches_answered indices work ec s :
  Forall answered (attempts (trace (add_batches indices work ec s))).
Proof.
  revert s. induction indices as [|i indices IH]; intros s; [constructor|].
  rewrite add_batches_cons. cbv zeta.
  pose proof (add_batch_answered MAX_RETRIES (batch_at work i) s) as Hfirst.
  destruct (value _); simpl; rewrite attempts_app, Forall_app.
  - split; [done|apply IH].
  - split; [done|constructor].
Qed.

Lemma run_from_answered documents k s tr :
  run_from documents k s tr -> Forall answered (attempts tr).
Proof.
  intros [->|[_ ->]].
  - unfold Ingest.import_to_qdrant_with_langchain.
    destruct (_ <=? _)%Z; [constructor|apply import_batches_answered].
  - unfold Ingest.main.
    destruct (_ && _); [constructor|apply add_batches_answered].
Qed.

(** C1. Resume correctness. Started with [existing_count = k], where
    [0 <= k <= total], an importer hands to the store only slices
    [documents[k+i : k+i+BATCH_SIZE]] that begin at or after index [k]; the
    batches the store accepted, put end to end in the order of the calls,
    are an initial part of [documents[k:]]; they are exactly
    [documents[k:]] when the run did not give up on a batch; and on a store
    that refuses nothing [documents[k:]] is what was handed over, once and
    in order. *)
Theorem resume_submits_remaining_documents
    (documents : list Doc) (k : nat) (s : Store) (tr : list (event Doc)) :
  0 < BATCH_SIZE ->
  0 < MAX_RETRIES ->
  k <= length documents ->
  run_from documents k s tr ->
  (forall b, b ∈ submitted tr ->
     exists i, k + i < length documents /\
       b = slice documents (k + i) (k + i + BATCH_SIZE)) /\
  (exists n, concat (committed tr) = take n (drop k documents)) /\
  (stopped tr = false -> concat (committed tr) = drop k documents) /\
  ((forall b s', fst (upsert b s') = Committed) ->
   concat (submitted tr) = drop k documents).
Proof.
  intros HB HR Hk Hrun.
  destruct (run_from_shape documents k s tr HR Hrun) as (j & Hshape).
  pose proof (run_from_answered documents k s tr Hrun) as Hanswered.
  set (work := drop k documents) in *.
  pose proof (run_shape_committed _ _ _ _ _ Hshape) as Hcommitted.
  split; [|split; [|split]].
  - intros b Hb.
    apply (run_shape_submitted _ _ _ _ _ Hshape) in Hb.
    apply list_elem_of_lookup in Hb as [n Hn].
    assert (Hlt : n < range_length (length work) BATCH_SIZE).
    { rewrite <- batches_of_length. by eapply lookup_lt_Some. }
    rewrite batches_of_lookup in Hn by done. injection Hn as <-.
    pose proof (range_length_lower _ _ _ HB Hlt) as Hin.
    unfold work in Hin. rewrite length_drop in Hin.
    exists (n * BATCH_SIZE). split; [lia|].
    unfold work. rewrite !slice_from, drop_drop. done.
  - unfold committed. rewrite Hcommitted.
    exists (j * BATCH_SIZE).
    unfold batches_of, py_range. rewrite <- !fmap_take, take_seq.
    rewrite concat_slices.
    destruct (decide (j <= range_length (length work) BATCH_SIZE)).
    + by rewrite Nat.min_l by lia.
    + rewrite Nat.min_r by lia.
      pose proof (range_length_upper (length work) BATCH_SIZE HB).
      rewrite !take_ge by nia. done.
  - intros Hgo. unfold committed. rewrite Hcommitted.
    pose proof (run_shape_progress _ _ _ _ _ Hshape) as Hj.
    rewrite Hgo in Hj. rewrite Hj, firstn_all.
    by apply batches_of_concat.
  - intros Haccept.
    assert (Hall : Forall (fun a => snd a = true) (attempts tr)).
    { eapply Forall_impl; [exact Hanswered|].
      intros a [s' <-]. by rewrite Haccept. }
    destruct (run_shape_all_accepted _ _ _ _ _ HR Hshape Hall) as [Hsub _].
    unfold submitted. rewrite Hsub. by apply batches_of_concat.
Qed.

(** C2, as the code has it. With [existing_count >= total] the Qdrant
    importer makes no commit call and has no other effect, and the store is
    as before; but it leaves by its bare [return], so that its value is
    [None] and not the count 0. [main] likewise makes no call, with the
    count it reads from the store. *)
Theorem complete_import_is_a_no_op
    (documents : list Doc) (existing_count : Z) (s : Store) :
  (Z.of_nat (length documents) <= existing_count)%Z ->
  import_to_qdrant_with_langchain documents existing_count s
  = Outcome None [] s /\
  (default 0%Z (count s) = existing_count ->
   main documents s = Outcome tt [] s).
Proof.
  intros Hec. split.
  - unfold import_to_qdrant_with_langchain.
    by rewrite (proj2 (Z.leb_le _ _)) by done.
  - intros Hcount. unfold main, remaining_docs. rewrite Hcount. csimpl.
    destruct (Z.ltb_spec 0 existing_count) as [Hpos|Hneg].
    + by rewrite (proj2 (Z.leb_le _ _)) by done.
    + csimpl. assert (length documents = 0) as Hnil by lia.
      apply nil_length_inv in Hnil as ->. done.
Qed.

Lemma filter_failed_only k (b : list Doc) :
  filter (fun a : list Doc * bool => snd a = true) (replicate k (b, false))
  = [].
Proof.
  rewrite <- (app_nil_r (replicate _ _)). by rewrite filter_failed_attempts.
Qed.


(** In particular a batch that the store refuses in every state: once it
    has been handed over it is never accepted. *)
Lemma refused_batch_stops_the_run
    (documents : list Doc) (existing_count : Z) (s : Store) (b : list Doc) :
  0 < MAX_RETRIES ->
  (forall s', is_committed (fst (upsert b s')) = false) ->
  let o := import_to_qdrant_with_langchain documents existing_count s in
  b ∈ submitted (trace o) ->
  stopped (trace o) = true /\
  exists pre,
    attempts (trace o) = pre ++ replicate MAX_RETRIES (b, false) /\
    (forall a, a ∈ pre -> fst a <> b) /\
    value o = Some (length (concat (committed (trace o)))).
Proof.
  intros HR Hrefused o Hin.
  assert (Hnot : (b, true) ∉ attempts (trace o)).
  { intros Hb.
    pose proof (import_batches_answered
      (py_range (length (remaining_docs documents existing_count))
         BATCH_SIZE)
      (remaining_docs documents existing_count) existing_count 0 s)
      as Hanswered.
    unfold o, Ingest.import_to_qdrant_with_langchain in Hb.
    destruct (_ <=? _)%Z; [by apply elem_of_nil in Hb|].
    rewrite Forall_forall in Hanswered.
    destruct (Hanswered _ Hb) as [s' Hs']. simpl in Hs'.
    by rewrite Hrefused in Hs'. }
  destruct (qdrant_shape documents existing_count s HR)
    as (j & Hshape & Hval). fold o in Hshape, Hval.
  destruct (run_shape_failing _ _ _ _ _ _ Hshape Hin Hnot)
    as (Hstop & Hj & pre & Hatt & Hpre & Hcommitted).
  split; [done|]. exists pre. split; [done|]. split; [done|].
  rewrite Hval. unfold committed.
  rewrite Hatt, filter_app, filter_failed_only, app_nil_r, Hcommitted.
  destruct (decide _) as [Hle|_]; [|done].
  exfalso. unfold o, Ingest.import_to_qdrant_with_langchain in Hin.
  rewrite (proj2 (Z.leb_le _ _)) in Hin by done.
  by apply elem_of_nil in Hin.
Qed.

(** The same bound for [main], which returns no count. *)
Lemma failing_batch_stops_main
    (documents : list Doc) (s : Store) (b : list Doc) :
  0 < MAX_RETRIES ->
  let o := main documents s in
  b ∈ submitted (trace o) ->
  (b, true) ∉ attempts (trace o) ->
  exists pre,
    attempts (trace o) = pre ++ replicate MAX_RETRIES (b, false) /\
    (forall a, a ∈ pre -> fst a <> b) /\
    stopped (trace o) = true.
Proof.
  intros HR o Hin Hnot.
  destruct (chroma_shape documents s HR) as (j & Hshape). fold o in Hshape.
  destruct (run_shape_failing _ _ _ _ _ _ Hshape Hin Hnot)
    as (Hstop & Hj & pre & Hatt & Hpre & Hcommitted).
  eauto.
Qed.

(** C4. Batch partitioning. The batches formed from the work list
    [documents[k:]] give it back when put end to end; each holds between 1
    and [BATCH_SIZE] documents, and [BATCH_SIZE] unless it is the last. The
    batches accepted in a run are the first ones of that list, and all of
    them when the run did not give up; the Qdrant importer then returns the
    length of the work list. On a store that refuses nothing these batches
    are the commit calls of the run, one call each. With 12 documents,
    batches of 5 and [k = 0] the sizes are 5, 5 and 2, and the value is
    12. *)
Theorem batches_partition_the_work_list
    (documents : list Doc) (k : nat) (s : Store) :
  0 < BATCH_SIZE ->
  0 < MAX_RETRIES ->
  k <= length documents ->
  let work := drop k documents in
  let bs := batches_of BATCH_SIZE work in
  let o := import_to_qdrant_with_langchain documents (Z.of_nat k) s in
  concat bs = work /\
  (forall j b, bs !! j = Some b ->
     0 < length b <= BATCH_SIZE /\
     (S j < length bs -> length b = BATCH_SIZE)) /\
  (forall tr, run_from documents k s tr ->
     (exists j, committed tr = take j bs) /\
     (stopped tr = false -> committed tr = bs) /\
     ((forall b s', fst (upsert b s') = Committed) -> submitted tr = bs)) /\
  (stopped (trace o) = false -> k < length documents ->
     value o = Some (length work)) /\
  (BATCH_SIZE = 5 -> k = 0 -> length documents = 12 ->
     length <$> bs = [5; 5; 2] /\
     (stopped (trace o) = false -> value o = Some 12)).
Proof.
  intros HB HR Hk work bs o.
  assert (Hconcat : concat bs = work) by by apply batches_of_concat.
  assert (Hcount : stopped (trace o) = false -> k < length documents ->
                   value o = Some (length work)).
  { intros Hgo Hlt.
    destruct (qdrant_shape documents (Z.of_nat k) s HR)
      as (j & Hshape & Hval). fold o in Hshape, Hval.
    rewrite remaining_docs_of_nat in Hshape, Hval.
    fold work in Hshape, Hval. fold bs in Hshape, Hval.
    pose proof (run_shape_progress _ _ _ _ _ Hshape) as Hj.
    rewrite Hgo in Hj.
    rewrite Hval, decide_False by lia.
    by rewrite Hj, firstn_all, Hconcat. }
  split; [done|]. split; [|split; [|split]].
  - intros j b Hb. by apply (batches_of_sizes BATCH_SIZE work j b).
  - intros tr Hrun.
    destruct (run_from_shape documents k s tr HR Hrun) as (j & Hshape).
    pose proof (run_shape_committed _ _ _ _ _ Hshape) as Hcommitted.
    split; [by exists j|]. split.
    + intros Hgo. pose proof (run_shape_progress _ _ _ _ _ Hshape) as Hj.
      rewrite Hgo in Hj. unfold committed.
      by rewrite Hcommitted, Hj, firstn_all.
    + intros Haccept.
      assert (Hall : Forall (fun a => snd a = true) (attempts tr)).
      { eapply Forall_impl; [exact (run_from_answered _ _ _ _ Hrun)|].
        intros a [s' <-]. by rewrite Haccept. }
      by destruct (run_shape_all_accepted _ _ _ _ _ HR Hshape Hall).
  - done.
  - intros HB5 -> Hlen. split.
    + unfold bs, work, batches_of. rewrite HB5, drop_0, Hlen.
      csimpl. unfold slice. rewrite !length_take, !length_drop, Hlen.
      done.
    + intros Hgo. rewrite Hcount by (done || lia).
      unfold work. by rewrite drop_0, Hlen.
Qed.

End Importers.

(** ** The properties on runs of the shipped configuration *)

(** C1 on a store that refuses two calls out of three: 25 documents, 4 of
    them in the store already. *)
Lemma resume_submits_remaining_documents_witness :
  let tr :=
    trace (import_to_qdrant_with_langchain flaky_store read_hint
             QDRANT_BATCH_SIZE QDRANT_DELAY_SECONDS QDRANT_MAX_RETRIES
             (seq 0 25) 4 0) in
  4 <= length (seq 0 25) /\
  stopped tr = false /\
  concat (committed tr) = seq 4 21.
Proof.
  split; [simpl; lia|]. split; [reflexivity|].
  refine (proj1 (proj2 (proj2 (resume_submits_remaining_documents
    flaky_store read_hint QDRANT_BATCH_SIZE QDRANT_DELAY_SECONDS
    QDRANT_MAX_RETRIES (fun _ => None) (seq 0 25) 4 0 _ _ _ _ _))) _).
  - unfold QDRANT_BATCH_SIZE. lia.
  - unfold QDRANT_MAX_RETRIES. lia.
  - simpl. lia.
  - left. reflexivity.
  - reflexivity.
Defined.

(** C2 on a store that holds all 12 documents: [None], no effect. *)
Lemma complete_import_is_a_no_op_witness :
  (Z.of_nat (length (seq 0 12)) <= 12)%Z /\
  import_to_qdrant_with_langchain accepting_store read_hint
    QDRANT_BATCH_SIZE QDRANT_DELAY_SECONDS QDRANT_MAX_RETRIES
    (seq 0 12) 12 (seq 0 12)
  = Outcome None [] (seq 0 12) /\
  main accepting_store read_hint
    CHROMA_BATCH_SIZE CHROMA_DELAY_SECONDS CHROMA_MAX_RETRIES
    accepting_count (seq 0 12) (seq 0 12)
  = Outcome tt [] (seq 0 12).
Proof.
  split; [simpl; lia|]. split.
  - refine (proj1 (complete_import_is_a_no_op accepting_store read_hint
      QDRANT_BATCH_SIZE QDRANT_DELAY_SECONDS QDRANT_MAX_RETRIES
      accepting_count (seq 0 12) 12 (seq 0 12) _)).
    simpl. lia.
  - refine (proj2 (complete_import_is_a_no_op accepting_store read_hint
      CHROMA_BATCH_SIZE CHROMA_DELAY_SECONDS CHROMA_MAX_RETRIES
      accepting_count (seq 0 12) 12 (seq 0 12) _) _).
    + simpl. lia.
    + reflexivity.
Defined.


(** C4 on 12 documents in batches of 5. *)
Lemma batches_partition_the_work_list_witness :
  let o :=
    import_to_qdrant_with_langchain accepting_store read_hint
      CHROMA_BATCH_SIZE CHROMA_DELAY_SECONDS CHROMA_MAX_RETRIES
      (seq 0 12) 0 [] in
  0 <= length (seq 0 12) /\
  length <$> batches_of CHROMA_BATCH_SIZE (seq 0 12) = [5; 5; 2] /\
  (stopped (trace o) = false -> value o = Some 12).
Proof.
  split; [simpl; lia|].
  refine (proj2 (proj2 (proj2 (proj2 (batches_partition_the_work_list
    accepting_store read_hint CHROMA_BATCH_SIZE CHROMA_DELAY_SECONDS
    CHROMA_MAX_RETRIES (fun _ => None) (seq 0 12) 0 [] _ _ _)))) _ _ _).
  - unfold CHROMA_BATCH_SIZE. lia.
  - unfold CHROMA_MAX_RETRIES. lia.
  - simpl. lia.
  - reflexivity.
  - reflexivity.
  - reflexivity.
Defined.

(** The run of C3 in full: ten documents go through, the next ten are
    refused three times with a hint of 30 seconds, and the function returns
    10 without trying the last five. *)
Example qdrant_stops_on_used_up_quota :
  import_to_qdrant_with_langchain (quota_store 1) read_hint
    QDRANT_BATCH_SIZE QDRANT_DELAY_SECONDS QDRANT_MAX_RETRIES (seq 0 25) 0 0
  = Outcome (Some 10)
      [EvUpsert (seq 0 10) Committed; EvSleep 2;
       EvUpsert (seq 10 10) (Failed "429 quota exceeded, retry in 30s");
       EvSleep 35;
       EvUpsert (seq 10 10) (Failed "429 quota exceeded, retry in 30s");
       EvSleep 35;
       EvUpsert (seq 10 10) (Failed "429 quota exceeded, retry in 30s");
       EvStop 2]
      4.
Proof. reflexivity. Qed.

(** [main] on a store that holds the first 5 of 12 documents: it goes on
    from the sixth, in two batches. *)
Example main_resumes_after_five :
  main accepting_store read_hint
    CHROMA_BATCH_SIZE CHROMA_DELAY_SECONDS CHROMA_MAX_RETRIES
    accepting_count (seq 0 12) (seq 0 5)
  = Outcome tt
      [EvUpsert (seq 5 5) Committed; EvSleep 5;
       EvUpsert (seq 10 2) Committed; EvSleep 5]
      (seq 0 12).
Proof. reflexivity. Qed.

(** ** Sorting by decreasing score *)

Import Food.

Section Ranking.
Implicit Types (x y : restaurant) (l : list restaurant).

Lemma score_ltb_false x y :
  score_ltb (score x) (score y) = false <-> ranks_above x y.
Proof.
  unfold score_ltb, ranks_above. rewrite negb_false_iff.
  apply Qle_bool_iff.
Qed.

Lemma score_ltb_true x y :
  score_ltb (score x) (score y) = true <-> (score x < score y)%Q.
Proof.
  unfold score_ltb. rewrite negb_true_iff, <- not_true_iff_false.
  rewrite Qle_bool_iff. split; [apply Qnot_le_lt|apply Qlt_not_le].
Qed.

#[local] Instance ranks_above_trans : Transitive ranks_above.
Proof. intros x y z Hxy Hyz. exact (Qle_trans _ _ _ Hyz Hxy). Qed.

Lemma insert_desc_perm x l : insert_desc x l ≡ₚ x :: l.
Proof.
  induction l as [|y l IH]; simpl; [done|].
  destruct (score_ltb _ _); [|done].
  by rewrite IH, Permutation_swap.
Qed.

Lemma sort_by_score_desc_perm l : sort_by_score_desc l ≡ₚ l.
Proof.
  induction l as [|x l IH]; simpl; [done|].
  by rewrite insert_desc_perm, IH.
Qed.

Lemma insert_desc_sorted x l :
  Sorted ranks_above l -> Sorted ranks_above (insert_desc x l).
Proof.
  induction 1 as [|y l Hl IH Hhd]; simpl.
  - by repeat constructor.
  - destruct (score_ltb (score x) (score y)) eqn:Hxy.
    + constructor; [done|].
      apply score_ltb_true in Hxy.
      destruct Hhd as [|z l Hyz]; simpl.
      * constructor. by apply Qlt_le_weak.
      * destruct (score_ltb (score x) (score z)); constructor;
          [done|by apply Qlt_le_weak].
    + apply score_ltb_false in Hxy. by repeat constructor.
Qed.

Lemma sort_by_score_desc_sorted l : Sorted ranks_above (sort_by_score_desc l).
Proof.
  induction l as [|x l IH]; simpl; [constructor|].
  by apply insert_desc_sorted.
Qed.

(** Sorting a list that is in order changes nothing. *)
Lemma sort_by_score_desc_fixed l :
  Sorted ranks_above l -> sort_by_score_desc l = l.
Proof.
  induction 1 as [|x l Hl IH Hhd]; simpl; [done|].
  rewrite IH. destruct Hhd as [|y l Hxy]; simpl; [done|].
  by rewrite (proj2 (score_ltb_false x y)).
Qed.

(** Stability: among the records of one score, insertion puts the new
    record first. *)
Lemma filter_insert_desc (q : Q) x l :
  filter (fun y => Qeq_bool (score y) q = true) (insert_desc x l)
  = filter (fun y => Qeq_bool (score y) q = true) (x :: l).
Proof.
  induction l as [|y l IH]; simpl; [done|].
  destruct (score_ltb (score x) (score y)) eqn:Hxy; [|done].
  apply score_ltb_true in Hxy.
  rewrite (filter_cons _ y), IH, !(filter_cons _ x), (filter_cons _ y).
  destruct (decide (Qeq_bool (score x) q = true)) as [Hx|Hx];
    destruct (decide (Qeq_bool (score y) q = true)) as [Hy|Hy]; try done.
  exfalso. apply Qeq_bool_iff in Hx, Hy.
  rewrite Hx, Hy in Hxy. by apply Qlt_irrefl in Hxy.
Qed.

Lemma filter_sort_by_score_desc (q : Q) l :
  filter (fun y => Qeq_bool (score y) q = true) (sort_by_score_desc l)
  = filter (fun y => Qeq_bool (score y) q = true) l.
Proof.
  induction l as [|x l IH]; simpl; [done|].
  by rewrite filter_insert_desc, !filter_cons, IH.
Qed.

End Ranking.

(** ** The deduplication loop *)

Section Dedup.
Variable lower : string -> string.
Variable strip : string -> string.

Local Abbreviation name_normalized := (name_normalized lower strip).
Local Abbreviation dedup_loop := (dedup_loop lower strip).
Local Abbreviation same_key := (same_key lower strip).
Implicit Types (r x y : restaurant) (l acc : list restaurant).
Implicit Types (sn su : gset string).

Lemma not_elem_of_add (a b : string) (X : gset string) :
  a ∉ {[b]} ∪ X <-> a <> b /\ a ∉ X.
Proof. rewrite elem_of_union, elem_of_singleton. tauto. Qed.

(** The list [unique] only grows at its end. *)
Lemma dedup_loop_acc l sn su acc :
  dedup_loop l sn su acc = acc ++ dedup_loop l sn su [].
Proof.
  revert sn su acc. induction l as [|r l IH]; intros sn su acc; simpl.
  - by rewrite app_nil_r.
  - destruct (_ || _); [done|].
    rewrite (IH _ _ (acc ++ [r])), (IH _ _ [r]). by rewrite <- app_assoc.
Qed.

Lemma dedup_loop_cons r l sn su :
  dedup_loop (r :: l) sn su []
  = if bool_decide (name_normalized r ∈ sn) || bool_decide (url r ∈ su)
    then dedup_loop l sn su []
    else r :: dedup_loop l ({[name_normalized r]} ∪ sn) ({[url r]} ∪ su) [].
Proof.
  simpl. destruct (_ || _); [done|]. by rewrite dedup_loop_acc.
Qed.

(** The loop over a list in two parts: the second part is run with what
    the first has seen. *)
Lemma dedup_loop_app l l' sn su :
  dedup_loop (l ++ l') sn su []
  = let u := dedup_loop l sn su [] in
    u ++ dedup_loop l' (list_to_set (name_normalized <$> u) ∪ sn)
           (list_to_set (url <$> u) ∪ su) [].
Proof.
  revert sn su. induction l as [|r l IH]; intros sn su.
  - simpl. by rewrite !union_empty_l_L.
  - rewrite <- app_comm_cons, !dedup_loop_cons.
    destruct (bool_decide (name_normalized r ∈ sn)
              || bool_decide (url r ∈ su)); [apply IH|].
    rewrite IH. cbv zeta. rewrite !fmap_cons, !list_to_set_cons.
    rewrite <- app_comm_cons, !(assoc_L (∪)).
    rewrite (comm_L (∪) _ {[name_normalized r]}).
    by rewrite (comm_L (∪) _ {[url r]}).
Qed.

(** What the loop keeps was not seen before, and no two kept records share
    a normalized name or a URL. *)
Lemma dedup_loop_fresh l sn su :
  let u := dedup_loop l sn su [] in
  (forall x, x ∈ u -> (name_normalized x ∉ sn) /\ (url x ∉ su)) /\
  NoDup (name_normalized <$> u) /\ NoDup (url <$> u).
Proof.
  revert sn su. induction l as [|r l IH]; intros sn su.
  - simpl. split; [|split; constructor]. intros x Hx.
    by apply elem_of_nil in Hx.
  - cbv zeta. rewrite dedup_loop_cons.
    destruct (bool_decide (name_normalized r ∈ sn)) eqn:Hn; csimpl;
      [apply IH|].
    destruct (bool_decide (url r ∈ su)) eqn:Hu; csimpl; [apply IH|].
    apply bool_decide_eq_false in Hn, Hu.
    destruct (IH ({[name_normalized r]} ∪ sn) ({[url r]} ∪ su))
      as (Hfresh & Hnames & Hurls).
    split; [|split].
    + intros x [->|Hx]%elem_of_cons; [done|].
      destruct (Hfresh x Hx) as [Hxn%not_elem_of_add Hxu%not_elem_of_add].
      tauto.
    + constructor; [|done].
      intros (x & Hx & Hin)%list_elem_of_fmap.
      destruct (Hfresh x Hin) as [[Hne _]%not_elem_of_add _]. congruence.
    + constructor; [|done].
      intros (x & Hx & Hin)%list_elem_of_fmap.
      destruct (Hfresh x Hin) as [_ [Hne _]%not_elem_of_add]. congruence.
Qed.

(** A list without shared names or URLs goes through the loop unchanged. *)
Lemma dedup_loop_fixed l sn su :
  NoDup (name_normalized <$> l) ->
  NoDup (url <$> l) ->
  (forall x, x ∈ l -> (name_normalized x ∉ sn) /\ (url x ∉ su)) ->
  dedup_loop l sn su [] = l.
Proof.
  revert sn su. induction l as [|r l IH]; intros sn su Hnames Hurls Hfresh;
    [done|].
  rewrite dedup_loop_cons.
  destruct (Hfresh r) as [Hn Hu]; [left|].
  rewrite (bool_decide_eq_false_2 _ Hn), (bool_decide_eq_false_2 _ Hu).
  simpl. f_equal.
  rewrite fmap_cons in Hnames, Hurls.
  apply NoDup_cons in Hnames as [Hn' Hnames], Hurls as [Hu' Hurls].
  apply IH; [done|done|].
  intros x Hx. destruct (Hfresh x) as [Hxn Hxu]; [by right|].
  rewrite !not_elem_of_add. repeat split; [|done| |done].
  - intros Heq. apply Hn'. rewrite <- Heq. by apply list_elem_of_fmap_2.
  - intros Heq. apply Hu'. rewrite <- Heq. by apply list_elem_of_fmap_2.
Qed.

(** The loop keeps the order of the input. *)
Lemma dedup_loop_sublist l sn su : dedup_loop l sn su [] `sublist_of` l.
Proof.
  revert sn su. induction l as [|r l IH]; intros sn su; [done|].
  rewrite dedup_loop_cons. destruct (_ || _).
  - by apply sublist_cons.
  - by apply sublist_skip.
Qed.

Lemma same_key_refl x : same_key x x = true.
Proof. unfold same_key. by rewrite !bool_decide_eq_true_2. Qed.

(** A record that is kept is the first of the input with its key. *)
Lemma dedup_loop_first l sn su x :
  x ∈ dedup_loop l sn su [] ->
  head (filter (fun y => same_key x y = true) l) = Some x.
Proof.
  revert sn su. induction l as [|r l IH]; intros sn su.
  - intros Hx. by apply elem_of_nil in Hx.
  - rewrite dedup_loop_cons.
    destruct (bool_decide (name_normalized r ∈ sn)
              || bool_decide (url r ∈ su)) eqn:Hseen.
    + intros Hx.
      destruct (dedup_loop_fresh l sn su) as (Hfresh & _).
      destruct (Hfresh x Hx) as [Hn Hu].
      rewrite filter_cons_False; [by eapply IH|].
      unfold same_key. intros [Hsn Hsu]%andb_true_iff.
      apply bool_decide_eq_true in Hsn, Hsu.
      apply orb_true_iff in Hseen as [Hs|Hs];
        apply bool_decide_eq_true in Hs; congruence.
    + intros [->|Hx]%elem_of_cons.
      * by rewrite filter_cons_True by apply same_key_refl.
      * destruct (dedup_loop_fresh l ({[name_normalized r]} ∪ sn)
                    ({[url r]} ∪ su)) as (Hfresh & _).
        destruct (Hfresh x Hx) as [[Hn _]%not_elem_of_add _].
        rewrite filter_cons_False; [by eapply IH|].
        unfold same_key. intros [Hsn Hsu]%andb_true_iff.
        apply bool_decide_eq_true in Hsn. congruence.
Qed.

(** The next record is kept when its normalized name and its URL are those
    of no record seen or kept so far. *)
Lemma dedup_loop_snoc l r sn su :
  dedup_loop (l ++ [r]) sn su []
  = let u := dedup_loop l sn su [] in
    if bool_decide
         (name_normalized r ∈ sn ∪ list_to_set (name_normalized <$> u))
       || bool_decide (url r ∈ su ∪ list_to_set (url <$> u))
    then u else u ++ [r].
Proof.
  revert sn su. induction l as [|r0 l IH]; intros sn su.
  - simpl. rewrite !union_empty_r_L. by destruct (_ || _).
  - rewrite <- app_comm_cons, !dedup_loop_cons.
    destruct (bool_decide (name_normalized r0 ∈ sn)
              || bool_decide (url r0 ∈ su)); [apply IH|].
    rewrite IH. cbv zeta. rewrite !fmap_cons, !list_to_set_cons.
    rewrite !(assoc_L (∪)), !(comm_L (∪) sn), !(comm_L (∪) su).
    by destruct (_ || _).
Qed.

End Dedup.

(** ** Scoring *)

Section Scoring.

(** C5. The score is the Bayesian average
    [(C*m + review_count*rating) / (C + review_count)] with [C = 10] and
    [m = 7.0], brought to the scale 0-100 by [(score / 10) * 100], for every
    rating and review count; without a rating it is exactly 50.0 whatever
    the review count. So a rating of 8.0 with 10 reviews scores 75.0, and a
    rating alone, without reviews, scores the prior 70.0. *)
Theorem calculate_score_is_the_bayesian_average
    (rating : option float) (review_count : Z) :
  _calculate_score rating review_count = spec_score rating review_count /\
  _calculate_score None review_count = Val 50%float /\
  _calculate_score None 0 = Val 50%float /\
  _calculate_score (Some 8%float) 10 = Val 75%float /\
  _calculate_score (Some 10%float) 0 = Val 70%float.
Proof.
  split; [|repeat split; by vm_compute].
  destruct rating as [rating|]; [|done].
  unfold _calculate_score, spec_score, bayesian_average, normalize_0_100.
  destruct (int_mul_float 10 7) as [prior|e]; [|done]. simpl.
  destruct (int_mul_float review_count rating) as [weighted|e]; [|done].
  simpl. by destruct (float_div_int _ _).
Qed.




End Scoring.

(** ** Deduplication and ranking *)

(** Filtering keeps the order: records standing one before the other that
    both pass the filter stand one before the other in what is kept. *)
Lemma filter_keeps_order {A : Type} (P : A -> Prop)
    `{!forall a, Decision (P a)} (l1 l2 l3 : list A) (x y : A) :
  P x -> P y ->
  filter P (l1 ++ x :: l2 ++ y :: l3)
  = filter P l1 ++ x :: filter P l2 ++ y :: filter P l3.
Proof.
  intros Hx Hy.
  rewrite filter_app, filter_cons_True, filter_app, filter_cons_True by done.
  done.
Qed.

Lemma sublist_two {A : Type} (k1 k2 k3 l : list A) (x y : A) :
  k1 ++ x :: k2 ++ y :: k3 `sublist_of` l ->
  exists l1 l2 l3, l = l1 ++ x :: l2 ++ y :: l3.
Proof.
  intros (l1 & l' & -> & _ & Hrest)%sublist_app_l.
  apply sublist_cons_l in Hrest as (l1' & l'' & -> & Hrest).
  apply sublist_app_l in Hrest as (l2 & l''' & -> & _ & Hrest).
  apply sublist_cons_l in Hrest as (l2' & l3 & -> & _).
  exists (l1 ++ l1'), (l2 ++ l2'), l3.
  by rewrite <- !app_assoc.
Qed.


Section DedupAndRank.
Variable lower : string -> string.
Variable strip : string -> string.

Local Abbreviation name_normalized := (name_normalized lower strip).
Local Abbreviation dedup_loop := (dedup_loop lower strip).
Local Abbreviation same_key := (same_key lower strip).
Local Abbreviation unique_restaurants := (unique_restaurants lower strip).
Local Abbreviation _deduplicate_and_rank :=
  (_deduplicate_and_rank lower strip).
Implicit Types (r x y : restaurant) (l restaurants : list restaurant).

Lemma deduplicate_and_rank_perm restaurants :
  _deduplicate_and_rank restaurants ≡ₚ unique_restaurants restaurants.
Proof. apply sort_by_score_desc_perm. Qed.

Lemma deduplicate_and_rank_NoDup restaurants :
  NoDup (name_normalized <$> _deduplicate_and_rank restaurants) /\
  NoDup (url <$> _deduplicate_and_rank restaurants).
Proof.
  rewrite !deduplicate_and_rank_perm.
  destruct (dedup_loop_fresh lower strip restaurants ∅ ∅)
    as (_ & Hnames & Hurls).
  done.
Qed.

(** C7, as the loop does it. No two records of the result share a
    normalized name, and no two share a URL. A record of the result is the
    first record of the input with its normalized key, so of the records
    that share a key at most one is kept, and none but the first seen. What
    is kept of a list stays kept when the list goes on, and the next record
    is kept exactly when no record kept so far has its normalized name or
    its URL. The result holds the kept records, reordered. The records
    named "Ho Guom Cafe" and "ho guom cafe" with the URL "a" come out as one
    record, the first. *)
Theorem dedup_keeps_first_seen_without_conflict restaurants :
  let out := _deduplicate_and_rank restaurants in
  NoDup (name_normalized <$> out) /\
  NoDup (url <$> out) /\
  (forall x, x ∈ out ->
     head (filter (fun y => same_key x y = true) restaurants) = Some x) /\
  (forall r,
     unique_restaurants (restaurants ++ [r])
     = let u := unique_restaurants restaurants in
       if bool_decide (name_normalized r ∈ name_normalized <$> u)
          || bool_decide (url r ∈ url <$> u)
       then u else u ++ [r]) /\
  (forall rest,
     unique_restaurants restaurants
     `prefix_of` unique_restaurants (restaurants ++ rest)) /\
  out ≡ₚ unique_restaurants restaurants /\
  (forall a b,
     name_normalized b = name_normalized a \/ url b = url a ->
     _deduplicate_and_rank [a; b] = [a]) /\
  (forall a b,
     name a = "Ho Guom Cafe" -> name b = "ho guom cafe" ->
     url a = "a" -> url b = "a" ->
     _deduplicate_and_rank [a; b] = [a]).
Proof.
  intros out.
  destruct (deduplicate_and_rank_NoDup restaurants) as [Hnames Hurls].
  assert (Htwo : forall a b,
    name_normalized b = name_normalized a \/ url b = url a ->
    _deduplicate_and_rank [a; b] = [a]).
  { intros a b Hab. unfold _deduplicate_and_rank, unique_restaurants.
    rewrite !dedup_loop_cons.
    rewrite (bool_decide_eq_false_2 (name_normalized a ∈ (∅ : gset string)))
      by apply not_elem_of_empty.
    rewrite (bool_decide_eq_false_2 (url a ∈ (∅ : gset string)))
      by apply not_elem_of_empty.
    simpl. destruct Hab as [-> | ->].
    - rewrite (bool_decide_eq_true_2 (name_normalized a ∈ _)); [done|].
      apply elem_of_union_l. by apply elem_of_singleton.
    - rewrite (bool_decide_eq_true_2 (url a ∈ _)).
      + by rewrite orb_true_r.
      + apply elem_of_union_l. by apply elem_of_singleton. }
  split; [done|]. split; [done|].
  split; [|split; [|split; [|split; [|split; [done|]]]]].
  - intros x Hx. unfold out in Hx. rewrite deduplicate_and_rank_perm in Hx.
    by apply (dedup_loop_first lower strip restaurants ∅ ∅).
  - intros r. unfold unique_restaurants. rewrite dedup_loop_snoc. cbv zeta.
    rewrite !union_empty_l_L.
    rewrite (bool_decide_ext _ _ (elem_of_list_to_set _ _)).
    by rewrite (bool_decide_ext (url r ∈ list_to_set _) _
                  (elem_of_list_to_set _ _)).
  - intros rest. unfold unique_restaurants. rewrite dedup_loop_app.
    by eexists.
  - apply deduplicate_and_rank_perm.
  - intros a b _ _ Hua Hub. apply Htwo. right. congruence.
Qed.

(** C8. Deduplicating and ranking twice is the same as doing it once. *)
Theorem deduplicate_and_rank_idempotent restaurants :
  _deduplicate_and_rank (_deduplicate_and_rank restaurants)
  = _deduplicate_and_rank restaurants.
Proof.
  destruct (deduplicate_and_rank_NoDup restaurants) as [Hnames Hurls].
  unfold _deduplicate_and_rank at 1. unfold unique_restaurants at 1.
  rewrite dedup_loop_fixed; [|done|done|].
  - apply sort_by_score_desc_fixed, sort_by_score_desc_sorted.
  - intros x _. split; apply not_elem_of_empty.
Qed.

(** C9. The result is in decreasing order of score. Records of the same
    score stand in the result as they stand in the list of kept records,
    which keeps the order of the input: when [x] is ranked before [y] with
    the same score, [x] comes before [y] in the input. *)
Theorem ranking_is_sorted_and_stable restaurants :
  let out := _deduplicate_and_rank restaurants in
  StronglySorted ranks_above out /\
  (forall q,
     filter (fun y => Qeq_bool (score y) q = true) out
     = filter (fun y => Qeq_bool (score y) q = true)
         (unique_restaurants restaurants)) /\
  unique_restaurants restaurants `sublist_of` restaurants /\
  (forall o1 o2 o3 x y,
     out = o1 ++ x :: o2 ++ y :: o3 ->
     (score x == score y)%Q ->
     exists l1 l2 l3, restaurants = l1 ++ x :: l2 ++ y :: l3).
Proof.
  intros out.
  assert (Hstable : forall q,
    filter (fun y => Qeq_bool (score y) q = true) out
    = filter (fun y => Qeq_bool (score y) q = true)
        (unique_restaurants restaurants)).
  { intros q. apply filter_sort_by_score_desc. }
  assert (Hsub : unique_restaurants restaurants `sublist_of` restaurants)
    by apply dedup_loop_sublist.
  split; [|split; [done|split; [done|]]].
  - apply Sorted_StronglySorted; [apply ranks_above_trans|].
    apply sort_by_score_desc_sorted.
  - intros o1 o2 o3 x y Hout Hxy.
    pose proof (Hstable (score y)) as Hq. rewrite Hout in Hq.
    rewrite filter_keeps_order in Hq
      by (by apply Qeq_bool_iff).
    eapply sublist_two. rewrite Hq.
    etrans; [apply sublist_filter|done].
Qed.

End DedupAndRank.

(** ** The score in binary64 and over the rationals *)


(** The binary64 score is monotone on the ratings with one decimal and up
    to 100 reviews. *)
Lemma float_score_monotone_on_grid : monotone_on_grid 100 = true.
Proof. by vm_compute. Qed.


(** ** Records that share a key *)

(** C7, against the claim as stated. The second and third record below
    share their normalized key, the name and the URL, which the first
    record has not, its URL being another. Neither of the two is kept: the
    first record has their name. This holds whatever [str.lower] and
    [str.strip] return, the three names being the same string. *)
Lemma shared_key_can_leave_no_survivor :
  let dac := Restaurant "Bun Cha" "u0" "1 Hang Manh" None 0 "foody" 50 in
  let huong := Restaurant "Bun Cha" "u1" "34 Hang Than" None 0 "foody" 50 in
  let lien := Restaurant "Bun Cha" "u1" "24 Le Van Huu" None 0 "search" 50 in
  (forall lower strip, same_key lower strip huong lien = true) /\
  (forall lower strip, same_key lower strip dac huong = false) /\
  (forall lower strip,
     _deduplicate_and_rank lower strip [dac; huong; lien] = [dac]).
Proof.
  cbv zeta. split; [|split]; intros lower strip.
  - unfold same_key. by rewrite !bool_decide_eq_true_2.
  - unfold same_key. rewrite (bool_decide_eq_false_2 (_ = "u0")) by done.
    apply andb_false_r.
  - unfold _deduplicate_and_rank, unique_restaurants.
    rewrite !dedup_loop_cons. unfold name_normalized. simpl.
    rewrite (bool_decide_eq_false_2 (_ ∈ (∅ : gset string)))
      by apply not_elem_of_empty.
    rewrite (bool_decide_eq_false_2 ("u0" ∈ (∅ : gset string)))
      by apply not_elem_of_empty.
    simpl. rewrite (bool_decide_eq_true_2 (strip (lower "Bun Cha") ∈ _)).
    + done.
    + apply elem_of_union_l. by apply elem_of_singleton.
Qed.

(** ** POIs unique by OSM id *)

Import OSM.

Section UniquePois.
Implicit Types (p q v : poi) (k : Z) (d : list (Z * poi)).
Implicit Types (all_pois : list poi).

Lemma dict_set_keys k v d :
  (dict_set k v d).*1 = if decide (k ∈ d.*1) then d.*1 else d.*1 ++ [k].
Proof.
  induction d as [|[k' v'] d IH].
  - destruct (decide (k ∈ ([] : list (Z * poi)).*1)) as [Hin|_]; [|done].
    by apply elem_of_nil in Hin.
  - cbn [dict_set]. rewrite !fmap_cons. cbn [fst].
    destruct (decide (k' = k)) as [->|Hne].
    + rewrite fmap_cons. cbn [fst]. by rewrite decide_True by left.
    + rewrite fmap_cons, IH. cbn [fst].
      destruct (decide (k ∈ d.*1)) as [Hin|Hout].
      * by rewrite decide_True by by right.
      * rewrite decide_False; [done|].
        intros [?|?]%elem_of_cons; congruence.
Qed.

Lemma dict_set_NoDup k v d : NoDup d.*1 -> NoDup (dict_set k v d).*1.
Proof.
  intros Hd. rewrite dict_set_keys. destruct (decide _) as [Hin|Hout]; [done|].
  apply NoDup_app. split; [done|]. split; [|apply NoDup_singleton].
  intros k' Hk' ->%list_elem_of_singleton. done.
Qed.

Lemma dict_set_elem_of k v d k' v' :
  NoDup d.*1 ->
  (k', v') ∈ dict_set k v d
  <-> (k' = k /\ v' = v) \/ (k' <> k /\ (k', v') ∈ d).
Proof.
  induction d as [|[k0 v0] d IH]; csimpl; intros Hd.
  - rewrite list_elem_of_singleton, elem_of_nil. split.
    + intros [= -> ->]. by left.
    + intros [[-> ->]|[_ []]]. done.
  - apply NoDup_cons in Hd as [Hk0 Hd].
    destruct (decide (k0 = k)) as [->|Hne].
    + rewrite !elem_of_cons. split.
      * intros [[= -> ->]|Hin]; [by left|].
        right. split; [|by right]. intros ->. apply Hk0.
        by apply (list_elem_of_fmap_2 fst) in Hin.
      * intros [[-> ->]|[Hne [[= -> ->]|Hin]]]; [by left|done|by right].
    + rewrite !elem_of_cons, IH by done. split.
      * intros [[= -> ->]|[[-> ->]|[Hne' Hin]]]; [|by left|].
        -- right. split; [done|by left].
        -- right. split; [done|by right].
      * intros [[-> ->]|[Hne' [[= -> ->]|Hin]]].
        -- right. by left.
        -- by left.
        -- right. right. done.
Qed.

Lemma dict_by_osm_id_snoc all_pois p :
  dict_by_osm_id (all_pois ++ [p])
  = dict_set (osm_id p) p (dict_by_osm_id all_pois).
Proof. unfold dict_by_osm_id. by rewrite foldl_app. Qed.

(** The dictionary holds, under each id met so far, the last POI met with
    that id. *)
Lemma dict_by_osm_id_spec all_pois :
  NoDup (dict_by_osm_id all_pois).*1 /\
  forall k v,
    (k, v) ∈ dict_by_osm_id all_pois
    <-> last (filter (fun q => osm_id q = k) all_pois) = Some v.
Proof.
  induction all_pois as [|p all_pois [Hkeys IH]] using rev_ind.
  - split; [constructor|]. intros k v. csimpl.
    rewrite elem_of_nil. done.
  - rewrite dict_by_osm_id_snoc. split; [by apply dict_set_NoDup|].
    intros k v. rewrite dict_set_elem_of, IH, filter_app by done.
    destruct (decide (osm_id p = k)) as [<-|Hne].
    + rewrite filter_cons_True, filter_nil, last_snoc by done. split.
      * intros [[_ ->]|[Hne _]]; done.
      * intros [= ->]. by left.
    + rewrite filter_cons_False, filter_nil, app_nil_r by done. split.
      * intros [[-> _]|[_ Hlast]]; done.
      * intros Hlast. right. split; [congruence|done].
Qed.

Lemma dict_by_osm_id_keys all_pois :
  osm_id <$> unique_pois all_pois = (dict_by_osm_id all_pois).*1.
Proof.
  destruct (dict_by_osm_id_spec all_pois) as [_ Hspec].
  unfold unique_pois. rewrite <- list_fmap_compose.
  apply list_fmap_ext. intros i [k v] Hi. simpl.
  apply list_elem_of_lookup_2, Hspec, last_Some_elem_of in Hi.
  by apply list_elem_of_filter in Hi as [Hi _].
Qed.

(** C10. The POIs returned carry pairwise distinct OSM ids; a POI is
    returned exactly when it is the last one of its id in the accumulated
    list, and every id of that list is among those returned. So of two
    POIs with one id the second is kept, not the first. *)
Theorem unique_pois_keeps_last_seen all_pois :
  let out := unique_pois all_pois in
  NoDup (osm_id <$> out) /\
  (forall p,
     p ∈ out
     <-> last (filter (fun q => osm_id q = osm_id p) all_pois) = Some p) /\
  (forall p, p ∈ all_pois -> osm_id p ∈ osm_id <$> out) /\
  (forall p1 p2, osm_id p1 = osm_id p2 -> unique_pois [p1; p2] = [p2]) /\
  (forall fetch_category categories,
     collect_pois fetch_category "Hanoi" categories
     = Some (unique_pois (accumulate fetch_category 0 categories []))).
Proof.
  intros out. destruct (dict_by_osm_id_spec all_pois) as [Hkeys Hspec].
  assert (Hout : forall p,
    p ∈ out
    <-> last (filter (fun q => osm_id q = osm_id p) all_pois) = Some p).
  { intros p. unfold out, unique_pois. rewrite list_elem_of_fmap. split.
    - intros ([k v] & -> & Hin). simpl.
      pose proof (proj1 (Hspec k v) Hin) as Hlast.
      pose proof (last_Some_elem_of _ _ Hlast) as Hv.
      apply list_elem_of_filter in Hv as [<- _]. done.
    - intros Hlast. exists (osm_id p, p). split; [done|].
      by apply Hspec. }
  split; [|split; [done|split; [|split]]].
  - unfold out. by rewrite dict_by_osm_id_keys.
  - intros p Hp.
    destruct (last (filter (fun q => osm_id q = osm_id p) all_pois))
      as [v|] eqn:Hlast.
    + pose proof (last_Some_elem_of _ _ Hlast) as Hv.
      apply list_elem_of_filter in Hv as [Hid _].
      rewrite <- Hid. apply list_elem_of_fmap_2, Hout.
      by rewrite Hid.
    + apply last_None in Hlast.
      assert (p ∈ filter (fun q => osm_id q = osm_id p) all_pois) as Hin
        by by apply list_elem_of_filter.
      rewrite Hlast in Hin. by apply elem_of_nil in Hin.
  - intros p1 p2 Hid. unfold unique_pois, dict_by_osm_id. simpl.
    by rewrite decide_True.
  - intros fetch_category categories. unfold collect_pois.
    by rewrite decide_True.
Qed.

End UniquePois.

(** ** Pauses, call counts and the stop line of a run *)

Section Runs.
Context {Doc Store : Type}.
Variable upsert : list Doc -> Store -> upsert_result * Store.
Variable retry_hint : string -> option Q.
Variable BATCH_SIZE : nat.
Variable DELAY_SECONDS : Q.
Variable MAX_RETRIES : nat.
Variable count : Store -> option Z.

Local Abbreviation commit_batch :=
  (commit_batch upsert retry_hint DELAY_SECONDS).
Local Abbreviation import_batches :=
  (import_batches upsert retry_hint BATCH_SIZE DELAY_SECONDS MAX_RETRIES).
Local Abbreviation import_to_qdrant_with_langchain :=
  (import_to_qdrant_with_langchain upsert retry_hint BATCH_SIZE
     DELAY_SECONDS MAX_RETRIES).
Local Abbreviation add_batch := (add_batch upsert retry_hint DELAY_SECONDS).
Local Abbreviation add_batches :=
  (add_batches upsert retry_hint BATCH_SIZE DELAY_SECONDS MAX_RETRIES).
Local Abbreviation main :=
  (main upsert retry_hint BATCH_SIZE DELAY_SECONDS MAX_RETRIES count).
Local Abbreviation run_from :=
  (run_from upsert retry_hint BATCH_SIZE DELAY_SECONDS MAX_RETRIES count).
Local Abbreviation batch_at work :=
  (fun i => slice work i (i + BATCH_SIZE)).
Local Abbreviation import_batches_cons :=
  (import_batches_cons upsert retry_hint BATCH_SIZE DELAY_SECONDS MAX_RETRIES).
Local Abbreviation add_batches_cons :=
  (add_batches_cons upsert retry_hint BATCH_SIZE DELAY_SECONDS MAX_RETRIES).

(** The pause [main] makes after a commit call. *)

Lemma run_shape_calls R (bs : list (list Doc)) att j st :
  run_shape R bs att j st ->
  length att <= R * length bs /\ (st = false -> length bs <= length att).
Proof.
  induction 1 as [|b bs k att j st Hk _ [IHle IHge]|b bs]; simpl.
  - lia.
  - rewrite length_app, length_replicate. simpl. split; [nia|].
    intros Hst. specialize (IHge Hst). lia.
  - rewrite length_replicate. split; [nia|done].
Qed.

Lemma range_length_ceil stop step :
  0 < step -> range_length stop step = (stop + step - 1) / step.
Proof.
  intros Hstep. destruct stop as [|hi]; unfold range_length.
  - symmetry. apply Nat.div_small. lia.
  - replace (S hi + step - 1) with (hi + 1 * step) by lia.
    rewrite Nat.div_add by lia. lia.
Qed.

(** The calls of a run, batch by batch: each batch that is reached is
    handed over between once and [R] times in a row, and every batch is
    reached unless the run gave up. *)
Lemma run_shape_groups R (bs : list (list Doc)) att j st :
  0 < R ->
  run_shape R bs att j st ->
  exists calls : list nat,
    fst <$> att = concat (zip_with (fun b c => replicate c b) bs calls) /\
    Forall (fun c => 1 <= c <= R) calls /\
    length calls <= length bs /\
    (st = false -> length calls = length bs).
Proof.
  intros HR.
  induction 1 as [|b bs k att j st Hk _ (calls & Hatt & Hc & Hle & Hall)|b bs].
  - exists []. repeat split; [constructor|done].
  - exists (S k :: calls). csimpl. split; [|split; [|split]].
    + rewrite fmap_app, fmap_replicate. csimpl. rewrite Hatt.
      by rewrite (app_comm_cons _ _ b), replicate_cons_app, <- app_assoc.
    + constructor; [lia|done].
    + lia.
    + intros Hst. by rewrite Hall.
  - exists [R]. csimpl. split; [|split; [|split]].
    + by rewrite fmap_replicate, zip_with_nil_r, app_nil_r.
    + constructor; [lia|constructor].
    + lia.
    + done.
Qed.

(** X1. The work list of a run started with [existing_count = k] is cut
    into the number of documents left, divided by [BATCH_SIZE] and
    rounded up, batches. Either importer hands the batches to the store
    in their order, each batch it reaches between once and [MAX_RETRIES]
    times in a row, and it reaches every batch unless it gave up. So the
    number of commit calls is at most [MAX_RETRIES] times the number of
    batches, and at least that number when the run did not give up. *)
Theorem commit_calls_are_bounded
    (documents : list Doc) (k : nat) (s : Store) (tr : list (event Doc)) :
  0 < BATCH_SIZE ->
  0 < MAX_RETRIES ->
  run_from documents k s tr ->
  let batches := (length documents - k + BATCH_SIZE - 1) / BATCH_SIZE in
  length (batches_of BATCH_SIZE (drop k documents)) = batches /\
  (exists calls : list nat,
     submitted tr
     = concat (zip_with (fun b c => replicate c b)
                 (batches_of BATCH_SIZE (drop k documents)) calls) /\
     Forall (fun c => 1 <= c <= MAX_RETRIES) calls /\
     length calls <= batches /\
     (stopped tr = false -> length calls = batches)) /\
  length (attempts tr) <= MAX_RETRIES * batches /\
  (stopped tr = false -> batches <= length (attempts tr)).
Proof.
  intros HB HR Hrun batches.
  assert (Hlen : length (batches_of BATCH_SIZE (drop k documents)) = batches).
  { rewrite batches_of_length, length_drop. by apply range_length_ceil. }
  split; [done|]. rewrite <- Hlen.
  destruct (run_from_shape upsert retry_hint BATCH_SIZE DELAY_SECONDS
              MAX_RETRIES count documents k s tr HR Hrun) as (j & Hshape).
  split; [exact (run_shape_groups _ _ _ _ _ HR Hshape)|].
  exact (run_shape_calls _ _ _ _ _ Hshape).
Qed.

Local Abbreviation pause r :=
  (match r with
   | Committed => DELAY_SECONDS
   | Failed error_msg => wait_time retry_hint 65 error_msg
   end).

Lemma add_batch_waits R (b : list Doc) s :
  exists rs,
    trace (add_batch R b s)
    = calls_with_waits (fun r => pause r) (pair b <$> rs).
Proof.
  revert s. induction R as [|R IH]; intros s.
  - by exists [].
  - simpl. unfold bind, call_upsert.
    destruct (upsert b s) as [[|msg] s'] eqn:Hup; simpl.
    + by exists [Committed].
    + destruct (IH s') as [rs Hrs]. exists (Failed msg :: rs).
      rewrite Hrs. done.
Qed.

Lemma add_batches_waits indices work ec s :
  exists cs tail,
    trace (add_batches indices work ec s)
    = calls_with_waits (fun r => pause r) cs ++ tail /\
    (tail = [] \/ exists n, tail = [EvStop n]).
Proof.
  revert s. induction indices as [|i indices IH]; intros s.
  - exists [], []. split; [done|by left].
  - rewrite add_batches_cons. cbv zeta.
    destruct (add_batch_waits MAX_RETRIES (batch_at work i) s) as [rs Hrs].
    destruct (value _); simpl; rewrite Hrs.
    + destruct (IH (store (add_batch MAX_RETRIES (batch_at work i) s)))
        as (cs & tail & -> & Htail).
      exists ((pair (batch_at work i) <$> rs) ++ cs), tail.
      split; [|done]. unfold calls_with_waits.
      by rewrite bind_app, app_assoc.
    + exists (pair (batch_at work i) <$> rs), [EvStop (ec + Z.of_nat i)%Z].
      split; [done|]. right. by eexists.
Qed.

Lemma calls_with_waits_lookup wait (cs : list (list Doc * upsert_result))
    tail i b r :
  (tail = [] \/ exists n, tail = [EvStop n]) ->
  (calls_with_waits wait cs ++ tail) !! i = Some (EvUpsert b r) ->
  (calls_with_waits wait cs ++ tail) !! S i = Some (EvSleep (wait r)).
Proof.
  intros Htail. revert i. induction cs as [|c cs IH]; intros i.
  - simpl. destruct Htail as [->|[n ->]]; [done|].
    destruct i as [|i]; [done|]. by destruct i.
  - destruct i as [|[|i]]; simpl.
    + intros [= <- <-]. done.
    + done.
    + apply IH.
Qed.

(** X2. [main] of [import_to_vectordb.py] pauses after every commit call,
    the last one included: [DELAY_SECONDS] after an accepted batch, the
    hinted time plus 5 or else 65 seconds after a refused one. *)
Theorem main_pauses_after_every_call
    (documents : list Doc) (s : Store) (i : nat) (b : list Doc)
    (r : upsert_result) :
  let tr := trace (main documents s) in
  tr !! i = Some (EvUpsert b r) ->
  tr !! S i
  = Some (EvSleep (match r with
                   | Committed => DELAY_SECONDS
                   | Failed error_msg => wait_time retry_hint 65 error_msg
                   end)).
Proof.
  unfold Ingest.main.
  destruct (_ && _); [done|].
  destruct (add_batches_waits
              (py_range (length (remaining_docs documents
                                   (default 0%Z (count s)))) BATCH_SIZE)
              (remaining_docs documents (default 0%Z (count s)))
              (default 0%Z (count s)) s) as (cs & tail & Htr & Htail).
  cbv zeta. rewrite Htr.
  by apply (calls_with_waits_lookup (fun r => pause r)).
Qed.

(** How a trace ends: on an accepted commit call or on the stop line. *)
Local Abbreviation ends_well tr :=
  ((exists b, last tr = Some (EvUpsert b Committed))
   \/ (exists n, last tr = Some (@EvStop Doc n))).

Lemma commit_batch_end R (b : list Doc) more bn sc s :
  0 < R ->
  let o := commit_batch R b more bn sc s in
  (exists sc' pre,
     value o = Next sc' /\
     trace o = pre ++ EvUpsert b Committed
                        :: (if more then [EvSleep DELAY_SECONDS] else []))
  \/ (exists v pre, value o = Return v /\ trace o = pre ++ [EvStop bn]).
Proof.
  revert s. induction R as [|R IH]; intros s HR; [lia|].
  simpl. unfold bind, call_upsert.
  destruct (upsert b s) as [[|msg] s'] eqn:Hup; simpl.
  - left. exists (sc + length b), []. by destruct more.
  - destruct R as [|R'].
    + right. by exists sc, [EvUpsert b (Failed msg)].
    + destruct (IH s' ltac:(lia))
        as [(sc' & pre & Hv & Htr)|(v & pre & Hv & Htr)].
      * left.
        exists sc', (EvUpsert b (Failed msg)
                       :: EvSleep (wait_time retry_hint 10 msg) :: pre).
        simpl in *. by rewrite Hv, Htr.
      * right.
        exists v, (EvUpsert b (Failed msg)
                     :: EvSleep (wait_time retry_hint 10 msg) :: pre).
        simpl in *. by rewrite Hv, Htr.
Qed.

Lemma import_batches_end indices work ec sc s :
  0 < MAX_RETRIES ->
  indices <> [] ->
  (forall i, last indices = Some i -> length work <= i + BATCH_SIZE) ->
  ends_well (trace (import_batches indices work ec sc s)).
Proof.
  intros HR. revert sc s.
  induction indices as [|i indices IH]; intros sc s Hne Hlast; [done|].
  rewrite import_batches_cons. cbv zeta.
  destruct (commit_batch_end MAX_RETRIES (batch_at work i)
              (i + BATCH_SIZE <? length work)
              ((ec + Z.of_nat i) / Z.of_nat BATCH_SIZE + 1)%Z sc s HR)
    as [(sc' & pre & Hv & Htr)|(v & pre & Hv & Htr)];
    rewrite Hv; simpl; rewrite Htr.
  - destruct indices as [|i' indices].
    + simpl. rewrite app_nil_r.
      rewrite (proj2 (Nat.ltb_ge _ _)) by (by apply Hlast).
      left. exists (batch_at work i). by rewrite last_snoc.
    + destruct (IH sc' (store (commit_batch MAX_RETRIES (batch_at work i)
                  (i + BATCH_SIZE <? length work)
                  ((ec + Z.of_nat i) / Z.of_nat BATCH_SIZE + 1)%Z sc s)))
        as [[b Hb]|[n Hn]]; [done|done| |].
      * left. exists b. by rewrite last_app, Hb.
      * right. exists n. by rewrite last_app, Hn.
  - right. exists ((ec + Z.of_nat i) / Z.of_nat BATCH_SIZE + 1)%Z.
    by rewrite app_nil_r, last_snoc.
Qed.

Lemma import_batches_no_attempt indices work ec sc s :
  MAX_RETRIES = 0 -> trace (import_batches indices work ec sc s) = [].
Proof.
  intros HR. revert sc s. induction indices as [|i indices IH]; intros sc s;
    [done|].
  rewrite import_batches_cons. cbv zeta. rewrite HR. simpl.
  rewrite <- HR. apply IH.
Qed.

Lemma py_range_last stop step i :
  0 < step -> last (py_range stop step) = Some i -> stop <= i + step.
Proof.
  intros Hstep. unfold py_range. rewrite fmap_last.
  rewrite last_lookup, length_seq.
  destruct (seq 0 (range_length stop step) !! _) as [j|] eqn:Hj; [|done].
  apply lookup_seq in Hj as [-> Hj]. simpl. intros [= <-].
  pose proof (range_length_upper stop step Hstep).
  destruct (range_length stop step); simpl in *; lia.
Qed.

(** X3. A run of [import_to_qdrant_with_langchain] never ends on a pause
    or on a refused call: it makes no effect at all, or its last effect is
    an accepted commit call, or the stop line. *)
Theorem qdrant_run_ends_on_a_commit_or_a_stop
    (documents : list Doc) (existing_count : Z) (s : Store) :
  0 < BATCH_SIZE ->
  let tr := trace (import_to_qdrant_with_langchain documents
                     existing_count s) in
  tr = []
  \/ (exists b, last tr = Some (EvUpsert b Committed))
  \/ (exists n, last tr = Some (EvStop n)).
Proof.
  intros HB. unfold Ingest.import_to_qdrant_with_langchain.
  destruct (_ <=? _)%Z; [by left|]. cbv zeta.
  destruct (decide (MAX_RETRIES = 0)) as [HR|HR].
  { left. by apply import_batches_no_attempt. }
  set (work := remaining_docs documents existing_count).
  destruct (decide (py_range (length work) BATCH_SIZE = [])) as [Hnil|Hne].
  { left. by rewrite Hnil. }
  right. apply import_batches_end; [lia|done|].
  intros i. by apply py_range_last.
Qed.

Lemma committed_app (tr1 tr2 : list (event Doc)) :
  committed (tr1 ++ tr2) = committed tr1 ++ committed tr2.
Proof. unfold committed. by rewrite attempts_app, filter_app, fmap_app. Qed.

Lemma stopped_false_no_stop (tr : list (event Doc)) n :
  stopped tr = false -> EvStop n ∉ tr.
Proof.
  induction tr as [|[b r|t|m] tr IH]; simpl; intros Hst Hin.
  - by apply elem_of_nil in Hin.
  - apply elem_of_cons in Hin as [?|Hin]; [done|]. by apply IH.
  - apply elem_of_cons in Hin as [?|Hin]; [done|]. by apply IH.
  - done.
Qed.

Lemma committed_attempts (tr : list (event Doc)) k b :
  attempts tr = replicate k (b, false) ++ [(b, true)] -> committed tr = [b].
Proof.
  intros Ha. unfold committed.
  by rewrite Ha, filter_failed_attempts.
Qed.

Lemma committed_failed (tr : list (event Doc)) k b :
  attempts tr = replicate k (b, false) -> committed tr = [].
Proof.
  intros Ha. unfold committed. by rewrite Ha, filter_failed_only.
Qed.

Lemma slice_full {A : Type} (work : list A) i B :
  i + B <= length work -> length (slice work i (i + B)) = B.
Proof. intros Hle. rewrite slice_from, length_take, length_drop. lia. Qed.

(** The stop line of [main] carries [existing_count] plus the number of
    documents committed so far. *)
Lemma add_batches_stop m n work ec s x :
  (forall j, m <= j < m + n -> j * BATCH_SIZE < length work) ->
  let tr :=
    trace (add_batches ((fun j => j * BATCH_SIZE) <$> seq m n) work ec s) in
  EvStop x ∈ tr ->
  x = (ec + Z.of_nat (m * BATCH_SIZE + length (concat (committed tr))))%Z.
Proof.
  revert m s. induction n as [|n IH]; intros m s Hin; cbv zeta.
  - simpl. intros Hx. by apply elem_of_nil in Hx.
  - change (seq m (S n)) with (m :: seq (S m) n). rewrite fmap_cons.
    rewrite add_batches_cons. cbv zeta.
    set (o1 := add_batch _ _ _).
    destruct (add_batch_cases upsert retry_hint DELAY_SECONDS MAX_RETRIES
                (batch_at work (m * BATCH_SIZE)) s)
      as [Hs [(k & Hk & Hv & Ha)|(Hv & Ha)]]; fold o1 in Hs, Hv, Ha;
      rewrite Hv; simpl; rewrite committed_app, elem_of_app.
    + rewrite (committed_attempts _ _ _ Ha).
      intros [Hx|Hx]; [by apply stopped_false_no_stop in Hx|].
      destruct n as [|n]; [by apply elem_of_nil in Hx|].
      apply IH in Hx; [|intros j ?; apply Hin; lia].
      rewrite Hx. csimpl. rewrite length_app, slice_full; [lia|].
      specialize (Hin (S m) ltac:(lia)). simpl in Hin. lia.
    + rewrite (committed_failed _ _ _ Ha).
      intros [Hx|Hx]; [by apply stopped_false_no_stop in Hx|].
      apply list_elem_of_singleton in Hx as [= ->]. simpl. lia.
Qed.

Lemma commit_batch_stop R (b : list Doc) more bn sc s x :
  EvStop x ∈ trace (commit_batch R b more bn sc s) -> x = bn.
Proof.
  revert s. induction R as [|R IH]; intros s; simpl.
  - intros Hx. by apply elem_of_nil in Hx.
  - unfold bind, call_upsert.
    destruct (upsert b s) as [[|msg] s'] eqn:Hup; simpl.
    + destruct more; simpl; intros Hx;
        repeat (apply elem_of_cons in Hx as [?|Hx]; [done|]);
        by apply elem_of_nil in Hx.
    + destruct R as [|R']; simpl; intros Hx.
      * apply elem_of_cons in Hx as [?|Hx]; [done|].
        apply elem_of_cons in Hx as [[= ->]|Hx]; [done|].
        by apply elem_of_nil in Hx.
      * apply elem_of_cons in Hx as [?|Hx]; [done|].
        apply elem_of_cons in Hx as [?|Hx]; [done|].
        by apply (IH s').
Qed.

Lemma import_batches_stop m n work ec sc s x :
  0 < MAX_RETRIES ->
  (forall j, m <= j < m + n -> j * BATCH_SIZE < length work) ->
  let tr :=
    trace (import_batches ((fun j => j * BATCH_SIZE) <$> seq m n)
             work ec sc s) in
  EvStop x ∈ tr ->
  x = ((ec + Z.of_nat (m * BATCH_SIZE + length (concat (committed tr))))
       / Z.of_nat BATCH_SIZE + 1)%Z.
Proof.
  intros HR. revert m sc s. induction n as [|n IH]; intros m sc s Hin;
    cbv zeta.
  - simpl. intros Hx. by apply elem_of_nil in Hx.
  - change (seq m (S n)) with (m :: seq (S m) n). rewrite fmap_cons.
    rewrite import_batches_cons. cbv zeta.
    set (o1 := commit_batch _ _ _ _ _ _).
    destruct (commit_batch_cases upsert retry_hint DELAY_SECONDS MAX_RETRIES
                (batch_at work (m * BATCH_SIZE))
                (m * BATCH_SIZE + BATCH_SIZE <? length work)
                ((ec + Z.of_nat (m * BATCH_SIZE)) / Z.of_nat BATCH_SIZE + 1)%Z
                sc s HR)
      as [(k & Hk & Hv & Ha & Hs)|(Hv & Ha & Hs)]; fold o1 in Hv, Ha, Hs;
      rewrite Hv; simpl; rewrite committed_app, elem_of_app.
    + rewrite (committed_attempts _ _ _ Ha).
      intros [Hx|Hx]; [by apply stopped_false_no_stop in Hx|].
      destruct n as [|n]; [by apply elem_of_nil in Hx|].
      apply IH in Hx; [|intros j ?; apply Hin; lia].
      rewrite Hx. csimpl. rewrite length_app, slice_full.
      * do 3 f_equal. lia.
      * specialize (Hin (S m) ltac:(lia)). simpl in Hin. lia.
    + rewrite (committed_failed _ _ _ Ha).
      intros [Hx|Hx]; [|by apply elem_of_nil in Hx].
      apply commit_batch_stop in Hx. rewrite Hx. simpl.
      do 3 f_equal. lia.
Qed.

Lemma py_range_indices stop step j :
  0 < step -> 0 <= j < 0 + range_length stop step -> j * step < stop.
Proof. intros Hstep [_ Hj]. by apply range_length_lower. Qed.

(** X4. The stop line names the place to resume from. When [main] gives
    up, the chunk index it logs is [existing_count] plus the number of
    documents the run committed; the batch number that
    [import_to_qdrant_with_langchain] logs is that sum divided by
    [BATCH_SIZE], plus one. *)
Theorem stop_line_is_the_resume_point
    (documents : list Doc) (existing_count : Z) (s : Store) (n : Z) :
  0 < BATCH_SIZE ->
  0 < MAX_RETRIES ->
  let done_by tr := Z.of_nat (length (concat (committed tr))) in
  (default 0%Z (count s) = existing_count ->
   let tr := trace (main documents s) in
   EvStop n ∈ tr -> n = (existing_count + done_by tr)%Z) /\
  (let tr := trace (import_to_qdrant_with_langchain documents
                      existing_count s) in
   EvStop n ∈ tr ->
   n = ((existing_count + done_by tr) / Z.of_nat BATCH_SIZE + 1)%Z).
Proof.
  intros HB HR done_by. split.
  - intros Hec. unfold Ingest.main. rewrite Hec.
    destruct (_ && _); cbv zeta.
    { intros Hx. by apply elem_of_nil in Hx. }
    intros Hx. unfold py_range in Hx |- *.
    apply add_batches_stop in Hx; [|intros j; by apply py_range_indices].
    rewrite Hx. unfold done_by. do 2 f_equal. 
  - unfold Ingest.import_to_qdrant_with_langchain.
    destruct (_ <=? _)%Z; cbv zeta.
    { intros Hx. by apply elem_of_nil in Hx. }
    intros Hx. unfold py_range in Hx |- *.
    apply import_batches_stop in Hx;
      [|done|intros j; by apply py_range_indices].
    rewrite Hx. unfold done_by. do 4 f_equal.
Qed.

End Runs.

(** ** A second run on a store that accepts everything *)

Section AcceptingStore.
Context {Doc Store : Type}.
Variable upsert : list Doc -> Store -> upsert_result * Store.
Variable retry_hint : string -> option Q.
Variable BATCH_SIZE : nat.
Variable DELAY_SECONDS : Q.
Variable MAX_RETRIES : nat.
Variable count : Store -> option Z.

Local Abbreviation commit_batch :=
  (commit_batch upsert retry_hint DELAY_SECONDS).
Local Abbreviation import_batches :=
  (import_batches upsert retry_hint BATCH_SIZE DELAY_SECONDS MAX_RETRIES).
Local Abbreviation import_to_qdrant_with_langchain :=
  (import_to_qdrant_with_langchain upsert retry_hint BATCH_SIZE
     DELAY_SECONDS MAX_RETRIES).
Local Abbreviation add_batch := (add_batch upsert retry_hint DELAY_SECONDS).
Local Abbreviation add_batches :=
  (add_batches upsert retry_hint BATCH_SIZE DELAY_SECONDS MAX_RETRIES).
Local Abbreviation main :=
  (main upsert retry_hint BATCH_SIZE DELAY_SECONDS MAX_RETRIES count).
Local Abbreviation run_from :=
  (run_from upsert retry_hint BATCH_SIZE DELAY_SECONDS MAX_RETRIES count).
Local Abbreviation batch_at work :=
  (fun i => slice work i (i + BATCH_SIZE)).
Local Abbreviation import_batches_cons :=
  (import_batches_cons upsert retry_hint BATCH_SIZE DELAY_SECONDS MAX_RETRIES).
Local Abbreviation add_batches_cons :=
  (add_batches_cons upsert retry_hint BATCH_SIZE DELAY_SECONDS MAX_RETRIES).

(** The pause [main] makes after a commit call. *)

(** A store that accepts every batch and counts what it holds. *)
Hypothesis upsert_accepts : forall b s, fst (upsert b s) = Committed.
Hypothesis count_adds :
  forall b s c,
    count s = Some c ->
    count (snd (upsert b s)) = Some (c + Z.of_nat (length b))%Z.

Lemma add_batch_accepted R (b : list Doc) s :
  0 < R ->
  add_batch R b s
  = Outcome true [EvUpsert b Committed; EvSleep DELAY_SECONDS]
      (snd (upsert b s)).
Proof.
  intros HR. destruct R as [|R]; [lia|].
  simpl. unfold bind, call_upsert.
  pose proof (upsert_accepts b s) as Hacc.
  destruct (upsert b s) as [r s']. simpl in Hacc. by rewrite Hacc.
Qed.

Lemma add_batches_accepted indices work ec s c :
  0 < MAX_RETRIES ->
  count s = Some c ->
  let o := add_batches indices work ec s in
  count (store o)
  = Some (c + Z.of_nat (length (concat (batch_at work <$> indices))))%Z.
Proof.
  intros HR. revert s c. induction indices as [|i indices IH]; intros s c Hc.
  - simpl. rewrite Hc. f_equal. lia.
  - rewrite add_batches_cons. cbv zeta.
    rewrite add_batch_accepted by done. simpl.
    erewrite IH by (by apply count_adds).
    rewrite length_app. unfold fmap. f_equal. lia.
Qed.

(** X5. On a store that accepts every batch and counts its documents, a
    run of [main] leaves the count at [len(documents)] (or where it was,
    if it was beyond), and a second run of [main] does nothing. *)
Theorem main_twice_is_main_once
    (documents : list Doc) (k : nat) (s : Store) :
  0 < BATCH_SIZE ->
  0 < MAX_RETRIES ->
  count s = Some (Z.of_nat k) ->
  let o := main documents s in
  count (store o) = Some (Z.of_nat (k `max` length documents)) /\
  main documents (store o) = Outcome tt [] (store o).
Proof.
  intros HB HR Hk o.
  assert (Hcount : count (store o)
                   = Some (Z.of_nat (k `max` length documents))).
  { unfold o, Ingest.main. rewrite Hk. simpl.
    destruct (Z.ltb_spec 0 (Z.of_nat k)) as [Hpos|Hzero]; simpl.
    - destruct (Z.leb_spec (Z.of_nat (length documents)) (Z.of_nat k))
        as [Hle|Hlt]; simpl.
      + rewrite Hk. f_equal. lia.
      + erewrite add_batches_accepted by done.
        fold (batches_of BATCH_SIZE (remaining_docs documents (Z.of_nat k))).
        rewrite batches_of_concat, remaining_docs_of_nat, length_drop by done.
        f_equal. lia.
    - erewrite add_batches_accepted by done.
      fold (batches_of BATCH_SIZE (remaining_docs documents (Z.of_nat k))).
      rewrite batches_of_concat, remaining_docs_of_nat, length_drop by done.
      f_equal. lia. }
  split; [done|].
  unfold Ingest.main at 1. rewrite Hcount. simpl.
  destruct (Z.ltb_spec 0 (Z.of_nat (k `max` length documents)))
    as [Hpos|Hzero]; simpl.
  - by rewrite (proj2 (Z.leb_le _ _)) by lia.
  - assert (length documents = 0) as Hnil by lia.
    apply nil_length_inv in Hnil. rewrite Hnil. unfold remaining_docs.
    destruct (0 <? _)%Z; [rewrite drop_nil|]; done.
Qed.

End AcceptingStore.

(** ** The properties of runs on the shipped configuration *)

(** X1 on the run that resumes after 4 of 25 documents, on a store that
    refuses two calls out of three: 3 batches, 9 calls. *)
Lemma commit_calls_are_bounded_witness :
  let tr :=
    trace (import_to_qdrant_with_langchain flaky_store read_hint
             QDRANT_BATCH_SIZE QDRANT_DELAY_SECONDS QDRANT_MAX_RETRIES
             (seq 0 25) 4 0) in
  length (batches_of QDRANT_BATCH_SIZE (drop 4 (seq 0 25))) = 3 /\
  (exists calls : list nat,
     submitted tr
     = concat (zip_with (fun b c => replicate c b)
                 (batches_of QDRANT_BATCH_SIZE (drop 4 (seq 0 25))) calls) /\
     Forall (fun c => 1 <= c <= QDRANT_MAX_RETRIES) calls /\
     length calls <= 3 /\
     (stopped tr = false -> length calls = 3)) /\
  length (attempts tr) <= 9 /\
  (stopped tr = false -> 3 <= length (attempts tr)).
Proof.
  refine (commit_calls_are_bounded flaky_store read_hint QDRANT_BATCH_SIZE
    QDRANT_DELAY_SECONDS QDRANT_MAX_RETRIES (fun _ => None) (seq 0 25) 4 0
    _ _ _ _).
  - unfold QDRANT_BATCH_SIZE. lia.
  - unfold QDRANT_MAX_RETRIES. lia.
  - left. reflexivity.
Defined.

(** X2 on a store whose quota is used up by the first batch: the refused
    call is followed by a pause of 30 + 5 seconds. *)
Lemma main_pauses_after_every_call_witness :
  let tr :=
    trace (main (quota_store 1) read_hint CHROMA_BATCH_SIZE
             CHROMA_DELAY_SECONDS CHROMA_MAX_RETRIES (fun _ => None)
             (seq 0 12) 0) in
  tr !! 2
  = Some (EvUpsert (seq 5 5) (Failed "429 quota exceeded, retry in 30s")) /\
  tr !! 3 = Some (EvSleep 35).
Proof.
  split; [reflexivity|].
  exact (main_pauses_after_every_call (quota_store 1) read_hint
    CHROMA_BATCH_SIZE CHROMA_DELAY_SECONDS CHROMA_MAX_RETRIES (fun _ => None)
    (seq 0 12) 0 2 (seq 5 5) (Failed "429 quota exceeded, retry in 30s")
    eq_refl).
Defined.

(** X3 on the same store: the run of the Qdrant importer ends on its stop
    line. *)
Lemma qdrant_run_ends_on_a_commit_or_a_stop_witness :
  let tr :=
    trace (import_to_qdrant_with_langchain (quota_store 1) read_hint
             QDRANT_BATCH_SIZE QDRANT_DELAY_SECONDS QDRANT_MAX_RETRIES
             (seq 0 25) 0 0) in
  0 < QDRANT_BATCH_SIZE /\
  (tr = []
   \/ (exists b, last tr = Some (EvUpsert b Committed))
   \/ (exists n, last tr = Some (EvStop n))).
Proof.
  assert (HB : 0 < QDRANT_BATCH_SIZE) by (unfold QDRANT_BATCH_SIZE; lia).
  split; [exact HB|].
  exact (qdrant_run_ends_on_a_commit_or_a_stop (quota_store 1) read_hint
    QDRANT_BATCH_SIZE QDRANT_DELAY_SECONDS QDRANT_MAX_RETRIES (seq 0 25) 0 0
    HB).
Defined.

(** X4 on the same store: [main] stops at chunk 5 of 12, having committed
    the first batch of 5. *)
Lemma stop_line_is_the_resume_point_witness :
  let tr :=
    trace (main (quota_store 1) read_hint CHROMA_BATCH_SIZE
             CHROMA_DELAY_SECONDS CHROMA_MAX_RETRIES (fun _ => None)
             (seq 0 12) 0) in
  EvStop 5 ∈ tr /\
  5%Z = (0 + Z.of_nat (length (concat (committed tr))))%Z.
Proof.
  assert (Hin : EvStop 5 ∈ trace
    (main (quota_store 1) read_hint CHROMA_BATCH_SIZE CHROMA_DELAY_SECONDS
       CHROMA_MAX_RETRIES (fun _ => None) (seq 0 12) 0)).
  { apply list_elem_of_lookup. exists 8. reflexivity. }
  split; [exact Hin|].
  refine (proj1 (stop_line_is_the_resume_point (quota_store 1) read_hint
    CHROMA_BATCH_SIZE CHROMA_DELAY_SECONDS CHROMA_MAX_RETRIES (fun _ => None)
    (seq 0 12) 0 0 5 _ _) eq_refl Hin).
  - unfold CHROMA_BATCH_SIZE. lia.
  - unfold CHROMA_MAX_RETRIES. lia.
Defined.

(** X5 on the store that accepts everything, holding 5 of 12 documents:
    after [main] it counts 12, and a second [main] makes no call. *)
Lemma main_twice_is_main_once_witness :
  let o :=
    main accepting_store read_hint CHROMA_BATCH_SIZE CHROMA_DELAY_SECONDS
      CHROMA_MAX_RETRIES accepting_count (seq 0 12) (seq 0 5) in
  accepting_count (store o) = Some 12%Z /\
  main accepting_store read_hint CHROMA_BATCH_SIZE CHROMA_DELAY_SECONDS
    CHROMA_MAX_RETRIES accepting_count (seq 0 12) (store o)
  = Outcome tt [] (store o).
Proof.
  refine (main_twice_is_main_once accepting_store read_hint
    CHROMA_BATCH_SIZE CHROMA_DELAY_SECONDS CHROMA_MAX_RETRIES accepting_count
    _ _ (seq 0 12) 5 (seq 0 5) _ _ _).
  - reflexivity.
  - intros b s c [= <-]. unfold accepting_count, accepting_store. simpl.
    rewrite length_app. f_equal. lia.
  - unfold CHROMA_BATCH_SIZE. lia.
  - unfold CHROMA_MAX_RETRIES. lia.
  - reflexivity.
Defined.

(** ** The recommendations of the food service *)

Import FoodService.

Section ServiceProperties.
Variable _fetch_from_foody : string -> Z -> option (list restaurant).
Variable _fetch_from_search_engines : string -> Z -> option (list restaurant).
Variable _crawl_foody_detail : restaurant -> restaurant.
Variable lower : string -> string.
Variable strip : string -> string.

Local Abbreviation _deduplicate_and_rank :=
  (_deduplicate_and_rank lower strip).

Lemma slice_to_sublist {A : Type} (l : list A) n : slice_to l n `sublist_of` l.
Proof. unfold slice_to. destruct (_ <=? _)%Z; apply sublist_take. Qed.

Lemma slice_to_length {A : Type} (l : list A) n :
  (0 <= n)%Z -> (Z.of_nat (length (slice_to l n)) <= n)%Z.
Proof.
  intros Hn. unfold slice_to. rewrite (proj2 (Z.leb_le _ _)) by done.
  rewrite length_take. lia.
Qed.

(** X6. [get_food_recommendations] returns at most [limit] records, each
    with a non-empty name. They are records of the deduplicated ranking of
    what the fetchers found, in the order of that ranking, those from
    Foody as [_crawl_foody_detail] returned them and the others
    unchanged. *)
Theorem recommendations_are_ranked_named_and_limited
    (location_name : string) (limit : Z) :
  (0 <= limit)%Z ->
  let found :=
    default [] (_fetch_from_foody location_name limit)
    ++ default [] (_fetch_from_search_engines location_name limit) in
  let out :=
    get_food_recommendations _fetch_from_foody _fetch_from_search_engines
      _crawl_foody_detail lower strip location_name limit in
  (Z.of_nat (length out) <= limit)%Z /\
  Forall (fun r => Food.name r <> "") out /\
  out `sublist_of`
    ((fun r => if decide (source r = "foody") then _crawl_foody_detail r
               else r) <$> _deduplicate_and_rank found).
Proof.
  intros Hlimit found out. split; [by apply slice_to_length|].
  unfold out, get_food_recommendations, _enrich_with_details.
  cbv zeta.
  assert (Hall : concat (omap id [_fetch_from_foody location_name limit;
                   _fetch_from_search_engines location_name limit]) = found).
  { unfold found. csimpl.
    destruct (_fetch_from_foody _ _), (_fetch_from_search_engines _ _);
      csimpl; by rewrite ?app_nil_r. }
  rewrite Hall. split.
  - apply Forall_forall. intros r Hr.
    eapply elem_of_sublist in Hr; [|apply slice_to_sublist].
    by apply list_elem_of_filter in Hr as [Hr _].
  - etrans; [apply slice_to_sublist|].
    etrans; [apply sublist_filter|].
    apply fmap_sublist. unfold _return_as_is.
    apply slice_to_sublist.
Qed.

End ServiceProperties.

(** X6 on a search for one restaurant: Foody yields one record with a
    name and one without, the other fetcher raises. The names are in
    lower case with no space around them, so [str.lower] and [str.strip]
    return them as they are. *)
Lemma recommendations_are_ranked_named_and_limited_witness :
  let pho := Restaurant "pho thin" "u1" "13 Lo Duc" None 0 "foody" 50 in
  let nameless := Restaurant "" "u2" "" None 0 "foody" 50 in
  let out :=
    get_food_recommendations (fun _ _ => Some [pho; nameless])
      (fun _ _ => None) (fun r => r) (fun s => s) (fun s => s)
      "Ho Guom" 1 in
  (0 <= 1)%Z /\
  (Z.of_nat (length out) <= 1)%Z /\
  Forall (fun r => Food.name r <> "") out /\
  out `sublist_of`
    ((fun r => if decide (source r = "foody") then r else r)
       <$> _deduplicate_and_rank (fun s => s) (fun s => s)
             ([pho; nameless] ++ [])).
Proof.
  split; [lia|].
  refine (recommendations_are_ranked_named_and_limited
    (fun _ _ => Some [_; _]) (fun _ _ => None) (fun r => r)
    (fun s => s) (fun s => s) "Ho Guom" 1 _).
  lia.
Defined.

(** ** The order of the POIs and a second pass *)

Section UniquePoisOrder.
Implicit Types (p q v : OSM.poi) (k : Z) (d : list (Z * OSM.poi)).
Implicit Types (all_pois : list OSM.poi).

Lemma dict_by_osm_id_key all_pois k :
  k ∈ (dict_by_osm_id all_pois).*1 <-> k ∈ OSM.osm_id <$> all_pois.
Proof.
  induction all_pois as [|p all_pois IH] using rev_ind.
  - done.
  - rewrite dict_by_osm_id_snoc, dict_set_keys, fmap_app, elem_of_app.
    rewrite <- IH. csimpl. rewrite list_elem_of_singleton.
    destruct (decide _) as [Hin|Hout].
    + split; [by left|]. by intros [?| ->].
    + by rewrite elem_of_app, list_elem_of_singleton.
Qed.

(** A list without two POIs of one id is its own dictionary. *)
Lemma dict_by_osm_id_fixed all_pois :
  NoDup (OSM.osm_id <$> all_pois) ->
  dict_by_osm_id all_pois = (fun p => (OSM.osm_id p, p)) <$> all_pois.
Proof.
  induction all_pois as [|p all_pois IH] using rev_ind; [done|].
  rewrite fmap_app. intros [Hnd [Hp _]]%NoDup_app.
  rewrite dict_by_osm_id_snoc, IH, fmap_app by done. csimpl.
  assert (Hout : OSM.osm_id p ∉ OSM.osm_id <$> all_pois).
  { intros Hin. apply (Hp _ Hin). left. }
  clear -Hout. induction all_pois as [|q all_pois IH]; [done|].
  csimpl. apply not_elem_of_cons in Hout as [Hne Hout].
  rewrite decide_False by done. by rewrite IH.
Qed.

Lemma unique_pois_fixed all_pois :
  NoDup (OSM.osm_id <$> all_pois) -> unique_pois all_pois = all_pois.
Proof.
  intros Hnd. unfold unique_pois. rewrite dict_by_osm_id_fixed by done.
  rewrite <- list_fmap_compose. by rewrite list_fmap_id.
Qed.

(** X8. Removing duplicates twice is removing them once, and a list
    that has no two POIs of one OSM id comes back as it is, in its
    order. *)
Theorem unique_pois_is_idempotent all_pois :
  unique_pois (unique_pois all_pois) = unique_pois all_pois /\
  (NoDup (OSM.osm_id <$> all_pois) -> unique_pois all_pois = all_pois).
Proof.
  split; [|apply unique_pois_fixed].
  apply unique_pois_fixed. rewrite dict_by_osm_id_keys.
  apply dict_by_osm_id_spec.
Qed.

(** X9. The POIs come in the order in which their ids were first met:
    what is fetched later never moves an id that is there already, and
    the ids it brings are put after, in the order of their own first
    occurrence. *)
Theorem unique_pois_keeps_first_seen_order all_pois more :
  OSM.osm_id <$> unique_pois (all_pois ++ more)
  = (OSM.osm_id <$> unique_pois all_pois)
    ++ filter (fun k => k ∉ OSM.osm_id <$> all_pois)
         (OSM.osm_id <$> unique_pois more).
Proof.
  rewrite !dict_by_osm_id_keys.
  induction more as [|p more IH] using rev_ind.
  - by rewrite !app_nil_r.
  - rewrite app_assoc, !dict_by_osm_id_snoc, !dict_set_keys, IH.
    destruct (decide (OSM.osm_id p ∈ OSM.osm_id <$> all_pois)) as [Hold|Hnew].
    + rewrite decide_True
        by (apply elem_of_app; left; by apply dict_by_osm_id_key).
      destruct (decide (OSM.osm_id p ∈ (dict_by_osm_id more).*1)); [done|].
      rewrite filter_app, filter_cons_False, filter_nil, app_nil_r; [done|].
      by intros Hn.
    + destruct (decide (OSM.osm_id p ∈ (dict_by_osm_id more).*1))
        as [Hin|Hout].
      * rewrite decide_True; [done|].
        apply elem_of_app. right. by apply list_elem_of_filter.
      * rewrite decide_False.
        -- rewrite filter_app, filter_cons_True, filter_nil by done.
           by rewrite app_assoc.
        -- rewrite elem_of_app, list_elem_of_filter, dict_by_osm_id_key.
           intros [?|[_ ?]]; done.
Qed.

End UniquePoisOrder.

(** ** Overpass elements *)

Section OverpassProperties.
Import Py Overpass.

Lemma part_spec tags key :
  part tags key = if truthy (tags !! key) then [default "" (tags !! key)]
                  else [].
Proof. unfold part, truthy. destruct (tags !! key) as [v|]; [|done].
  simpl. by destruct (String.eqb v ""). Qed.

Lemma part_nil tags key : part tags key = [] <-> truthy (tags !! key) = false.
Proof. rewrite part_spec. by destruct (truthy _). Qed.

Lemma part_nonempty tags key v : v ∈ part tags key -> v <> "".
Proof.
  unfold part. destruct (tags !! key) as [w|]; [|by intros ?%elem_of_nil].
  destruct (String.eqb_spec w ""); [by intros ?%elem_of_nil|].
  by intros ->%list_elem_of_singleton.
Qed.

Lemma string_app_assoc (s1 s2 s3 : string) :
  ((s1 ++ s2) ++ s3 = s1 ++ s2 ++ s3)%string.
Proof.
  induction s1 as [|c s1 IH]; [done|].
  change (String c ((s1 ++ s2) ++ s3) = String c (s1 ++ s2 ++ s3))%string.
  by f_equal.
Qed.

Lemma string_app_nil_r (s : string) : (s ++ "" = s)%string.
Proof.
  induction s as [|c s IH]; [done|].
  change (String c (s ++ "") = String c s)%string. by f_equal.
Qed.

Lemma concat_cons_cons sep (x y : string) l :
  String.concat sep (x :: y :: l)
  = (x ++ sep ++ String.concat sep (y :: l))%string.
Proof. done. Qed.

Lemma concat_has sep (l : list string) v :
  v ∈ l -> exists pre post, String.concat sep l = (pre ++ v ++ post)%string.
Proof.
  induction l as [|x l IH]; [by intros ?%elem_of_nil|].
  intros [->|Hin]%elem_of_cons.
  - exists "". destruct l as [|y l].
    + exists "". simpl. by rewrite string_app_nil_r.
    + exists (sep ++ String.concat sep (y :: l))%string. done.
  - destruct (IH Hin) as (pre & post & Heq).
    destruct l as [|y l]; [by apply elem_of_nil in Hin|].
    exists (x ++ sep ++ pre)%string, post.
    rewrite concat_cons_cons, Heq.
    by rewrite !string_app_assoc.
Qed.

Lemma concat_empty sep (x : string) l :
  x <> "" -> String.concat sep (x :: l) <> "".
Proof.
  intros Hx. destruct l as [|y l]; [done|].
  rewrite concat_cons_cons. by destruct x.
Qed.

(** X10. The address that [_build_address] makes is empty exactly when
    none of the four address tags has a non-empty value; a tag that has
    one is found in the address as it is. *)
Theorem address_holds_every_address_tag (tags : gmap string string) :
  let keys :=
    ["addr:housenumber"; "addr:street"; "addr:district"; "addr:city"] in
  (_build_address tags = ""
   <-> forall key, key ∈ keys -> truthy (tags !! key) = false) /\
  (forall key v,
     key ∈ keys -> tags !! key = Some v -> v <> "" ->
     exists pre post, _build_address tags = pre +:+ v +:+ post).
Proof.
  intros keys. unfold _build_address. cbv zeta.
  set (parts := part tags "addr:housenumber" ++ part tags "addr:street"
                ++ part tags "addr:district" ++ part tags "addr:city").
  assert (Hparts : forall v, v ∈ parts <->
            exists key, key ∈ keys /\ v ∈ part tags key).
  { intros v. unfold parts, keys. rewrite !elem_of_app. split.
    - intros [?|[?|[?|?]]]; eexists; (split; [|done]);
        rewrite !elem_of_cons; auto.
    - intros (key & Hkey & Hv). rewrite !elem_of_cons in Hkey.
      destruct Hkey as [->|[->|[->|[->|Hkey]]]]; auto.
      by apply elem_of_nil in Hkey. }
  assert (Heq : match parts with [] => "" | _ => String.concat ", " parts end
                = String.concat ", " parts) by by destruct parts.
  rewrite Heq. clear Heq. split.
  - split.
    + intros Hempty key Hkey. apply part_nil.
      destruct (part tags key) as [|v l] eqn:Hpart; [done|]. exfalso.
      assert (Hv : v ∈ parts).
      { apply Hparts. exists key. split; [done|]. rewrite Hpart. left. }
      destruct parts as [|x parts']; [by apply elem_of_nil in Hv|].
      apply (concat_empty ", " x parts'); [|done].
      assert (Hx : x ∈ x :: parts') by left.
      apply Hparts in Hx as (key' & _ & Hx). by eapply part_nonempty.
    + intros Hnone. destruct parts as [|x parts']; [done|]. exfalso.
      assert (Hx : x ∈ x :: parts') by left.
      apply Hparts in Hx as (key & Hkey & Hx).
      apply Hnone, part_nil in Hkey. rewrite Hkey in Hx.
      by apply elem_of_nil in Hx.
  - intros key v Hkey Hvalue Hne. apply concat_has, Hparts.
    exists key. split; [done|]. unfold part. rewrite Hvalue.
    destruct (String.eqb_spec v ""); [done|]. left.
Qed.

End OverpassProperties.

Section ParseProperties.
Import Py Overpass.

Lemma or_str_nonempty a b : b <> "" -> or_str a b <> "".
Proof.
  intros Hb. unfold or_str. destruct a as [s|]; [|done].
  by destruct (String.eqb_spec s "").
Qed.

Lemma or_str_truthy a b : truthy a = true -> Some (or_str a b) = a.
Proof.
  unfold truthy, or_str. destruct a as [s|]; [|done].
  by destruct (String.eqb s "").
Qed.

Lemma or_truthy_l a b : truthy a = true -> or_ a b = a.
Proof. unfold or_. by intros ->. Qed.

Lemma truthy_or a b : truthy (or_ a b) = truthy a || truthy b.
Proof. unfold or_. by destruct (truthy a) eqn:Ha. Qed.

Lemma coordinates_located el :
  (exists xy, coordinates el = Val xy) <-> located el.
Proof.
  unfold coordinates, located, getitem.
  destruct (el_lat el) as [x|], (el_lon el) as [y|].
  { split; [intros _; left; by eauto|intros _; by eexists]. }
  all: destruct (el_center el) as [center|];
    [|split; [intros _; by right|intros _; by eexists]].
  all: destruct (center !! "lat") as [cx|], (center !! "lon") as [cy|];
    simpl.
  all: split;
    [intros [xy Hxy]; try done; right; by eauto
    |intros [[[? ?] [? ?]]|[[? ?] [? ?]]]; try done; by eexists].
Qed.

Lemma coordinates_own el x y :
  el_lat el = Some x -> el_lon el = Some y ->
  coordinates el = Val (Some x, Some y).
Proof. unfold coordinates. by intros -> ->. Qed.

Lemma parse_element_fields el category p :
  _parse_element el category = Val p ->
  let tags := default ∅ (el_tags el) in
  coordinates el = Val (lat (location_ p), lon (location_ p)) /\
  el_id el = Some (osm_id p) /\
  el_type el = Some (osm_type p) /\
  Overpass.category p = category /\
  Overpass.name p
  = or_str (or_ (or_ (tags !! "name:vi") (tags !! "name"))
              (tags !! "name:en")) "Unknown".
Proof.
  intros Hp. cbv zeta. unfold _parse_element in Hp.
  destruct (coordinates el) as [[la lo]|e]; [|done]. simpl in Hp.
  destruct (el_id el) as [id|], (el_type el) as [type|]; try done.
  by injection Hp as <-.
Qed.

Lemma parse_element_succeeds el category :
  (exists p, _parse_element el category = Val p)
  <-> is_Some (el_id el) /\ is_Some (el_type el) /\ located el.
Proof.
  rewrite <- coordinates_located. split.
  - intros [p Hp].
    destruct (parse_element_fields el category p Hp)
      as (Hxy & Hid & Hty & _).
    rewrite Hid, Hty. by eauto.
  - intros ([id Hid] & [type Hty] & [[la lo] Hxy]).
    unfold _parse_element. rewrite Hxy, Hid, Hty. simpl. by eexists.
Qed.

(** X11. [_parse_element] returns a POI exactly when the element has an
    [id], a [type] and coordinates that can be read, and raises [KeyError]
    otherwise: for [lat] or [lon] when the element has not both and its
    center lacks one, else for [id], else for [type]. The POI has the id and type of the element and the
    category asked for; its name is never empty: it is the Vietnamese name
    when there is one, and [Unknown] when the element has none of the
    three name tags; the coordinates of the element itself go before those
    of its center. *)
Theorem parsed_element_is_identified_and_named
    (el : element) (category : string) :
  let tags := default ∅ (el_tags el) in
  ((exists p, _parse_element el category = Val p)
   <-> is_Some (el_id el) /\ is_Some (el_type el) /\ located el) /\
  (forall p,
     _parse_element el category = Val p ->
     el_id el = Some (osm_id p) /\
     el_type el = Some (osm_type p) /\
     Overpass.category p = category /\
     Overpass.name p <> "" /\
     (truthy (tags !! "name:vi") = true ->
      Some (Overpass.name p) = tags !! "name:vi") /\
     (truthy (tags !! "name:vi") = false ->
      truthy (tags !! "name") = false ->
      truthy (tags !! "name:en") = false ->
      Overpass.name p = "Unknown") /\
     (forall x y,
        el_lat el = Some x -> el_lon el = Some y ->
        lat (location_ p) = Some x /\ lon (location_ p) = Some y)) /\
  (forall e,
     _parse_element el category = Raise e ->
     exists key, e = KeyError key /\ key ∈ ["lat"; "lon"; "id"; "type"]) /\
  (forall center,
     ~ (is_Some (el_lat el) /\ is_Some (el_lon el)) ->
     el_center el = Some center ->
     (center !! "lat" = None ->
      _parse_element el category = Raise (KeyError "lat")) /\
     (is_Some (center !! "lat") -> center !! "lon" = None ->
      _parse_element el category = Raise (KeyError "lon"))) /\
  (located el -> el_id el = None ->
   _parse_element el category = Raise (KeyError "id")) /\
  (located el -> is_Some (el_id el) -> el_type el = None ->
   _parse_element el category = Raise (KeyError "type")).
Proof.
  intros tags. split; [apply parse_element_succeeds|].
  split; [|split; [|split; [|split]]].
  - intros p Hp.
    destruct (parse_element_fields el category p Hp)
      as (Hxy & Hid & Hty & Hcat & Hname). fold tags in Hname.
    split; [done|]. split; [done|]. split; [done|].
    split; [|split; [|split]].
    + rewrite Hname. by apply or_str_nonempty.
    + intros Hvi. rewrite Hname.
      rewrite (or_truthy_l (tags !! "name:vi")) by done.
      rewrite or_truthy_l by done. by apply or_str_truthy.
    + intros Hvi Hnm Hen. rewrite Hname. unfold or_ at 2.
      rewrite Hvi. unfold or_. rewrite Hnm. unfold truthy in Hen.
      unfold or_str. destruct (tags !! "name:en") as [s|]; [|done].
      by destruct (String.eqb s "").
    + intros x y Hx Hy. rewrite (coordinates_own el x y Hx Hy) in Hxy.
      by injection Hxy as <- <-.
  - intros e. unfold _parse_element, coordinates, getitem.
    destruct (el_lat el), (el_lon el), (el_center el) as [center|]; simpl;
      try destruct (center !! "lat"); simpl;
      try destruct (center !! "lon"); simpl;
      destruct (el_id el), (el_type el); intros [= <-]; eexists;
      (split; [done|]); set_solver.
  - intros center Hown Hcenter.
    unfold _parse_element, coordinates, getitem. rewrite Hcenter.
    split.
    + intros ->. destruct (el_lat el), (el_lon el); simpl; try done.
      exfalso. apply Hown. by split.
    + intros [x ->] ->. destruct (el_lat el), (el_lon el); simpl; try done.
      exfalso. apply Hown. by split.
  - intros [xy Hxy]%coordinates_located Hid. unfold _parse_element.
    rewrite Hxy, Hid. simpl. by destruct xy.
  - intros [xy Hxy]%coordinates_located [id Hid] Hty. unfold _parse_element.
    rewrite Hxy, Hid, Hty. simpl. by destruct xy.
Qed.

End ParseProperties.

Section FetchProperties.
Import Py Overpass.
Variable post : string -> string -> response.

Lemma query_servers_none servers category :
  (forall server, server ∈ servers ->
     returned (post server category) = None) ->
  query_servers post servers category = {| elements := None |}.
Proof.
  induction servers as [|server servers IH]; intros Hnone; [done|].
  simpl. rewrite Hnone by left. apply IH. intros s Hs. apply Hnone. by right.
Qed.

Lemma query_servers_first servers category i server data :
  servers !! i = Some server ->
  returned (post server category) = Some data ->
  (forall j server', j < i -> servers !! j = Some server' ->
     returned (post server' category) = None) ->
  query_servers post servers category = data.
Proof.
  revert i. induction servers as [|s servers IH]; intros i Hi Hdata Hbefore;
    [done|].
  destruct i as [|i]; simpl in *.
  - injection Hi as ->. by rewrite Hdata.
  - rewrite (Hbefore 0 s) by (done || lia).
    apply (IH i); [done|done|].
    intros j s' Hj Hs'. apply (Hbefore (S j)); [lia|done].
Qed.

Lemma comprehension_Val {A B : Type} (f : A -> result B) l out :
  comprehension f l = Val out -> Forall2 (fun x y => f x = Val y) l out.
Proof.
  revert out. induction l as [|x l IH]; intros out; simpl.
  - intros [= <-]. constructor.
  - destruct (f x) as [y|e] eqn:Hy; [|done]. simpl.
    destruct (comprehension f l) as [ys|e]; [|done]. simpl.
    intros [= <-]. constructor; [done|]. by apply IH.
Qed.

Lemma comprehension_total {A B : Type} (f : A -> result B) l :
  (forall x, x ∈ l -> exists y, f x = Val y) ->
  exists ys, Overpass.comprehension f l = Val ys.
Proof.
  induction l as [|x l IH]; intros Hf; [by eexists|].
  destruct (Hf x) as [y Hy]; [left|].
  destruct IH as [ys Hys]; [intros x' Hx'; apply Hf; by right|].
  exists (y :: ys). simpl. by rewrite Hy, Hys.
Qed.

Lemma comprehension_Raise {A B : Type} (f : A -> result B) l e :
  comprehension f l = Raise e -> exists x, x ∈ l /\ f x = Raise e.
Proof.
  induction l as [|x l IH]; simpl; [done|].
  destruct (f x) as [y|e'] eqn:Hy; simpl.
  - destruct (comprehension f l) as [ys|e']; simpl; [done|].
    intros [= ->]. destruct IH as (x' & Hx' & He); [done|].
    exists x'. split; [by right|done].
  - intros [= ->]. exists x. split; [left|done].
Qed.

(** X12. [_fetch_category] takes the answer of the first server, in the
    order of [OVERPASS_SERVERS], that answers with status 200 and a body
    it can read; when no server does, or the answer has no [elements], it
    returns no POI and raises nothing. The POIs it returns are the
    elements of that answer, one for one and in their order, each with
    the category asked for. It returns them when every element has an
    [id], a [type] and coordinates that can be read; what it raises
    otherwise is the [KeyError] of an element. *)
Theorem fetch_category_reads_the_first_good_answer (category : string) :
  ((forall server, server ∈ OVERPASS_SERVERS ->
      returned (post server category) = None) ->
   _fetch_category post category = Val []) /\
  (forall i server data,
     OVERPASS_SERVERS !! i = Some server ->
     returned (post server category) = Some data ->
     (forall j server', j < i -> OVERPASS_SERVERS !! j = Some server' ->
        returned (post server' category) = None) ->
     _query_overpass post category = data) /\
  (forall pois,
     _fetch_category post category = Val pois ->
     Forall2 (fun el p =>
                el_id el = Some (osm_id p)
                /\ Overpass.category p = category
                /\ Overpass.name p <> "")
       (default [] (elements (_query_overpass post category))) pois) /\
  (elements (_query_overpass post category) = None ->
   _fetch_category post category = Val []) /\
  (forall els,
     elements (_query_overpass post category) = Some els ->
     Forall (fun el =>
               is_Some (el_id el) /\ is_Some (el_type el) /\ located el)
       els ->
     exists pois,
       _fetch_category post category = Val pois /\
       length pois = length els) /\
  (forall e,
     _fetch_category post category = Raise e ->
     exists key el,
       e = KeyError key /\
       el ∈ default [] (elements (_query_overpass post category)) /\
       _parse_element el category = Raise (KeyError key)).
Proof.
  split; [|split; [|split; [|split; [|split]]]].
  - intros Hnone. unfold _fetch_category, _query_overpass.
    by rewrite query_servers_none.
  - intros i server data. apply query_servers_first.
  - intros pois. unfold _fetch_category.
    destruct (elements _) as [els|]; simpl.
    + intros Hpois%comprehension_Val.
      eapply Forall2_impl; [done|]. intros el p Hp. simpl in Hp.
      destruct (parse_element_fields el category p Hp)
        as (_ & Hid & _ & Hcat & Hname).
      split; [done|]. split; [done|].
      rewrite Hname. by apply or_str_nonempty.
    + intros [= <-]. constructor.
  - intros Hnone. unfold _fetch_category. by rewrite Hnone.
  - intros els Hels Hgood. unfold _fetch_category. rewrite Hels.
    destruct (comprehension_total (fun el => _parse_element el category) els)
      as [pois Hpois].
    { intros el Hel. apply parse_element_succeeds.
      by apply (proj1 (Forall_forall _ _) Hgood). }
    exists pois. split; [done|].
    apply comprehension_Val in Hpois. symmetry.
    by eapply Forall2_length.
  - intros e. unfold _fetch_category.
    destruct (elements _) as [els|]; simpl; [|done].
    intros (el & Hel & He)%comprehension_Raise.
    unfold _parse_element, coordinates, getitem in He.
    assert (exists key, e = KeyError key) as [key ->].
    { destruct (el_lat el), (el_lon el), (el_center el) as [center|];
        simpl in He;
        try destruct (center !! "lat"); simpl in He;
        try destruct (center !! "lon"); simpl in He;
        destruct (el_id el), (el_type el);
        first [done | injection He as <-; by eexists]. }
    exists key, el. split; [done|]. split; [done|].
    unfold _parse_element, coordinates, getitem. exact He.
Qed.
End FetchProperties.

(** ** The data quality score *)

Section QualityScore.
Import Py Overpass Processor.

(** X13. The data quality score lies between 0 and 1. It is 1.0 exactly
    when the POI has a name, a latitude other than zero, a Wikipedia
    summary, an image, and a phone number or a website; it is 0.0 exactly
    when it has none of them. A POI that [_parse_element] made has a name,
    so that its score is 0.2 at least. *)
Theorem quality_score_is_between_0_and_1
    (osm_data : poi) (wiki_data : option wikipedia_data) :
  let score := _calculate_quality_score osm_data wiki_data in
  let has_name := truthy (Some (Overpass.name osm_data)) in
  let has_lat := truthy_number (lat (location_ osm_data)) in
  let has_summary := truthy (wiki_summary wiki_data) in
  let has_image := truthy (wiki_image_url wiki_data) in
  let has_contact :=
    truthy (phone (basic_info_ osm_data))
    || truthy (website (basic_info_ osm_data)) in
  (0 <=? score)%float = true /\
  (score <=? 1)%float = true /\
  ((score =? 1)%float = true
   <-> has_name && has_lat && has_summary && has_image && has_contact
       = true) /\
  ((score =? 0)%float = true
   <-> has_name || has_lat || has_summary || has_image || has_contact
       = false) /\
  (forall el category,
     _parse_element el category = Val osm_data ->
     (0.2 <=? score)%float = true).
Proof.
  intros score has_name has_lat has_summary has_image has_contact.
  assert (Hparsed : forall el category,
            _parse_element el category = Val osm_data -> has_name = true).
  { intros el category Hp.
    destruct (parse_element_fields el category osm_data Hp)
      as (_ & _ & _ & _ & Hname).
    unfold has_name, truthy. rewrite Hname.
    destruct (String.eqb_spec
      (or_str (or_ (or_ (default ∅ (el_tags el) !! "name:vi")
                        (default ∅ (el_tags el) !! "name"))
                   (default ∅ (el_tags el) !! "name:en")) "Unknown") "")
      as [Hempty|_]; [|done].
    by apply or_str_nonempty in Hempty. }
  assert (Hscore : score =
    PyFloat.round
      (let s := 0%float in
       let s := if has_name then (s + 0.2)%float else s in
       let s := if has_lat then (s + 0.2)%float else s in
       let s := if has_summary then (s + 0.3)%float else s in
       let s := if has_image then (s + 0.15)%float else s in
       if has_contact then (s + 0.15)%float else s) 2) by done.
  clearbody score has_name has_lat has_summary has_image has_contact.
  subst score.
  split; [|split; [|split; [|split]]].
  - by destruct has_name, has_lat, has_summary, has_image, has_contact;
      vm_compute.
  - by destruct has_name, has_lat, has_summary, has_image, has_contact;
      vm_compute.
  - by destruct has_name, has_lat, has_summary, has_image, has_contact;
      vm_compute.
  - by destruct has_name, has_lat, has_summary, has_image, has_contact;
      vm_compute.
  - intros el category Hp. rewrite (Hparsed el category Hp). clear Hparsed Hp.
    by destruct has_lat, has_summary, has_image, has_contact; vm_compute.
Qed.

End QualityScore.

(** ** What the web crawler adds to a POI *)

Section CrawlerProperties.
Import Py Overpass WebCrawler.
Variable _search_duckduckgo_articles : string -> list article.
Variable _extract_tips_from_article : string -> list string.
Variable _fetch_from_foody : string -> Z -> option (list restaurant).
Variable _fetch_from_search_engines : string -> Z -> option (list restaurant).
Variable _crawl_foody_detail : restaurant -> restaurant.
Variable lower : string -> string.
Variable strip : string -> string.

Local Abbreviation get_food_recommendations :=
  (get_food_recommendations _fetch_from_foody _fetch_from_search_engines
     _crawl_foody_detail lower strip).

Lemma category_tips_length poi : 2 <= length (_generate_category_tips poi).
Proof.
  unfold _generate_category_tips.
  repeat (destruct (decide _); [simpl; lia|]). simpl. lia.
Qed.

(** X7. With a session, [_enrich_single] stores the articles of the search
    for the POI. Its tips are those read from the first article when there
    are any; when the search found no article, or the first one yields no
    tip, they are the tips of the category of the POI, which are two at
    least; so they are never empty. Its food recommendations are those of
    the food service for the name of the POI and a limit of 5: five at
    most, each with a name. *)
Theorem enriched_poi_has_tips_and_five_restaurants_at_most
    (poi : poi) (w : web_data) :
  _enrich_single _search_duckduckgo_articles _extract_tips_from_article
    (Some (fun location_name limit =>
             Some (get_food_recommendations location_name limit)))
    true poi = Some w ->
  let found :=
    _search_duckduckgo_articles ("kinh nghiệm tham quan " +:+ name poi) in
  articles w = found /\
  (forall top rest,
     found = top :: rest ->
     _extract_tips_from_article (url top) <> [] ->
     tips w = _extract_tips_from_article (url top)) /\
  (forall top rest,
     found = top :: rest ->
     _extract_tips_from_article (url top) = [] ->
     tips w = _generate_category_tips poi) /\
  (found = [] -> tips w = _generate_category_tips poi) /\
  tips w <> [] /\
  2 <= length (_generate_category_tips poi) /\
  food_recommendations w = get_food_recommendations (name poi) 5 /\
  length (food_recommendations w) <= 5 /\
  Forall (fun r => Food.name r <> "") (food_recommendations w).
Proof.
  intros Hw found. unfold _enrich_single in Hw. simpl in Hw.
  injection Hw as <-. simpl. fold found.
  pose proof (category_tips_length poi) as Hcat.
  assert (Hnil : _generate_category_tips poi <> []).
  { intros Hnil. rewrite Hnil in Hcat. simpl in Hcat. lia. }
  split; [done|]. split; [|split; [|split; [|split; [|split; [done|]]]]].
  - intros top rest -> Htips.
    by destruct (_extract_tips_from_article (url top)).
  - by intros top rest -> ->.
  - by intros ->.
  - destruct found as [|top rest]; [done|].
    by destruct (_extract_tips_from_article (url top)).
  - split; [done|]. split.
    + pose proof (slice_to_length
        (_enrich_with_details _crawl_foody_detail
           (slice_to (_deduplicate_and_rank lower strip
              (concat (omap id [_fetch_from_foody (Overpass.name poi) 5%Z;
                 _fetch_from_search_engines (Overpass.name poi) 5%Z])))
              (5 * 2))) 5 ltac:(lia)) as Hlen.
      unfold FoodService.get_food_recommendations. lia.
    + apply Forall_forall. intros r Hr.
      unfold FoodService.get_food_recommendations in Hr.
      eapply elem_of_sublist in Hr; [|apply slice_to_sublist].
      unfold _enrich_with_details in Hr.
      by apply list_elem_of_filter in Hr as [Hr _].
Qed.

End CrawlerProperties.

(** X7 on a POI for which the search finds one article without tips and
    the fetchers of the food service find nothing: it gets the two tips of
    its category and no restaurant. *)
Lemma enriched_poi_has_tips_and_five_restaurants_at_most_witness :
  let poi :=
    Overpass.Poi 1 "node" "Ho Hoan Kiem" None None "tourism" "attraction"
      (Overpass.Location None None "")
      (Overpass.BasicInfo "" None None None None None) ∅ in
  let guide :=
    WebCrawler.Article "Ho Hoan Kiem" "https://example.org/ho" "" "web" in
  let w :=
    WebCrawler.WebData [guide] (WebCrawler._generate_category_tips poi) [] in
  WebCrawler._enrich_single (fun _ => [guide]) (fun _ => [])
    (Some (fun location_name limit =>
             Some (get_food_recommendations (fun _ _ => None)
                     (fun _ _ => None) (fun r => r) (fun s => s)
                     (fun s => s) location_name limit)))
    true poi = Some w /\
  WebCrawler.articles w = [guide] /\
  WebCrawler.tips w
  = ["Mang theo kem chống nắng và nước uống.";
     "Cẩn thận tư trang nơi đông người."] /\
  WebCrawler.tips w <> [] /\
  length (WebCrawler.food_recommendations w) <= 5.
Proof.
  cbv zeta. split; [reflexivity|].
  pose proof (enriched_poi_has_tips_and_five_restaurants_at_most
    (fun _ => [WebCrawler.Article "Ho Hoan Kiem" "https://example.org/ho"
                 "" "web"])
    (fun _ => []) (fun _ _ => None) (fun _ _ => None)
    (fun r => r) (fun s => s) (fun s => s)
    (Overpass.Poi 1 "node" "Ho Hoan Kiem" None None "tourism" "attraction"
       (Overpass.Location None None "")
       (Overpass.BasicInfo "" None None None None None) ∅)
    _ eq_refl) as H.
  cbv zeta in H.
  destruct H as (Harticles & _ & Hcategory & _ & Htips & _ & _ & Hfive & _).
  split; [exact Harticles|].
  split; [exact (Hcategory _ _ eq_refl eq_refl)|].
  split; [exact Htips|exact Hfive].
Defined.

(** ** The statistics of the documents of the processor *)

Section Statistics.
Import Py Json Processor RagDocument Pipeline.
Variable _extract_significance : option wikipedia_data -> string.
Variable _extract_period : option wikipedia_data -> string.
Variable _extract_cultural_notes : option wikipedia_data -> string.
Variable _extract_events :
  option wikipedia_data -> option WebCrawler.web_data -> list string.
Variable _extract_tags :
  Overpass.poi -> option wikipedia_data -> list string.
Variable list_of_set : list string -> list string.
Variable now : string.
Variable restaurant_json : Food.restaurant -> json.

Local Abbreviation _structure_document :=
  (_structure_document _extract_significance _extract_period
     _extract_cultural_notes _extract_events _extract_tags list_of_set now
     restaurant_json).
Local Abbreviation prepare_for_rag :=
  (prepare_for_rag _extract_significance _extract_period
     _extract_cultural_notes _extract_events _extract_tags list_of_set now
     restaurant_json).

(** The category and the Wikipedia summary of a POI. *)
Local Abbreviation category_of poi := (Overpass.category (osm_data poi)).
Local Abbreviation summary_of poi :=
  (default "" (wiki_summary (wiki_data poi))).

Lemma count_item_document st poi :
  count_item st (_structure_document poi)
  = Val {|
      total_locations := total_locations st;
      collection_date := collection_date st;
      categories := count_one (JStr (category_of poi)) (categories st);
      with_wikipedia :=
        if truthy (JStr (summary_of poi)) then with_wikipedia st + 1
        else with_wikipedia st;
      with_reviews := with_reviews st;
      with_images := with_images st;
      with_tips := with_tips st
    |}.
Proof.
  unfold count_item, RagDocument._structure_document, get3, get2.
  unfold _build_historical_layer.
  destruct (default [] (WebCrawler.articles <$> web_data poi)); reflexivity.
Qed.

Lemma key_eqb_str k c : key_eqb k (JStr c) = true <-> k = JStr c.
Proof.
  destruct k as [|b|n|x|s|l|d]; simpl; try (split; done).
  destruct (String.eqb_spec s c); split; congruence.
Qed.

Lemma count_for_count_one c c' d :
  count_for (JStr c) (count_one (JStr c') d)
  = count_for (JStr c) d + (if decide (c = c') then 1 else 0).
Proof.
  induction d as [|[k n] d IH]; simpl.
  - destruct (String.eqb_spec c' c) as [->|Hne].
    + by rewrite decide_True.
    + by rewrite decide_False by congruence.
  - destruct (key_eqb k (JStr c')) eqn:Hk'; simpl.
    + apply key_eqb_str in Hk' as ->. simpl.
      destruct (String.eqb_spec c' c) as [->|Hne].
      * by rewrite decide_True.
      * rewrite decide_False by congruence. lia.
    + destruct (key_eqb k (JStr c)) eqn:Hk; [|done].
      apply key_eqb_str in Hk as ->.
      rewrite decide_False; [lia|]. intros ->.
      simpl in Hk'. by rewrite String.eqb_refl in Hk'.
Qed.

Lemma count_one_sum key d :
  sum_list (snd <$> count_one key d) = S (sum_list (snd <$> d)).
Proof.
  induction d as [|[k n] d IH]; simpl; [done|].
  destruct (key_eqb k key); csimpl; [lia|]. rewrite IH. lia.
Qed.

Lemma count_items_documents pois st :
  exists out,
    count_items (prepare_for_rag pois) st = Val out /\
    total_locations out = total_locations st /\
    sum_list (snd <$> categories out)
    = sum_list (snd <$> categories st) + length pois /\
    (forall c,
       count_for (JStr c) (categories out)
       = count_for (JStr c) (categories st)
         + length (filter (fun poi => category_of poi = c) pois)) /\
    with_wikipedia out
    = with_wikipedia st
      + length (filter (fun poi => summary_of poi <> "") pois) /\
    with_reviews out = with_reviews st /\
    with_images out = with_images st /\
    with_tips out = with_tips st.
Proof.
  revert st. induction pois as [|poi pois IH]; intros st.
  - exists st. simpl. repeat split; try done; intros; lia.
  - unfold RagDocument.prepare_for_rag. rewrite fmap_cons.
    cbn [count_items]. rewrite count_item_document. cbn [result_bind].
    edestruct IH as (out & Hout & Htotal & Hsum & Hcat & Hwiki & Hrest).
    exists out. split; [exact Hout|]. cbn [total_locations categories
      with_wikipedia with_reviews with_images with_tips] in *.
    split; [done|]. split; [|split; [|split; [|done]]].
    + rewrite Hsum, count_one_sum. simpl. lia.
    + intros c. rewrite Hcat, count_for_count_one, filter_cons.
      destruct (decide (category_of poi = c)) as [<-|Hne].
      * rewrite decide_True by done. simpl. lia.
      * rewrite decide_False by congruence. lia.
    + rewrite Hwiki, filter_cons. simpl.
      destruct (String.eqb_spec (summary_of poi) "") as [Heq|Hne].
      * rewrite decide_False by (by intros ?). simpl. lia.
      * rewrite decide_True by done. simpl. lia.
Qed.

(** X14. On the documents that [prepare_for_rag] makes of a list of
    POIs, [_generate_stats] raises nothing; the total is the number of
    POIs, the counts of the categories add up to it, and the count of a
    category is the number of POIs of that category; [with_wikipedia]
    counts the POIs with a Wikipedia summary. The counters [with_reviews],
    [with_images] and [with_tips] stay at 0 whatever the POIs hold: the
    documents have no [reviews] in their practical layer, no [images]
    among their layers, and their tips are in the practical layer, not in
    the cultural one where they are looked for. *)
Theorem statistics_of_the_processed_documents (pois : list enriched) :
  exists st,
    _generate_stats now (prepare_for_rag pois) = Val st /\
    total_locations st = length pois /\
    sum_list (snd <$> categories st) = length pois /\
    (forall c,
       count_for (JStr c) (categories st)
       = length (filter (fun poi => category_of poi = c) pois)) /\
    with_wikipedia st
    = length (filter (fun poi => summary_of poi <> "") pois) /\
    with_reviews st = 0 /\
    with_images st = 0 /\
    with_tips st = 0.
Proof.
  unfold _generate_stats.
  edestruct count_items_documents
    as (out & Hout & Htotal & Hsum & Hcat & Hwiki & Hrev & Himg & Htips).
  exists out. split; [exact Hout|].
  cbn [total_locations categories with_wikipedia with_reviews with_images
       with_tips] in *.
  split.
  { rewrite Htotal. unfold RagDocument.prepare_for_rag.
    by rewrite length_fmap. }
  split; [done|].
  split; [done|]. done.
Qed.

End Statistics.

(** ** The identifiers of the documents *)

Section Identifiers.
Import Py Json Processor RagDocument.
Variable _extract_significance : option wikipedia_data -> string.
Variable _extract_period : option wikipedia_data -> string.
Variable _extract_cultural_notes : option wikipedia_data -> string.
Variable _extract_events :
  option wikipedia_data -> option WebCrawler.web_data -> list string.
Variable _extract_tags :
  Overpass.poi -> option wikipedia_data -> list string.
Variable list_of_set : list string -> list string.
Variable now : string.
Variable restaurant_json : Food.restaurant -> json.

Local Abbreviation _structure_document :=
  (_structure_document _extract_significance _extract_period
     _extract_cultural_notes _extract_events _extract_tags list_of_set now
     restaurant_json).
Local Abbreviation prepare_for_rag :=
  (prepare_for_rag _extract_significance _extract_period
     _extract_cultural_notes _extract_events _extract_tags list_of_set now
     restaurant_json).

Lemma after_last_app c t s :
  after_last c s = None -> after_last c (t +:+ String c s) = Some s.
Proof.
  intros Hs. induction t as [|a t IH].
  - change ("" +:+ String c s) with (String c s). cbn [after_last].
    by rewrite Hs, Ascii.eqb_refl.
  - change (String a t +:+ String c s) with (String a (t +:+ String c s)).
    cbn [after_last]. by rewrite IH.
Qed.

Lemma string_of_uint_digits u :
  after_last "_" (NilEmpty.string_of_uint u) = None.
Proof.
  induction u; cbn [NilEmpty.string_of_uint after_last]; rewrite ?IHu; done.
Qed.

Lemma str_int_digits n : after_last "_" (str_int n) = None.
Proof.
  unfold str_int, NilZero.string_of_int, NilZero.string_of_uint.
  destruct (Z.to_int n) as [u|u]; destruct u;
    cbn [after_last]; rewrite ?string_of_uint_digits; done.
Qed.

Lemma str_int_inj m n : str_int m = str_int n -> m = n.
Proof.
  unfold str_int. intros Heq. apply DecimalZ.to_int_inj.
  assert (Hnorm : forall k, Z.to_int k <> Decimal.Pos Decimal.Nil
                            /\ Z.to_int k <> Decimal.Neg Decimal.Nil).
  { intros k. destruct k as [|p|p]; simpl; split; try done;
      intros [= Hp]; by apply DecimalPos.Unsigned.to_uint_nonnil in Hp. }
  assert (Hsome : Some (Z.to_int m) = Some (Z.to_int n)); [|congruence].
  rewrite <- (NilZero.isi (Z.to_int m)), <- (NilZero.isi (Z.to_int n));
    try apply Hnorm.
  by rewrite Heq.
Qed.

Lemma document_id poi :
  get (_structure_document poi) "id" JNull
  = Val (JStr (Overpass.osm_type (osm_data poi) +:+ "_"
               +:+ str_int (Overpass.osm_id (osm_data poi)))).
Proof. reflexivity. Qed.

(** X15. The [id] of a document is the OSM type and the OSM id of its
    POI, joined by an underscore; documents made of POIs with pairwise
    distinct OSM ids, as [collect_pois] returns them, have pairwise
    distinct ids. *)
Theorem documents_have_distinct_ids (pois : list enriched) :
  NoDup ((fun poi => Overpass.osm_id (osm_data poi)) <$> pois) ->
  NoDup ((fun doc => get doc "id" JNull) <$> prepare_for_rag pois).
Proof.
  intros Hids. unfold RagDocument.prepare_for_rag.
  rewrite <- list_fmap_compose.
  rewrite (list_fmap_ext _
    (fun poi => Val (JStr (Overpass.osm_type (osm_data poi) +:+ "_"
       +:+ str_int (Overpass.osm_id (osm_data poi))))) pois)
    by (intros i poi _; apply document_id).
  induction pois as [|poi pois IH]; [constructor|].
  rewrite !fmap_cons in *. apply NoDup_cons in Hids as [Hnew Hids].
  apply NoDup_cons. split; [|by apply IH].
  intros Hin. apply Hnew.
  apply list_elem_of_fmap in Hin as (poi' & Heq & Hpoi').
  apply list_elem_of_fmap. exists poi'. split; [|done].
  injection Heq as Heq.
  assert (Hafter : Some (str_int (Overpass.osm_id (osm_data poi)))
                   = Some (str_int (Overpass.osm_id (osm_data poi')))).
  { rewrite <- (after_last_app "_" (Overpass.osm_type (osm_data poi))
      (str_int (Overpass.osm_id (osm_data poi))) (str_int_digits _)).
    rewrite <- (after_last_app "_" (Overpass.osm_type (osm_data poi'))
      (str_int (Overpass.osm_id (osm_data poi'))) (str_int_digits _)).
    exact (f_equal (after_last "_") Heq). }
  injection Hafter as Hafter. by apply str_int_inj.
Qed.

End Identifiers.

(** X15 on two POIs, a node and a way: their documents are [node_1] and
    [way_2]. *)
Lemma documents_have_distinct_ids_witness :
  let lake :=
    Overpass.Poi 1 "node" "Ho Hoan Kiem" None None "tourism" "attraction"
      (Overpass.Location None None "")
      (Overpass.BasicInfo "" None None None None None) ∅ in
  let temple :=
    Overpass.Poi 2 "way" "Van Mieu" None None "historic" "monument"
      (Overpass.Location None None "")
      (Overpass.BasicInfo "" None None None None None) ∅ in
  let pois :=
    [RagDocument.Enriched lake None None;
     RagDocument.Enriched temple None None] in
  let docs :=
    RagDocument.prepare_for_rag (fun _ => "") (fun _ => "") (fun _ => "")
      (fun _ _ => []) (fun _ _ => []) (fun l => l) "2025-01-01T00:00:00"
      (fun _ => Json.JNull) pois in
  NoDup ((fun poi => Overpass.osm_id (RagDocument.osm_data poi)) <$> pois) /\
  (fun doc => Json.get doc "id" Json.JNull) <$> docs
  = [Py.Val (Json.JStr "node_1"); Py.Val (Json.JStr "way_2")] /\
  NoDup ((fun doc => Json.get doc "id" Json.JNull) <$> docs).
Proof.
  intros lake temple pois docs.
  assert (Hids : NoDup ((fun poi => Overpass.osm_id (RagDocument.osm_data poi))
                          <$> pois)).
  { apply (bool_decide_unpack _). vm_compute. exact I. }
  split; [exact Hids|]. split; [reflexivity|].
  exact (documents_have_distinct_ids (fun _ => "") (fun _ => "")
    (fun _ => "") (fun _ _ => []) (fun _ _ => []) (fun l => l)
    "2025-01-01T00:00:00" (fun _ => Json.JNull) pois Hids).
Defined.

(** ** The score at the edges *)

Section ScoreEdges.
Import PyFloat.

Lemma zero_times_finite rating :
  finite rating = true ->
  exists s, Prim2SF (0 * rating)%float = S754_zero s.
Proof.
  unfold finite. intros Hfinite. rewrite mul_spec.
  destruct (Prim2SF rating) as [s| | |s m e]; try done; by eexists.
Qed.

Lemma seventy_plus_zero x s :
  Prim2SF x = S754_zero s -> (70 + x)%float = 70%float.
Proof.
  intros Hx. rewrite <- (SF2Prim_Prim2SF (70 + x)), add_spec, Hx.
  by destruct s.
Qed.

(** X16. With no review the rating does not count: a restaurant with a
    rating, whatever it is, and a review count of 0 scores exactly 70.0,
    the prior mean, whereas one without a rating scores 50.0. With a
    review count of -10 the division is by zero and the call raises
    [ZeroDivisionError]. *)
Theorem score_without_reviews_is_the_prior (rating : float) :
  finite rating = true ->
  _calculate_score (Some rating) 0 = Food.Val 70%float /\
  _calculate_score None 0 = Food.Val 50%float /\
  _calculate_score (Some rating) (-10) = Food.Raise ZeroDivisionError.
Proof.
  intros Hfinite. split; [|split; [done|]].
  - destruct (zero_times_finite rating Hfinite) as [s Hs].
    unfold _calculate_score, int_mul_float, float_div_int, float_mul_int.
    change (float_of_int 10) with (Food.Val 10%float).
    change (float_of_int 0) with (Food.Val 0%float).
    change (float_of_int (10 + 0)) with (Food.Val 10%float).
    change (float_of_int 100) with (Food.Val 100%float).
    cbn [Food.result_bind].
    change (10 * 7)%float with 70%float.
    rewrite (seventy_plus_zero _ s Hs). reflexivity.
  - unfold _calculate_score, int_mul_float, float_div_int.
    change (float_of_int 10) with (Food.Val 10%float).
    change (float_of_int (-10)) with (Food.Val (-10)%float).
    change (float_of_int (10 + -10)) with (Food.Val 0%float).
    cbn [Food.result_bind]. reflexivity.
Qed.

End ScoreEdges.

(** X16 on a rating of 8.5. *)
Lemma score_without_reviews_is_the_prior_witness :
  PyFloat.finite 8.5 = true /\
  _calculate_score (Some 8.5%float) 0 = Food.Val 70%float /\
  _calculate_score None 0 = Food.Val 50%float /\
  _calculate_score (Some 8.5%float) (-10) = Food.Raise ZeroDivisionError.
Proof.
  split; [reflexivity|].
  exact (score_without_reviews_is_the_prior 8.5 eq_refl).
Defined.

(** ** Loading the documents of the processor *)

Section LoadProcessed.
Import Py Json Processor RagDocument Loader.
Variable _extract_significance : option wikipedia_data -> string.
Variable _extract_period : option wikipedia_data -> string.
Variable _extract_cultural_notes : option wikipedia_data -> string.
Variable _extract_events :
  option wikipedia_data -> option WebCrawler.web_data -> list string.
Variable _extract_tags :
  Overpass.poi -> option wikipedia_data -> list string.
Variable list_of_set : list string -> list string.
Variable now : string.
Variable restaurant_json : Food.restaurant -> json.
Variable repr : json -> string.
Variable float_of_str : string -> result float.

Local Abbreviation _structure_document :=
  (_structure_document _extract_significance _extract_period
     _extract_cultural_notes _extract_events _extract_tags list_of_set now
     restaurant_json).
Local Abbreviation _build_historical_layer :=
  (_build_historical_layer _extract_significance _extract_period).
Local Abbreviation _build_practical_layer := (_build_practical_layer).
Local Abbreviation _build_cultural_layer :=
  (_build_cultural_layer _extract_cultural_notes _extract_events
     restaurant_json).
Local Abbreviation _build_metadata :=
  (_build_metadata _extract_tags list_of_set).

(** Every food record is written as a dictionary of which a line can be
    made: its price range, if it has one, is a string. *)
Hypothesis food_lines :
  forall r, exists line, food_line repr (restaurant_json r) = Val line.

Lemma optional_line_dict label d key :
  exists l, optional_line repr label (JDict d) key = Val l.
Proof.
  unfold optional_line, getitem. simpl.
  destruct (lookup key d) as [v|]; simpl; [|by eexists].
  destruct (truthy v); by eexists.
Qed.

Lemma section_lines_list header l line :
  (forall x, x ∈ l -> exists s, line x = Val s) ->
  exists ls, section_lines header (JList l) line = Val ls.
Proof.
  intros Hline. unfold section_lines.
  destruct (truthy (JList l)); [|by eexists]. simpl.
  destruct (comprehension_total line l Hline) as [ls Hls].
  rewrite Hls. by eexists.
Qed.

Lemma food_line_dict f line :
  food_line repr f = Val line -> exists d, f = JDict d.
Proof. destruct f; try done. by eexists. Qed.

Lemma join_strings sep l :
  join sep (of_strings l) = Val (String.concat sep l).
Proof.
  unfold join, of_strings. simpl.
  assert (Hall : Overpass.comprehension
            (fun x => match x with JStr s => Val s | _ => Raise TypeError end)
            (JStr <$> l) = Val l).
  { induction l as [|s l IH]; [done|]. csimpl. by rewrite IH. }
  by rewrite Hall.
Qed.

Lemma concat_head sep (x : string) l :
  exists rest, String.concat sep (x :: l) = x +:+ rest.
Proof.
  destruct l as [|y l].
  - exists "". simpl. by rewrite string_app_nil_r.
  - by exists (sep +:+ String.concat sep (y :: l)).
Qed.

Lemma item_content_document poi :
  let osm := osm_data poi in
  exists c rest,
    item_content repr (_structure_document poi) = Val c /\
    loc c = JDict [
      ("lat", of_option_float (Overpass.lat (Overpass.location_ osm)));
      ("lon", of_option_float (Overpass.lon (Overpass.location_ osm)));
      ("address", JStr (Overpass.address (Overpass.location_ osm)))] /\
    variants c = JDict [
      ("vi", of_option_string (Overpass.name_vi osm));
      ("en", of_option_string (Overpass.name_en osm));
      ("local", JStr (Overpass.name osm))] /\
    basic c = _build_basic_layer osm /\
    hist c = _build_historical_layer (wiki_data poi) (web_data poi) /\
    prac c = _build_practical_layer osm (web_data poi) /\
    tips c = of_strings (default [] (WebCrawler.tips <$> web_data poi)) /\
    foods c
    = JList (restaurant_json
               <$> default [] (WebCrawler.food_recommendations
                                 <$> web_data poi)) /\
    full_content c = "Địa điểm: " +:+ Overpass.name osm +:+ rest.
Proof.
  intros osm. unfold item_content, RagDocument._structure_document.
  fold osm.
  unfold RagDocument._build_historical_layer, _build_basic_layer,
    RagDocument._build_practical_layer, RagDocument._build_cultural_layer.
  set (articles := default [] (WebCrawler.articles <$> web_data poi)).
  set (article_json := fun a => JDict [
         ("title", JStr (WebCrawler.title a));
         ("url", JStr (WebCrawler.url a));
         ("summary", JStr (WebCrawler.description a))]).
  assert (Harticles : forall header l,
    exists ls, section_lines header (JList (article_json <$> l))
                 (article_line repr) = Val ls).
  { intros header l. apply section_lines_list.
    intros x (a & -> & _)%list_elem_of_fmap. by eexists. }
  assert (Htips : forall header l,
    exists ls, section_lines header (of_strings l) (tip_line repr) = Val ls).
  { intros header l. apply section_lines_list. intros x _. by eexists. }
  assert (Hfoods : forall header l,
    exists ls, section_lines header (JList (restaurant_json <$> l))
                 (food_line repr) = Val ls).
  { intros header l. apply section_lines_list.
    intros x (r & -> & _)%list_elem_of_fmap. apply food_lines. }
  destruct articles as [|a arts];
    cbn [getitem get lookup String.eqb Ascii.eqb Bool.eqb result_bind app];
    repeat match goal with
    | |- context [optional_line repr ?label (JDict ?d) ?key] =>
        let l := fresh "l" in
        destruct (optional_line_dict label d key) as [l ->];
        cbn [result_bind]
    | |- context [section_lines ?header (JList (article_json <$> ?l)) _] =>
        let ls := fresh "ls" in
        destruct (Harticles header l) as [ls ->]; cbn [result_bind]
    | |- context [section_lines ?header (of_strings ?l) _] =>
        let ls := fresh "ls" in
        destruct (Htips header l) as [ls ->]; cbn [result_bind]
    | |- context [section_lines ?header (JList (restaurant_json <$> ?l)) _] =>
        let ls := fresh "ls" in
        destruct (Hfoods header l) as [ls ->]; cbn [result_bind]
    | |- context [section_lines ?header (JList []) ?line] =>
        change (section_lines header (JList []) line) with (@Val (list string) []);
        cbn [result_bind]
    end.
  all: match goal with
       | |- context [String.concat nl (?x :: ?l)] =>
           destruct (concat_head nl x l) as [rest Hrest]
       end.
  all: eexists; exists rest; (split; [reflexivity|]);
    cbn [variants loc basic hist prac tips foods full_content];
    repeat (split; [reflexivity|]);
    rewrite Hrest; cbn [str]; apply string_app_assoc.
Qed.

(** The metadata of a document of the Qdrant loader that are read from the
    POI. *)
Local Abbreviation read_from poi d :=
  (let osm := osm_data poi in
   lookup "id" (metadata d)
   = Some (JStr (Overpass.osm_type osm +:+ "_"
                 +:+ str_int (Overpass.osm_id osm))) /\
   lookup "name" (metadata d) = Some (JStr (Overpass.name osm)) /\
   lookup "category" (metadata d) = Some (JStr (Overpass.category osm)) /\
   lookup "type" (metadata d) = Some (JStr (Overpass.type_ osm)) /\
   lookup "tags" (metadata d)
   = Some (JStr (String.concat ", " (_extract_tags osm (wiki_data poi)))) /\
   lookup "quality_score" (metadata d)
   = Some (JFloat (_calculate_quality_score osm (wiki_data poi))) /\
   exists rest,
     page_content d = "Địa điểm: " +:+ Overpass.name osm +:+ rest).

Lemma names_of_foods l :
  exists names,
    Overpass.comprehension (fun f => get f "name" JNull)
      (restaurant_json <$> l) = Val names.
Proof.
  apply comprehension_total. intros x (r & -> & _)%list_elem_of_fmap.
  destruct (food_lines r) as [line Hline].
  apply food_line_dict in Hline as [d ->]. by eexists.
Qed.

Local Abbreviation prepare_for_rag :=
  (prepare_for_rag _extract_significance _extract_period
     _extract_cultural_notes _extract_events _extract_tags list_of_set now
     restaurant_json).

(** The POI has a latitude and a longitude. *)
Local Abbreviation has_coordinates poi :=
  (is_Some (Overpass.lat (Overpass.location_ (osm_data poi)))
   /\ is_Some (Overpass.lon (Overpass.location_ (osm_data poi)))).

Lemma qdrant_document_cases poi :
  let osm := osm_data poi in
  let location := Overpass.location_ osm in
  let loaded := qdrant_document repr float_of_str (_structure_document poi) in
  (Overpass.lat location = None \/ Overpass.lon location = None ->
   loaded = Raise TypeError) /\
  (forall x y,
     Overpass.lat location = Some x -> Overpass.lon location = Some y ->
     exists d,
       loaded = Val d /\
       lookup "lat" (metadata d) = Some (JFloat x) /\
       lookup "lon" (metadata d) = Some (JFloat y) /\
       read_from poi d).
Proof.
  intros osm location loaded.
  destruct (item_content_document poi)
    as (c & rest & Hc & Hloc & Hvariants & Hbasic & Hhist & Hprac & Htips
        & Hfoods & Hcontent).
  destruct (names_of_foods (default [] (WebCrawler.food_recommendations
                                          <$> web_data poi)))
    as [names Hnames].
  assert (Hhist' : exists h, hist c = JDict h).
  { rewrite Hhist. unfold RagDocument._build_historical_layer.
    destruct (default [] (WebCrawler.articles <$> web_data poi));
      by eexists. }
  destruct Hhist' as [h Hh].
  unfold loaded, qdrant_document. rewrite Hc. cbn [result_bind].
  rewrite Hloc, Hvariants, Hbasic, Hh, Hprac, Hfoods.
  unfold RagDocument._structure_document, _build_basic_layer,
    RagDocument._build_practical_layer, RagDocument._build_metadata.
  fold osm location.
  cbn [get lookup String.eqb Ascii.eqb Bool.eqb result_bind iterate].
  rewrite Hnames, join_strings.
  split.
  - intros [Hlat|Hlon].
    + rewrite Hlat. reflexivity.
    + rewrite Hlon. by destruct (Overpass.lat location).
  - intros x y Hlat Hlon. rewrite Hlat, Hlon.
    cbn [of_option_float float_ result_bind].
    eexists. split; [reflexivity|].
    cbn [metadata page_content lookup String.eqb Ascii.eqb Bool.eqb].
    repeat (split; [reflexivity|]). by exists rest.
Qed.



(** X17. The loader of [import_to_qdrant.py] on the documents of the
    processor, food records being dictionaries with a string for price
    range. For a POI without latitude or longitude, which
    [_parse_element] allows, it raises [TypeError], since it calls
    [float] on [None]; so it does on a list of documents one of which is
    of such a POI. For a POI with coordinates it returns a document whose
    text begins with the name of the POI and whose metadata hold the id,
    name, category, type, coordinates, tags and quality score that the
    processor wrote. *)
Theorem qdrant_loader_needs_coordinates (pois : list enriched) :
  let loaded :=
    load_documents_from_json (qdrant_document repr float_of_str)
      (JList (prepare_for_rag pois)) in
  (Forall (fun poi => has_coordinates poi) pois ->
   exists docs,
     loaded = Val docs /\
     Forall2 (fun poi d =>
                lookup "lat" (metadata d)
                = Some (of_option_float
                          (Overpass.lat (Overpass.location_ (osm_data poi))))
                /\ lookup "lon" (metadata d)
                   = Some (of_option_float
                             (Overpass.lon
                                (Overpass.location_ (osm_data poi))))
                /\ read_from poi d) pois docs) /\
  (~ Forall (fun poi => has_coordinates poi) pois ->
   loaded = Raise TypeError).
Proof.
  intros loaded. unfold loaded, load_documents_from_json,
    RagDocument.prepare_for_rag.
  cbn [iterate result_bind]. clear loaded.
  induction pois as [|poi pois [IHyes IHno]].
  - split; [|intros Hno; destruct Hno; constructor].
    intros _. exists []. split; [done|constructor].
  - rewrite fmap_cons. cbn [Overpass.comprehension].
    destruct (qdrant_document_cases poi) as [Hnone Hsome].
    split.
    + intros [[[x Hx] [y Hy]] Hall]%Forall_cons.
      destruct (Hsome x y Hx Hy) as (d & -> & Hlat & Hlon & Hread).
      destruct (IHyes Hall) as (docs & -> & Hdocs).
      exists (d :: docs). split; [done|]. constructor; [|done].
      rewrite Hx, Hy. done.
    + intros Hno.
      destruct (Overpass.lat (Overpass.location_ (osm_data poi)))
        as [x|] eqn:Hx; [|by rewrite Hnone by by left].
      destruct (Overpass.lon (Overpass.location_ (osm_data poi)))
        as [y|] eqn:Hy; [|by rewrite Hnone by by right].
      destruct (Hsome x y eq_refl eq_refl) as (d & -> & _).
      cbn [result_bind]. rewrite IHno; [done|].
      intros Hall. apply Hno. constructor; [|done].
      rewrite Hx, Hy. by eauto.
Qed.

Lemma chroma_document_loads poi :
  let osm := osm_data poi in
  exists d,
    chroma_document repr (_structure_document poi) = Val d /\
    lookup "lat" (metadata d)
    = Some (of_option_float (Overpass.lat (Overpass.location_ osm))) /\
    lookup "lon" (metadata d)
    = Some (of_option_float (Overpass.lon (Overpass.location_ osm))) /\
    (let osm := osm_data poi in
     lookup "id" (metadata d)
     = Some (JStr (Overpass.osm_type osm +:+ "_"
                   +:+ str_int (Overpass.osm_id osm))) /\
     lookup "name" (metadata d) = Some (JStr (Overpass.name osm)) /\
     lookup "category" (metadata d) = Some (JStr (Overpass.category osm)) /\
     lookup "tags" (metadata d)
     = Some (JStr (String.concat ", " (_extract_tags osm (wiki_data poi)))) /\
     lookup "quality_score" (metadata d)
     = Some (JFloat (_calculate_quality_score osm (wiki_data poi))) /\
     exists rest,
       page_content d = "Địa điểm: " +:+ Overpass.name osm +:+ rest).
Proof.
  intros osm.
  destruct (item_content_document poi)
    as (c & rest & Hc & Hloc & Hvariants & Hbasic & Hhist & Hprac & Htips
        & Hfoods & Hcontent).
  unfold chroma_document. rewrite Hc. cbn [result_bind].
  unfold RagDocument._structure_document, RagDocument._build_metadata.
  fold osm.
  cbn [get lookup String.eqb Ascii.eqb Bool.eqb result_bind].
  rewrite join_strings. cbn [result_bind].
  eexists. split; [reflexivity|].
  cbn [metadata page_content lookup String.eqb Ascii.eqb Bool.eqb].
  repeat (split; [reflexivity|]). by exists rest.
Qed.

(** X18. The loader of [import_to_vectordb.py] raises nothing on the
    documents of the processor, food records being dictionaries with a
    string for price range: it returns one document for each POI, in the
    order of the POIs, whose text begins with the name of the POI and
    whose metadata hold the id, name, category, tags and quality score
    that the processor wrote, and the coordinates as they are, [None] for
    a POI that has none. *)
Theorem chroma_loader_takes_every_document (pois : list enriched) :
  exists docs,
    load_documents_from_json (chroma_document repr)
      (JList (prepare_for_rag pois)) = Val docs /\
    Forall2 (fun poi d =>
      let osm := osm_data poi in
      lookup "lat" (metadata d)
      = Some (of_option_float (Overpass.lat (Overpass.location_ osm))) /\
      lookup "lon" (metadata d)
      = Some (of_option_float (Overpass.lon (Overpass.location_ osm))) /\
      lookup "id" (metadata d)
      = Some (JStr (Overpass.osm_type osm +:+ "_"
                    +:+ str_int (Overpass.osm_id osm))) /\
      lookup "name" (metadata d) = Some (JStr (Overpass.name osm)) /\
      lookup "category" (metadata d) = Some (JStr (Overpass.category osm)) /\
      lookup "tags" (metadata d)
      = Some (JStr (String.concat ", "
                      (_extract_tags osm (wiki_data poi)))) /\
      lookup "quality_score" (metadata d)
      = Some (JFloat (_calculate_quality_score osm (wiki_data poi))) /\
      exists rest,
        page_content d = "Địa điểm: " +:+ Overpass.name osm +:+ rest)
      pois docs.
Proof.
  unfold load_documents_from_json, RagDocument.prepare_for_rag.
  cbn [iterate result_bind].
  induction pois as [|poi pois (docs & Hdocs & Hall)].
  - exists []. split; [done|constructor].
  - rewrite fmap_cons. cbn [Overpass.comprehension].
    destruct (chroma_document_loads poi) as (d & -> & Hd).
    rewrite Hdocs. exists (d :: docs). split; [done|].
    constructor; [exact Hd|done].
Qed.

End LoadProcessed.

(** X17 on a POI without coordinates: the Qdrant loader raises. *)
Lemma qdrant_loader_needs_coordinates_witness :
  let temple :=
    Overpass.Poi 2 "way" "Van Mieu" None None "historic" "monument"
      (Overpass.Location None None "")
      (Overpass.BasicInfo "" None None None None None) ∅ in
  let restaurant_json r := Json.JDict [("name", Json.JStr (Food.name r))] in
  let docs :=
    RagDocument.prepare_for_rag (fun _ => "") (fun _ => "") (fun _ => "")
      (fun _ _ => []) (fun _ _ => []) (fun l => l) "2025-01-01T00:00:00"
      restaurant_json [RagDocument.Enriched temple None None] in
  (forall r, exists line,
     Loader.food_line (fun _ => "?") (restaurant_json r) = Py.Val line) /\
  Loader.load_documents_from_json
    (Loader.qdrant_document (fun _ => "?") (fun _ => Py.Raise Py.ValueError))
    (Json.JList docs)
  = Py.Raise Py.TypeError.
Proof.
  intros temple restaurant_json docs.
  assert (Hfood : forall r, exists line,
    Loader.food_line (fun _ => "?") (restaurant_json r) = Py.Val line).
  { intros r. eexists. reflexivity. }
  split; [exact Hfood|].
  refine (proj2 (qdrant_loader_needs_coordinates (fun _ => "") (fun _ => "")
    (fun _ => "") (fun _ _ => []) (fun _ _ => []) (fun l => l)
    "2025-01-01T00:00:00" restaurant_json (fun _ => "?")
    (fun _ => Py.Raise Py.ValueError) Hfood
    [RagDocument.Enriched temple None None]) _).
  intros Hall. apply Forall_cons in Hall as [[[x Hx] _] _]. discriminate Hx.
Defined.

(** X18 on the same POI: the Chroma loader returns its document, with
    [None] for the latitude. *)
Lemma chroma_loader_takes_every_document_witness :
  let temple :=
    Overpass.Poi 2 "way" "Van Mieu" None None "historic" "monument"
      (Overpass.Location None None "")
      (Overpass.BasicInfo "" None None None None None) ∅ in
  let restaurant_json r := Json.JDict [("name", Json.JStr (Food.name r))] in
  let docs :=
    RagDocument.prepare_for_rag (fun _ => "") (fun _ => "") (fun _ => "")
      (fun _ _ => []) (fun _ _ => []) (fun l => l) "2025-01-01T00:00:00"
      restaurant_json [RagDocument.Enriched temple None None] in
  (forall r, exists line,
     Loader.food_line (fun _ => "?") (restaurant_json r) = Py.Val line) /\
  exists loaded,
    Loader.load_documents_from_json (Loader.chroma_document (fun _ => "?"))
      (Json.JList docs) = Py.Val loaded /\
    length loaded = 1 /\
    (Json.lookup "lat" ∘ Loader.metadata) <$> loaded = [Some Json.JNull].
Proof.
  intros temple restaurant_json docs.
  assert (Hfood : forall r, exists line,
    Loader.food_line (fun _ => "?") (restaurant_json r) = Py.Val line).
  { intros r. eexists. reflexivity. }
  split; [exact Hfood|].
  destruct (chroma_loader_takes_every_document (fun _ => "") (fun _ => "")
    (fun _ => "") (fun _ _ => []) (fun _ _ => []) (fun l => l)
    "2025-01-01T00:00:00" restaurant_json (fun _ => "?") Hfood
    [RagDocument.Enriched temple None None]) as (loaded & Hloaded & Hall).
  exists loaded. split; [exact Hloaded|].
  apply Forall2_cons_inv_l in Hall as (d & rest & (Hlat & _) & Hrest & ->).
  apply Forall2_nil_inv_l in Hrest as ->.
  split; [reflexivity|]. simpl. by rewrite Hlat.
Defined.
